(** * Recomart: a shallow embedding of the batch pipeline

    The repository is a sequence of Python scripts over pandas tables:
    - [5_data_preparation.py]   weights events, scales product attributes,
                                joins interactions with the catalog;
    - [6_data_transformation.py] groups the joined table three ways;
    - [7_feature_store.py]      a registry of feature views kept in a JSON file;
    - [9_model_training.py]     ranks catalog items by similarity.

    Tables are lists of records (one record per row, in row order), a missing
    cell (NaN) is [None], Python exceptions are values of [exn], and the
    filesystem and the console are explicit state.  Numbers that the scripts
    hold in binary64 are held here as the rationals they denote, and the
    scaler and the group means round as binary64 arithmetic does. *)

From Stdlib Require Import ZArith QArith Qminmax Qround Qpower Qabs Lqa.
From Stdlib Require Import List Ascii String Permutation Sorted Lia.
From Stdlib Require Import OrderedTypeEx.
From stdpp Require Import base gmap strings sorting.

Open Scope string_scope.
Open Scope Z_scope.

(** ** Python outcomes *)

Module Py.

Inductive exn : Type :=
| IndexError
| KeyError
| ValueError
| ZeroDivisionError
| FileNotFoundError.

(** What a call does: it returns a value or raises. *)
Inductive result (A : Type) : Type :=
| Returned (a : A)
| Raised (e : exn).

Arguments Returned {A} a.
Arguments Raised {A} e.

#[export] Instance result_ret : MRet result := fun A a => Returned a.

(** Sequencing: the first exception raised ends the computation. *)
#[export] Instance result_bind : MBind result := fun A B k m =>
  match m with
  | Returned a => k a
  | Raised e => Raised e
  end.

(** [xs[i]] on a Python list, [i >= 0]. *)
Definition getitem {A} (xs : list A) (i : nat) : result A :=
  match nth_error xs i with
  | Some x => Returned x
  | None => Raised IndexError
  end.

Fixpoint result_mapM {A B} (f : A -> result B) (xs : list A) : result (list B) :=
  match xs with
  | nil => Returned nil
  | x :: t => y ← f x; ys ← result_mapM f t; Returned (y :: ys)
  end.

(** [xs[start:stop]] with Python's treatment of negative and oversized
    bounds (step 1). *)
Definition clamp_bound (len i : Z) : Z :=
  if i <? 0 then Z.max 0 (i + len) else Z.min i len.

Definition slice {A} (start stop : Z) (xs : list A) : list A :=
  let len := Z.of_nat (length xs) in
  let lo := clamp_bound len start in
  let hi := clamp_bound len stop in
  firstn (Z.to_nat (hi - lo)) (skipn (Z.to_nat lo) xs).

(** [list(enumerate(xs))], counting from [n]. *)
Fixpoint enumerate_from {A} (n : nat) (xs : list A) : list (nat * A) :=
  match xs with
  | nil => nil
  | x :: t => (n, x) :: enumerate_from (S n) t
  end.

Definition enumerate {A} (xs : list A) : list (nat * A) := enumerate_from 0 xs.

(** [sorted(xs, key=key, reverse=True)]: descending by key, and stable:
    elements whose keys compare equal keep their input order. *)
Fixpoint insert_desc {A} (key : A -> Q) (x : A) (l : list A) : list A :=
  match l with
  | nil => x :: nil
  | y :: t => if Qle_bool (key y) (key x) then x :: y :: t
              else y :: insert_desc key x t
  end.

Definition sorted_reverse {A} (key : A -> Q) (xs : list A) : list A :=
  fold_right (insert_desc key) nil xs.

End Py.

Import Py.

(** ** binary64 arithmetic

    A finite binary64 number is held as the rational it denotes.  An
    arithmetic operation of numpy or pandas on such numbers gives the exact
    result rounded to the nearest binary64 number, ties to the one with an
    even significand (IEEE 754, the default rounding).  Infinities and NaN
    are not held: no operation below leaves the finite range on numbers of
    the size of prices, ratings and weights. *)

Module Binary64.

(** [floor(log2 x)] for [x > 0]. *)
Definition ilog2 (x : Q) : Z :=
  let k := Z.log2 (Qnum x) - Z.log2 (Z.pos (Qden x)) in
  if Qle_bool (2 ^ k) x then k else k - 1.

(** The nearest integer, ties to even. *)
Definition round_half_even (t : Q) : Z :=
  let f := Qfloor t in
  match (t - inject_Z f ?= 1 # 2)%Q with
  | Lt => f
  | Gt => f + 1
  | Eq => if Z.even f then f else f + 1
  end.

(** The exponent of the last of the 53 bits of the significand; it
    stops at -1074, where the subnormal numbers lie. *)
Definition ulp_exponent (x : Q) : Z := Z.max (ilog2 x - 52) (-1074).

(** The nearest multiple of [2^e]. *)
Definition round_to (e : Z) (x : Q) : Q :=
  (inject_Z (round_half_even (x / 2 ^ e)) * 2 ^ e)%Q.

Definition round_positive (x : Q) : Q := round_to (ulp_exponent x) x.

(** The binary64 number nearest to [x]. *)
Definition round (x : Q) : Q :=
  match (x ?= 0)%Q with
  | Eq => 0%Q
  | Gt => round_positive x
  | Lt => (- round_positive (- x))%Q
  end.

Definition add (x y : Q) : Q := round (x + y).
Definition sub (x y : Q) : Q := round (x - y).
Definition mul (x y : Q) : Q := round (x * y).
Definition div (x y : Q) : Q := round (x / y).

End Binary64.

(** ** Group keys

    pandas sorts the groups of a [groupby] by key.  Keys here are the
    identifiers of the tables: strings compared code point by code point,
    integers, and pairs of keys compared lexicographically. *)

Class KeyOrder (K : Type) := kcmp : K -> K -> comparison.

#[export] Instance Z_KeyOrder : KeyOrder Z := Z.compare.
#[export] Instance string_KeyOrder : KeyOrder string := String.compare.

(** Tuples compare on the first component, then on the second. *)
#[export] Instance pair_KeyOrder {A B} `{KeyOrder A} `{KeyOrder B}
  : KeyOrder (A * B) := fun x y =>
  match kcmp (fst x) (fst y) with
  | Eq => kcmp (snd x) (snd y)
  | c => c
  end.

Definition keqb {K} `{KeyOrder K} (a b : K) : bool :=
  match kcmp a b with Eq => true | _ => false end.

(** ** pandas: [groupby] and its reductions

    pandas leaves out of a [groupby] the rows whose key is missing; the
    identifiers of the tables are never missing here. *)

Module Pandas.

Section GroupBy.
Context {K R : Type} `{KeyOrder K}.
Variable key : R -> K.

(** The distinct keys in ascending order ([sort=True], the default). *)
Fixpoint insert_key (k : K) (ks : list K) : list K :=
  match ks with
  | nil => k :: nil
  | x :: t =>
      match kcmp k x with
      | Lt => k :: x :: t
      | Eq => x :: t
      | Gt => x :: insert_key k t
      end
  end.

Definition group_keys (df : list R) : list K :=
  fold_right insert_key nil (map key df).

(** The rows of one group, in table order. *)
Definition get_group (df : list R) (k : K) : list R :=
  List.filter (fun r => keqb (key r) k) df.

(** [df.groupby(key)]: one group per distinct key, groups in key order. *)
Definition groupby (df : list R) : list (K * list R) :=
  map (fun k => (k, get_group df k)) (group_keys df).

(** [df.groupby(key).agg(...).reset_index()]: one output row per group,
    built from the key and the rows of the group. *)
Definition groupby_agg {O : Type} (agg : K -> list R -> O) (df : list R) : list O :=
  map (fun g => agg (fst g) (snd g)) (groupby df).
End GroupBy.

(** Reductions over one column of a group.  No cell of the reduced columns
    is missing, so ['count'] is the number of rows. *)
Definition count {A} (xs : list A) : Z := Z.of_nat (length xs).

Definition sum (xs : list Z) : Z := fold_right Z.add 0 xs.

(** ['mean']: the sum divided by the count, in binary64; a group is never
    empty.  The cells are integers whose sum binary64 holds exactly. *)
Definition mean (xs : list Z) : Q :=
  Binary64.div (inject_Z (sum xs)) (inject_Z (count xs)).

(** ['max'] of a column of instants. *)
Definition max (xs : list Z) : option Z :=
  match xs with
  | nil => None
  | x :: t => Some (fold_right Z.max x t)
  end.

(** ['first']: the first cell of the group that is not missing. *)
Fixpoint first {A} (xs : list (option A)) : option A :=
  match xs with
  | nil => None
  | Some a :: _ => Some a
  | None :: t => first t
  end.

(** [col.nunique()] and [len(df.drop_duplicates(cols))]. *)
Definition nunique {K} `{KeyOrder K} (xs : list K) : Z :=
  Z.of_nat (length (fold_right insert_key nil xs)).

End Pandas.

(** ** 5_data_preparation.py *)

Module DataPreparation.

(** One row of the interactions table.  [event_type] is the cell as read
    from the CSV: text, or missing.  [timestamp] is the instant that
    [pd.to_datetime] yields for the cell. *)
Record interaction := {
  interaction_id : string;
  user_id : string;
  product_id : Z;
  event_type : option string;
  device : string;
  timestamp : Z;
  session_id : string
}.

(** The [rating] cell of a product: the text of a dict literal such as
    [{'rate': 3.9, 'count': 120}] (a numeric rate; the key ['rate'] may be
    absent), or anything on which [ast.literal_eval(val).get] raises. *)
Inductive rating_cell :=
| RatingDict (rate : option Q) (count : option Z)
| RatingMalformed.

Record product := {
  id : Z;
  category : string;
  price : Q;
  rating : rating_cell
}.

(** Business logic weights for implicit feedback. *)
Definition event_weights : gmap string Z :=
  <["view" := 1]> (<["click" := 2]> (<["add_to_cart" := 5]> (<["purchase" := 10]> ∅))).

(** [Series.map(d)]: a cell that is missing or is no key of [d] becomes NaN. *)
Definition series_map (d : gmap string Z) (cell : option string) : option Z :=
  match cell with
  | Some s => d !! s
  | None => None
  end.

Definition fillna (v : Z) (cell : option Z) : Z :=
  match cell with
  | Some x => x
  | None => v
  end.

(** [df['event_type'].map(event_weights).fillna(1)], cell by cell. *)
Definition interaction_weight_of (event : option string) : Z :=
  fillna 1 (series_map event_weights event).

(** An interaction with the derived column [interaction_weight]. *)
Record weighted_interaction := {
  event : interaction;
  interaction_weight : Z
}.

Definition engineer_interaction_features (df : list interaction)
  : list weighted_interaction :=
  map (fun r => {| event := r;
                   interaction_weight := interaction_weight_of (event_type r) |}) df.

(** [ast.literal_eval(val).get('rate', 0)], and 0 on any exception. *)
Definition parse_rate (val : rating_cell) : Q :=
  match val with
  | RatingDict (Some r) _ => r
  | RatingDict None _ => 0%Q
  | RatingMalformed => 0%Q
  end.

Definition column_min (x : Q) (xs : list Q) : Q := fold_right Qmin x xs.
Definition column_max (x : Q) (xs : list Q) : Q := fold_right Qmax x xs.

(** *** scikit-learn's [MinMaxScaler], default [feature_range=(0, 1)]

    The scaler works feature by feature on binary64 numbers; each of its
    array operations rounds. *)

(** [np.finfo(np.float64).eps] *)
Definition float64_eps : Q := 1 # 4503599627370496.

(** A range below [10 * eps] counts as constant and is replaced by 1, so
    that nothing is divided by it. *)
Definition _handle_zeros_in_scale (scale : Q) : Q :=
  if Qle_bool (10 * float64_eps) scale then scale else 1%Q.

(** What [fit] learns about one feature. *)
Record MinMaxScaler := {
  data_min_ : Q;
  data_max_ : Q;
  data_range_ : Q;
  scale_ : Q;
  min_ : Q
}.

(** [data_range = data_max - data_min],
    [scale_ = (1 - 0) / _handle_zeros_in_scale(data_range)],
    [min_ = 0 - data_min * scale_]. *)
Definition fit (x0 : Q) (t : list Q) : MinMaxScaler :=
  let data_min := column_min x0 t in
  let data_max := column_max x0 t in
  let data_range := Binary64.sub data_max data_min in
  let scale := Binary64.div (1 - 0) (_handle_zeros_in_scale data_range) in
  {| data_min_ := data_min;
     data_max_ := data_max;
     data_range_ := data_range;
     scale_ := scale;
     min_ := Binary64.sub 0 (Binary64.mul data_min scale) |}.

(** [X *= self.scale_; X += self.min_] *)
Definition transform (scaler : MinMaxScaler) (x : Q) : Q :=
  Binary64.add (Binary64.mul x (scale_ scaler)) (min_ scaler).

(** One feature, fitted and transformed. *)
Definition min_max_scale (col : list Q) : list Q :=
  match col with
  | nil => nil
  | x0 :: t => map (transform (fit x0 t)) col
  end.

(** [scaler.fit_transform(X)] for a table of two features.  The input
    validation refuses a table without rows. *)
Definition fit_transform (X : list (Q * Q)) : result (list (Q * Q)) :=
  match X with
  | nil => Raised ValueError
  | _ => Returned (combine (min_max_scale (map fst X)) (min_max_scale (map snd X)))
  end.

(** A product with the derived columns. *)
Record product_features := {
  raw : product;
  rating_val : Q;
  norm_price : Q;
  norm_rating : Q
}.

Definition engineer_product_features (df_prod : list product)
  : result (list product_features) :=
  let rating_vals := map (fun p => parse_rate (rating p)) df_prod in
  scaled ← fit_transform (combine (map price df_prod) rating_vals);
  Returned
    (map (fun '(p, rv, (np, nr)) =>
            {| raw := p; rating_val := rv; norm_price := np; norm_rating := nr |})
         (combine (combine df_prod rating_vals) scaled)).

(** The console: fixed messages, and messages that carry a number. *)
Inductive line :=
| Text (s : string)
| Metric (label : string) (value : Q)
| ExecutionError (e : exn).

Definition user_product (r : weighted_interaction) : string * Z :=
  (user_id (event r), product_id (event r)).

(** Matrix sparsity: (1 - (actual interactions / total possible cells)).
    The quotient is taken before anything is printed. *)
Definition calculate_global_sparsity (df : list weighted_interaction)
  : result (Q * list line) :=
  let n_users := Pandas.nunique (map (fun r => user_id (event r)) df) in
  let n_items := Pandas.nunique (map (fun r => product_id (event r)) df) in
  let actual_interactions := Pandas.nunique (map user_product df) in
  let total_matrix_cells := n_users * n_items in
  if total_matrix_cells =? 0 then Raised ZeroDivisionError
  else
    let sparsity :=
      ((1 - inject_Z actual_interactions / inject_Z total_matrix_cells) * 100)%Q in
    Returned (sparsity,
              [ Text "----------------------------------------";
                Text "GLOBAL DATASET METRICS";
                Text "----------------------------------------";
                Metric "Total Unique Users:" (inject_Z n_users);
                Metric "Total Unique Products:" (inject_Z n_items);
                Metric "Calculated Sparsity:" sparsity;
                Text "----------------------------------------" ]).

(** The plots go to image files; the console gets one line. *)
Definition run_eda (df_inter : list weighted_interaction)
  (df_prod : list product_features) : list line :=
  [ Text "Generating Exploratory Analysis Plots..." ].

(** The columns that the join takes from the product table, besides the
    join key [id]. *)
Record item_columns := {
  item_category : string;
  item_norm_price : Q;
  item_norm_rating : Q
}.

(** One row of the Gold table: the interaction and, when its product is in
    the catalog, that product's columns; [None] stands for the three cells
    being missing. *)
Record gold_row := {
  inter : weighted_interaction;
  item : option item_columns
}.

Definition project_item (p : product_features) : item_columns :=
  {| item_category := category (raw p);
     item_norm_price := norm_price p;
     item_norm_rating := norm_rating p |}.

(** [pd.merge(df_inter, df_prod[...], left_on='product_id', right_on='id',
    how='left')]: every left row, in order, once per matching right row, and
    once with missing cells when no right row matches. *)
Definition merge_left (df_inter : list weighted_interaction)
  (df_prod : list product_features) : list gold_row :=
  flat_map (fun i =>
    match List.filter (fun p => id (raw p) =? product_id (event i)) df_prod with
    | nil => [ {| inter := i; item := None |} ]
    | ms => map (fun p => {| inter := i; item := Some (project_item p) |}) ms
    end) df_inter.

(** What a run leaves behind: the console, the Gold file when it was
    written, and the value returned to the caller (always [None], here [tt]). *)
Record run_outcome := {
  stdout : list line;
  gold_file : option (list gold_row);
  returned : unit
}.

(** The main pipeline, from the two Silver tables as loaded. *)
Definition run_data_preparation (silver_inter : list interaction)
  (silver_prod : list product) : run_outcome :=
  let started := [ Text "Initializing Section 5: Data Preparation..." ] in
  let failed e := {| stdout := started ++ [ ExecutionError e ];
                     gold_file := None; returned := tt |} in
  let df_inter := engineer_interaction_features silver_inter in
  match engineer_product_features silver_prod with
  | Raised e => failed e
  | Returned df_prod =>
      match calculate_global_sparsity df_inter with
      | Raised e => failed e
      | Returned (_, metrics) =>
          let gold_df := merge_left df_inter df_prod in
          {| stdout := started ++ metrics ++ run_eda df_inter df_prod ++
                       [ Text "Pipeline Successful!";
                         Text "Gold Dataset Saved: recomart-data-lake/gold/recomart_gold_prepared.csv";
                         Text "EDA Assets Created in: ./eda_plots/" ];
             gold_file := Some gold_df; returned := tt |}
      end
  end.

(** [max(x, *xs)] on strings: the scan keeps the greatest string seen, in
    code point order, and replaces it only by a strictly greater one. *)
Definition max_str (x : string) (xs : list string) : string :=
  fold_left (fun m y => if String.ltb m y then y else m) xs x.

(** Fetches the latest silver folder based on timestamp.  [folders] is
    what [glob.glob] lists for the dataset, in the order it lists them. *)
Definition get_latest_silver_path (folders : list string) : result string :=
  match folders with
  | nil => Raised FileNotFoundError
  | f :: fs => Returned (max_str f fs)
  end.

End DataPreparation.

(** ** 6_data_transformation.py *)

Module DataTransformation.
Import DataPreparation.

(** The columns of the Gold table that the aggregations read. *)
Definition gold_user_id (r : gold_row) : string := user_id (event (inter r)).
Definition gold_product_id (r : gold_row) : Z := product_id (event (inter r)).
Definition gold_weight (r : gold_row) : Z := interaction_weight (inter r).
Definition gold_timestamp (r : gold_row) : Z := timestamp (event (inter r)).
Definition gold_norm_price (r : gold_row) : option Q := item_norm_price <$> item r.
Definition gold_norm_rating (r : gold_row) : option Q := item_norm_rating <$> item r.
Definition gold_category (r : gold_row) : option string := item_category <$> item r.

Record user_feature := {
  uf_user_id : string;
  user_activity_count : Z;
  user_avg_affinity : Q;
  user_total_score : Z;
  last_active_ts : option Z
}.

(** [np.log1p] of a count, kept as the expression it is. *)
Inductive np_float := log1p (n : Z).

Record item_feature := {
  if_product_id : Z;
  item_interaction_count : Z;
  item_avg_affinity : Q;
  norm_price : option Q;
  norm_rating : option Q;
  category : option string;
  global_popularity_score : np_float
}.

Record affinity := {
  am_user_id : string;
  am_product_id : Z;
  affinity_score : Z
}.

(** [pd.read_csv] loads the user_id column as text when its cells are not
    numbers, booleans or tokens for a missing value; a column of digits
    only would be loaded as integers, and its groups ordered as integers.
    The generator writes the ids as [U0001], and no such token starts with
    [U], so a column of these is text and its groups are ordered code point
    by code point. *)
Definition text_id (user_id : string) : bool := String.prefix "U" user_id.

Definition text_user_ids (df : list gold_row) : Prop :=
  Forall (fun r => text_id (gold_user_id r) = true) df.

(** User features: activity and engagement. *)
Definition user_features (df : list gold_row) : list user_feature :=
  Pandas.groupby_agg gold_user_id (fun k g =>
    {| uf_user_id := k;
       user_activity_count := Pandas.count (map gold_weight g);
       user_avg_affinity := Pandas.mean (map gold_weight g);
       user_total_score := Pandas.sum (map gold_weight g);
       last_active_ts := Pandas.max (map gold_timestamp g) |}) df.

(** Item features: popularity and quality. *)
Definition item_features (df : list gold_row) : list item_feature :=
  Pandas.groupby_agg gold_product_id (fun k g =>
    let n := Pandas.count (map gold_weight g) in
    {| if_product_id := k;
       item_interaction_count := n;
       item_avg_affinity := Pandas.mean (map gold_weight g);
       norm_price := Pandas.first (map gold_norm_price g);
       norm_rating := Pandas.first (map gold_norm_rating g);
       category := Pandas.first (map gold_category g);
       global_popularity_score := log1p n |}) df.

Definition gold_pair (r : gold_row) : string * Z := (gold_user_id r, gold_product_id r).

(** The user-item affinity matrix, one row per group. *)
Definition interaction_matrix (df : list gold_row) : list affinity :=
  Pandas.groupby_agg gold_pair (fun k g =>
    {| am_user_id := fst k;
       am_product_id := snd k;
       affinity_score := Pandas.sum (map gold_weight g) |}) df.

(** The three tables written to the feature store. *)
Record feature_tables := {
  user_feature_store : list user_feature;
  item_feature_store : list item_feature;
  user_item_affinity_matrix : list affinity
}.

(** [gold] is the Gold file as loaded, [None] when the file is not there:
    then nothing is written. *)
Definition run_feature_transformation (gold : option (list gold_row))
  : option feature_tables :=
  match gold with
  | None => None
  | Some df =>
      Some {| user_feature_store := user_features df;
              item_feature_store := item_features df;
              user_item_affinity_matrix := interaction_matrix df |}
  end.

End DataTransformation.

(** ** os.path (POSIX) *)

Module OsPath.

Definition startswith_slash (s : string) : bool :=
  match s with
  | String c _ => Ascii.eqb c "/"%char
  | EmptyString => false
  end.

Fixpoint endswith_slash (s : string) : bool :=
  match s with
  | EmptyString => false
  | String c EmptyString => Ascii.eqb c "/"%char
  | String _ t => endswith_slash t
  end.

Definition join (a b : string) : string :=
  if startswith_slash b then b
  else if String.eqb a EmptyString || endswith_slash a then a ++ b
  else a ++ "/" ++ b.

(** [s.split('/')], with [cur] the component being read. *)
Fixpoint split_slash (cur s : string) : list string :=
  match s with
  | EmptyString => [cur]
  | String c t =>
      if Ascii.eqb c "/"%char then cur :: split_slash EmptyString t
      else split_slash (cur ++ String c EmptyString) t
  end.

(** One turn of the loop of [normpath]; the components kept so far are
    held last first. *)
Definition norm_step (initial_slashes : nat) (kept : list string) (comp : string)
  : list string :=
  if String.eqb comp EmptyString || String.eqb comp "." then kept
  else if negb (String.eqb comp "..")
          || (Nat.eqb initial_slashes 0 && match kept with nil => true | _ => false end)
          || match kept with c :: _ => String.eqb c ".." | nil => false end
       then comp :: kept
       else List.tail kept.

Definition normpath (path : string) : string :=
  if String.eqb path EmptyString then "."
  else
    let initial_slashes :=
      match path with
      | String "/"%char (String "/"%char (String "/"%char _)) => 1%nat
      | String "/"%char (String "/"%char _) => 2%nat
      | String "/"%char _ => 1%nat
      | _ => 0%nat
      end in
    let comps := rev (fold_left (norm_step initial_slashes) (split_slash EmptyString path) nil) in
    let p := String.concat "/" comps in
    let p := (match initial_slashes with
              | 0%nat => EmptyString | 1%nat => "/" | _ => "//" end ++ p)%string in
    if String.eqb p EmptyString then "." else p.

(** [os.path.abspath], for a process whose working directory is [cwd]. *)
Definition abspath (cwd path : string) : string :=
  normpath (if startswith_slash path then path else join cwd path).

End OsPath.

(** ** 7_feature_store.py *)

Module FeatureStore.

(** The metadata of one feature view, as stored under its name. *)
Record feature_view := {
  source : string;
  entity_key : string;
  feature_list : list string;
  version : string;
  created_at : string
}.

(** The registry document: [{"feature_views": {...}, "metadata": {...}}]. *)
Record registry := {
  feature_views : gmap string feature_view;
  metadata : gmap string string
}.

(** A CSV file as [pd.read_csv] loads it: the header and the rows, cells as
    text. *)
Record table := {
  columns : list string;
  rows : list (list string)
}.

Inductive file :=
| JsonFile (doc : registry)
| CsvFile (df : table)
| OtherFile.

Inductive message :=
| FileNotFoundMessage (path : string)
| RegisteredMessage (name version : string).

(** The world outside the object: the files by absolute path, the working
    directory of the process, and what was printed (oldest first). *)
Record world := {
  fs : gmap string file;
  cwd : string;
  console : list message
}.

Definition os_path_exists (w : world) (path : string) : bool :=
  bool_decide (is_Some (fs w !! OsPath.abspath (cwd w) path)).

Definition print (w : world) (m : message) : world :=
  {| fs := fs w; cwd := cwd w; console := console w ++ [m] |}.

(** [open(path, 'w')] followed by [json.dump(doc, f)]. *)
Definition json_dump (w : world) (path : string) (doc : registry) : world :=
  {| fs := <[OsPath.abspath (cwd w) path := JsonFile doc]> (fs w);
     cwd := cwd w; console := console w |}.

(** The object: [self.base_path], [self.registry_path], [self.registry]. *)
Record RecomartFeatureStore := {
  base_path : string;
  registry_path : string;
  self_registry : registry
}.

Definition empty_registry : registry :=
  {| feature_views := ∅;
     metadata := <["project" := "Recomart"]> (<["last_updated" := EmptyString]> ∅) |}.

(** Loads the metadata registry or initializes a new one. *)
Definition _load_registry (w : world) (registry_path : string) : result registry :=
  match fs w !! OsPath.abspath (cwd w) registry_path with
  | Some (JsonFile doc) => Returned doc
  | Some _ => Raised ValueError
  | None => Returned empty_registry
  end.

Definition init (w : world) (base : string) : result RecomartFeatureStore :=
  let path := OsPath.join base "metadata_registry.json" in
  doc ← _load_registry w path;
  Returned {| base_path := base; registry_path := path; self_registry := doc |}.

(** Documents and versions a group of features.  [t_created] and
    [t_updated] are the two readings of the clock.  The call returns [None]
    on both paths. *)
Definition register_feature_view (self : RecomartFeatureStore) (w : world)
  (name source_filename entity_key : string) (features : list string)
  (version t_created t_updated : string)
  : RecomartFeatureStore * world * result unit :=
  let full_source_path :=
    OsPath.abspath (cwd w) (OsPath.join (base_path self) source_filename) in
  if negb (os_path_exists w full_source_path) then
    (self, print w (FileNotFoundMessage full_source_path), Returned tt)
  else
    let view := {| source := full_source_path;
                   entity_key := entity_key;
                   feature_list := features;
                   version := version;
                   created_at := t_created |} in
    let doc := {| feature_views := <[name := view]> (feature_views (self_registry self));
                  metadata := <["last_updated" := t_updated]>
                                (metadata (self_registry self)) |} in
    let self' := {| base_path := base_path self;
                    registry_path := registry_path self;
                    self_registry := doc |} in
    let w' := json_dump w (registry_path self) doc in
    (self', print w' (RegisteredMessage name version), Returned tt).

Definition index_of (c : string) (cols : list string) : result nat :=
  match List.find (fun ic => String.eqb (snd ic) c) (enumerate cols) with
  | Some ic => Returned (fst ic)
  | None => Raised KeyError
  end.

(** [df[cols]]: the named columns, in the order asked for. *)
Definition select (df : table) (cols : list string) : result table :=
  idxs ← result_mapM (fun c => index_of c (columns df)) cols;
  Returned {| columns := cols;
              rows := map (fun r => map (fun i => nth i r EmptyString) idxs) (rows df) |}.

Definition read_csv (w : world) (path : string) : result table :=
  match fs w !! OsPath.abspath (cwd w) path with
  | Some (CsvFile df) => Returned df
  | Some _ => Raised ValueError
  | None => Raised FileNotFoundError
  end.

(** Retrieves the full dataset for batch model training. *)
Definition get_historical_features (self : RecomartFeatureStore) (w : world)
  (view_name : string) : result table :=
  match feature_views (self_registry self) !! view_name with
  | None => Raised ValueError
  | Some view =>
      df ← read_csv w (source view);
      select df (entity_key view :: feature_list view)
  end.

(** Retrieves specific features for a single entity.  A cell holds the
    text that [astype(str)] gives for it and [entity_id] is
    [str(entity_id)].  [df[entity_key]] is the one column of that name, and
    [df[mask]] keeps the rows where the mask holds.  (A view whose feature
    list repeats the entity key gives [df] two columns of that name; then
    [df[entity_key]] is a frame, not a column, and this definition does not
    apply: the properties of this function exclude such views.)  The result
    is [None] when no row matches. *)
Definition get_online_feature (self : RecomartFeatureStore) (w : world)
  (view_name entity_id : string) : result (option table) :=
  df ← get_historical_features self w view_name;
  view ← match feature_views (self_registry self) !! view_name with
         | Some view => Returned view
         | None => Raised KeyError
         end;
  i ← index_of (entity_key view) (columns df);
  let result := List.filter (fun r => String.eqb (nth i r EmptyString) entity_id)
                            (rows df) in
  match result with
  | nil => Returned None
  | _ => Returned (Some {| columns := columns df; rows := result |})
  end.

End FeatureStore.

(** ** 9_model_training.py *)

Module ModelTraining.
Import DataTransformation.

Definition dot (x y : list Q) : Q :=
  fold_right Qplus 0%Q (map (fun ab => (fst ab * snd ab)%Q) (combine x y)).

(** [linear_kernel(X, Y)]: the matrix of the dot products of the rows. *)
Definition linear_kernel (X Y : list (list Q)) : list (list Q) :=
  map (fun x => map (dot x) Y) X.

(** [df_items.index[df_items['product_id'] == product_id].tolist()] *)
Definition matching_index (df_items : list item_feature) (product_id : Z) : list nat :=
  map fst (List.filter (fun ir => if_product_id (snd ir) =? product_id)
                       (enumerate df_items)).

(** The scored positions that are kept: all scores of row [idx], sorted by
    score, then [[1:top_n+1]]. *)
Definition top_scores (cosine_sim : list (list Q)) (idx : nat) (top_n : Z)
  : result (list (nat * Q)) :=
  row ← getitem cosine_sim idx;
  let sim_scores := enumerate row in
  let sim_scores := sorted_reverse snd sim_scores in
  Returned (slice 1 (top_n + 1) sim_scores).

(** One row of [df_items[['product_id', 'category', 'norm_rating']]]. *)
Definition recommendation : Type := Z * option string * option Q.

Definition project (r : item_feature) : recommendation :=
  (if_product_id r, category r, norm_rating r).

(** [df_items.iloc[item_indices]] *)
Definition iloc (df_items : list item_feature) (item_indices : list nat)
  : result (list item_feature) :=
  result_mapM (getitem df_items) item_indices.

(** The recommendation function; [df_items] and [cosine_sim] are the
    variables of the enclosing function that it reads. *)
Definition get_recommendations (df_items : list item_feature)
  (cosine_sim : list (list Q)) (product_id : Z) (top_n : Z)
  : result (list recommendation) :=
  idx ← getitem (matching_index df_items product_id) 0;
  sim_scores ← top_scores cosine_sim idx top_n;
  let item_indices := map fst sim_scores in
  picked ← iloc df_items item_indices;
  Returned (map project picked).

(** The recommender that [run_content_based_recommender] builds from the
    item table and the TF-IDF matrix of its [category] column (one row per
    item, computed by scikit-learn). *)
Definition recommender (df_items : list item_feature) (tfidf_matrix : list (list Q))
  : Z -> Z -> result (list recommendation) :=
  get_recommendations df_items (linear_kernel tfidf_matrix tfidf_matrix).

End ModelTraining.

(** * Worked inputs *)

Module Scenario.
Import DataPreparation.

Definition ev (n : string) (u : string) (p : Z) (e : string) (t : Z) : interaction :=
  {| interaction_id := n; user_id := u; product_id := p; event_type := Some e;
     device := "mobile_app"; timestamp := t; session_id := "SESS_10000" |}.

(** 3 users, 2 products, 5 interactions: U1 views P1 twice and purchases
    P2 once, U2 clicks P1 once, U3 adds P2 to the cart once.  P1 and P2 are
    the products 1 and 2. *)
Definition interactions : list interaction :=
  [ ev "INT_000000" "U1" 1 "view" 100;
    ev "INT_000001" "U1" 1 "view" 200;
    ev "INT_000002" "U1" 2 "purchase" 300;
    ev "INT_000003" "U2" 1 "click" 400;
    ev "INT_000004" "U3" 2 "add_to_cart" 500 ].

Definition products : list product :=
  [ {| id := 1; category := "electronics"; price := 10%Q;
       rating := RatingDict (Some (39 # 10)%Q) (Some 120) |};
    {| id := 2; category := "jewelery"; price := 30%Q;
       rating := RatingDict (Some (45 # 10)%Q) (Some 70) |} ].

(** The Gold table that the preparation stage writes for them. *)
Definition gold : list gold_row :=
  match gold_file (run_data_preparation interactions products) with
  | Some gold_df => gold_df
  | None => nil
  end.

End Scenario.

(** * Properties *)

(** ** Event weighting *)

Module WeightingProps.
Import DataPreparation.

(** The weighting as the specification words it: a case analysis on the
    event type, 1 for anything else. *)
Definition spec_weight (event : option string) : Z :=
  match event with
  | None => 1
  | Some s =>
      if String.eqb s "view" then 1
      else if String.eqb s "click" then 2
      else if String.eqb s "add_to_cart" then 5
      else if String.eqb s "purchase" then 10
      else 1
  end.

Definition known_event_types : list string :=
  [ "view"; "click"; "add_to_cart"; "purchase" ].

Lemma interaction_weight_of_spec (event : option string) :
  interaction_weight_of event = spec_weight event.
Proof.
  destruct event as [s|]; [| reflexivity].
  unfold interaction_weight_of, series_map, event_weights, spec_weight.
  repeat (rewrite lookup_insert; case_decide as Hs;
          [ subst s; reflexivity
          | apply String.eqb_neq in Hs; rewrite String.eqb_sym in Hs;
            rewrite Hs; clear Hs ]).
  rewrite lookup_empty. reflexivity.
Qed.

Lemma spec_weight_unknown (s : string) :
  ~ In s known_event_types -> spec_weight (Some s) = 1.
Proof.
  intros Hs. simpl.
  repeat match goal with
  | |- context [String.eqb s ?k] =>
      destruct (String.eqb_spec s k) as [->|_];
      [ exfalso; apply Hs; simpl; tauto | ]
  end.
  reflexivity.
Qed.

(** C6: the derivation of [interaction_weight] always yields a value, which
    depends on the event type alone: view gives 1, click 2, add_to_cart 5,
    purchase 10, and any other event type, or a missing one, gives 1. *)
Theorem interaction_weight_total_pure :
  (forall df : list interaction,
      map interaction_weight (engineer_interaction_features df)
      = map (fun r => spec_weight (event_type r)) df
      /\ map event (engineer_interaction_features df) = df)
  /\ interaction_weight_of (Some "view") = 1
  /\ interaction_weight_of (Some "click") = 2
  /\ interaction_weight_of (Some "add_to_cart") = 5
  /\ interaction_weight_of (Some "purchase") = 10
  /\ interaction_weight_of None = 1
  /\ (forall s : string,
        ~ In s known_event_types -> interaction_weight_of (Some s) = 1).
Proof.
  split; [| repeat split; try reflexivity].
  - intros df. unfold engineer_interaction_features.
    rewrite !map_map. simpl. split.
    + apply map_ext. intros r. apply interaction_weight_of_spec.
    + apply map_id.
  - intros s Hs. rewrite interaction_weight_of_spec.
    apply spec_weight_unknown, Hs.
Qed.

Lemma interaction_weight_total_pure_witness :
  ~ In "scroll" known_event_types
  /\ interaction_weight_of (Some "scroll") = 1.
Proof.
  assert (Hs : ~ In "scroll" known_event_types).
  { simpl. intros [H|[H|[H|[H|[]]]]]; discriminate H. }
  split; [exact Hs |].
  exact (proj2 (proj2 (proj2 (proj2 (proj2 (proj2
           interaction_weight_total_pure))))) "scroll" Hs).
Defined.

End WeightingProps.

(** ** binary64 rounding *)

Module Binary64Props.
Import Binary64.

Lemma pow2_pos (e : Z) : (0 < 2 ^ e)%Q.
Proof. apply Qpower_0_lt. reflexivity. Qed.

Lemma pow2_nonzero (e : Z) : ~ (2 ^ e == 0)%Q.
Proof. pose proof (pow2_pos e). lra. Qed.

Lemma pow2_le (a b : Z) : a <= b -> (2 ^ a <= 2 ^ b)%Q.
Proof. intros H. apply Qpower_le_compat_l; [exact H | discriminate]. Qed.

Lemma pow2_lt_inv (a b : Z) : (2 ^ a < 2 ^ b)%Q -> a < b.
Proof. intros H. apply (Qpower_lt_compat_l_inv 2); [exact H | reflexivity]. Qed.

Lemma pow2_plus (a b : Z) : (2 ^ (a + b) == 2 ^ a * 2 ^ b)%Q.
Proof. apply Qpower_plus. discriminate. Qed.

Lemma pow2_Z (n : Z) : 0 <= n -> (2 ^ n == inject_Z (2 ^ n))%Q.
Proof. intros H. rewrite Zpower_Qpower by exact H. reflexivity. Qed.

Lemma inject_Z_pos (z : Z) : 0 < z -> (0 < inject_Z z)%Q.
Proof. intros H. change 0%Q with (inject_Z 0). rewrite <- Zlt_Qlt. exact H. Qed.

Lemma ilog2_spec (x : Q) :
  (0 < x)%Q -> (2 ^ ilog2 x <= x /\ x < 2 ^ (ilog2 x + 1))%Q.
Proof.
  intros Hx. destruct x as [n d].
  assert (Hn : 0 < n) by (unfold Qlt in Hx; simpl in Hx; lia).
  unfold ilog2. cbn [Qnum Qden].
  set (ln := Z.log2 n). set (ld := Z.log2 (Z.pos d)).
  pose proof (Z.log2_spec n Hn) as [Hn1 Hn2].
  pose proof (Z.log2_spec (Z.pos d) (Pos2Z.is_pos d)) as [Hd1 Hd2].
  fold ln in Hn1, Hn2. fold ld in Hd1, Hd2.
  assert (Hln : 0 <= ln) by apply Z.log2_nonneg.
  assert (Hld : 0 <= ld) by apply Z.log2_nonneg.
  assert (Elow : (2 ^ (ln - ld - 1) <= n # d)%Q).
  { replace (ln - ld - 1) with (ln - (ld + 1)) by lia.
    rewrite Qpower_minus by discriminate.
    rewrite (pow2_Z ln), (pow2_Z (ld + 1)) by lia.
    rewrite (Qmake_Qdiv n d).
    apply Qle_shift_div_l; [apply inject_Z_pos; lia |].
    unfold Qdiv. rewrite <- Qmult_assoc, (Qmult_comm (/ _)), Qmult_assoc.
    apply Qle_shift_div_r; [apply inject_Z_pos; lia |].
    rewrite <- !inject_Z_mult, <- Zle_Qle.
    replace (Z.succ ld) with (ld + 1) in Hd2 by lia. nia. }
  assert (Ehigh : (n # d < 2 ^ (ln - ld + 1))%Q).
  { replace (ln - ld + 1) with (ln + 1 - ld) by lia.
    rewrite Qpower_minus by discriminate.
    rewrite (pow2_Z (ln + 1)), (pow2_Z ld) by lia.
    rewrite (Qmake_Qdiv n d).
    apply Qlt_shift_div_r; [apply inject_Z_pos; lia |].
    unfold Qdiv. rewrite <- Qmult_assoc, (Qmult_comm (/ _)), Qmult_assoc.
    apply Qlt_shift_div_l; [apply inject_Z_pos; lia |].
    rewrite <- !inject_Z_mult, <- Zlt_Qlt.
    replace (Z.succ ln) with (ln + 1) in Hn2 by lia. nia. }
  destruct (Qle_bool (2 ^ (ln - ld)) (n # d)) eqn:E.
  - apply Qle_bool_iff in E. split; [exact E | exact Ehigh].
  - split; [exact Elow |].
    replace (ln - ld - 1 + 1) with (ln - ld) by lia.
    apply Qnot_le_lt. intros H. apply Qle_bool_iff in H. congruence.
Qed.

Lemma ilog2_mono (x y : Q) : (0 < x)%Q -> (x <= y)%Q -> ilog2 x <= ilog2 y.
Proof.
  intros Hx Hxy.
  destruct (ilog2_spec x Hx) as [Hlo _].
  destruct (ilog2_spec y) as [_ Hhi]; [lra |].
  assert (ilog2 x < ilog2 y + 1) by (apply pow2_lt_inv; lra).
  lia.
Qed.

Lemma round_half_even_Z (z : Z) : round_half_even (inject_Z z) = z.
Proof.
  unfold round_half_even. rewrite Qfloor_Z.
  assert (E : (inject_Z z - inject_Z z ?= 1 # 2)%Q = Lt).
  { apply Qlt_alt. ring_simplify (inject_Z z - inject_Z z)%Q. reflexivity. }
  rewrite E. reflexivity.
Qed.

(** The nearest integer is the floor or the integer after it. *)
Lemma round_half_even_floor (t : Q) :
  Qfloor t <= round_half_even t <= Qfloor t + 1.
Proof.
  unfold round_half_even.
  destruct (t - inject_Z (Qfloor t) ?= 1 # 2)%Q; [destruct (Z.even _) | |]; lia.
Qed.

Lemma round_half_even_mono (t u : Q) :
  (t <= u)%Q -> round_half_even t <= round_half_even u.
Proof.
  intros Htu.
  pose proof (Qfloor_resp_le t u Htu) as Hf.
  destruct (Z.eq_dec (Qfloor t) (Qfloor u)) as [E|E].
  - unfold round_half_even. rewrite E.
    destruct (Qcompare_spec (t - inject_Z (Qfloor u)) (1 # 2)) as [Ht|Ht|Ht];
      destruct (Qcompare_spec (u - inject_Z (Qfloor u)) (1 # 2)) as [Hu|Hu|Hu];
      try destruct (Z.even (Qfloor u)); try lia; lra.
  - pose proof (round_half_even_floor t). pose proof (round_half_even_floor u). lia.
Qed.

(** It is within a half of its argument. *)
Lemma round_half_even_near (t : Q) :
  (Qabs (inject_Z (round_half_even t) - t) <= 1 # 2)%Q.
Proof.
  pose proof (Qfloor_le t) as Hlo. pose proof (Qlt_floor t) as Hhi.
  rewrite inject_Z_plus in Hhi. change (inject_Z 1) with 1%Q in Hhi.
  apply Qabs_Qle_condition. unfold round_half_even.
  destruct (Qcompare_spec (t - inject_Z (Qfloor t)) (1 # 2)) as [Ht|Ht|Ht].
  - destruct (Z.even (Qfloor t));
      [| rewrite inject_Z_plus; change (inject_Z 1) with 1%Q]; lra.
  - lra.
  - rewrite inject_Z_plus. change (inject_Z 1) with 1%Q. lra.
Qed.

Lemma round_to_mono (e : Z) (x y : Q) :
  (x <= y)%Q -> (round_to e x <= round_to e y)%Q.
Proof.
  intros Hxy. unfold round_to. pose proof (pow2_pos e) as He.
  apply Qmult_le_compat_r; [| lra].
  rewrite <- Zle_Qle. apply round_half_even_mono.
  unfold Qdiv. apply Qmult_le_compat_r; [exact Hxy |].
  apply Qlt_le_weak, Qinv_lt_0_compat, He.
Qed.

(** A multiple of [2^e'] is on every finer grid. *)
Lemma round_to_multiple (e e' m : Z) :
  e <= e' -> (round_to e (inject_Z m * 2 ^ e') == inject_Z m * 2 ^ e')%Q.
Proof.
  intros Hle. unfold round_to.
  assert (E : (inject_Z m * 2 ^ e' / 2 ^ e == inject_Z (m * 2 ^ (e' - e)))%Q).
  { rewrite inject_Z_mult, <- (pow2_Z (e' - e)) by lia.
    rewrite Qpower_minus by discriminate. field. apply pow2_nonzero. }
  unfold round_half_even. rewrite (Qfloor_comp _ _ E), Qfloor_Z.
  assert (C : (inject_Z m * 2 ^ e' / 2 ^ e - inject_Z (m * 2 ^ (e' - e)) ?= 1 # 2)%Q = Lt).
  { apply Qlt_alt. rewrite E. ring_simplify (inject_Z (m * 2 ^ (e' - e)) - inject_Z (m * 2 ^ (e' - e)))%Q. reflexivity. }
  rewrite C, <- E. field. apply pow2_nonzero.
Qed.

Lemma ulp_exponent_mono (x y : Q) :
  (0 < x)%Q -> (x <= y)%Q -> ulp_exponent x <= ulp_exponent y.
Proof.
  intros Hx Hxy. unfold ulp_exponent. pose proof (ilog2_mono x y Hx Hxy). lia.
Qed.

Lemma round_positive_mono (x y : Q) :
  (0 < x)%Q -> (x <= y)%Q -> (round_positive x <= round_positive y)%Q.
Proof.
  intros Hx Hxy. unfold round_positive.
  pose proof (ulp_exponent_mono x y Hx Hxy) as He.
  destruct (Z.eq_dec (ulp_exponent x) (ulp_exponent y)) as [E|E].
  - rewrite E. apply round_to_mono, Hxy.
  - (* a power of two lies between them, on both grids *)
    assert (Hy : (0 < y)%Q) by lra.
    destruct (ilog2_spec x Hx) as [_ Hxhi]. destruct (ilog2_spec y Hy) as [Hylo _].
    set (ex := ulp_exponent x) in *. set (ey := ulp_exponent y) in *.
    assert (Eey : ilog2 y = ey + 52) by (unfold ey, ulp_exponent in *; lia).
    assert (Eex : ilog2 x + 1 <= ex + 53) by (unfold ex, ulp_exponent; lia).
    set (B := (inject_Z 1 * 2 ^ ilog2 y)%Q).
    assert (HB : (B == 2 ^ ilog2 y)%Q) by (unfold B; change (inject_Z 1) with 1%Q; ring).
    assert (HxB : (x <= B)%Q).
    { rewrite HB. apply Qlt_le_weak. eapply Qlt_le_trans; [exact Hxhi |].
      apply pow2_le. lia. }
    assert (HBy : (B <= y)%Q) by (rewrite HB; exact Hylo).
    apply Qle_trans with (round_to ex B); [apply round_to_mono, HxB |].
    apply Qle_trans with (round_to ey B); [| apply round_to_mono, HBy].
    unfold B. rewrite !round_to_multiple by lia. apply Qle_refl.
Qed.

Lemma round_positive_nonneg (x : Q) : (0 <= x)%Q -> (0 <= round_positive x)%Q.
Proof.
  intros Hx. unfold round_positive, round_to.
  pose proof (pow2_pos (ulp_exponent x)) as He.
  apply Qmult_le_0_compat; [| lra].
  change 0%Q with (inject_Z 0). rewrite <- Zle_Qle.
  rewrite <- (round_half_even_Z 0). apply round_half_even_mono.
  change (inject_Z 0) with 0%Q. apply Qle_shift_div_l; [exact He | lra].
Qed.

(** Rounding keeps the order. *)
Theorem round_mono (x y : Q) : (x <= y)%Q -> (round x <= round y)%Q.
Proof.
  intros Hxy. unfold round.
  destruct (Qcompare_spec x 0) as [Hx|Hx|Hx];
    destruct (Qcompare_spec y 0) as [Hy|Hy|Hy];
    try (pose proof (round_positive_nonneg (- x));
         pose proof (round_positive_nonneg y); lra).
  - pose proof (round_positive_mono (- y) (- x)). lra.
  - apply round_positive_mono; assumption.
Qed.

#[export] Instance round_comp : Proper (Qeq ==> Qeq) round.
Proof.
  intros x y E. apply Qle_antisym; apply round_mono; rewrite E; apply Qle_refl.
Qed.

Lemma round_0 : (round 0 == 0)%Q.
Proof. reflexivity. Qed.

Lemma round_nonneg (x : Q) : (0 <= x)%Q -> (0 <= round x)%Q.
Proof. intros H. rewrite <- round_0. apply round_mono, H. Qed.

#[export] Instance round_to_comp (e : Z) : Proper (Qeq ==> Qeq) (round_to e).
Proof.
  intros x y E. apply Qle_antisym; apply round_to_mono; rewrite E; apply Qle_refl.
Qed.

(** The binary64 numbers: [m * 2^e] with at most 53 bits in [m] and an
    exponent not below that of the subnormal numbers. *)
Definition representable (x : Q) : Prop :=
  exists m e, -1074 <= e /\ Z.abs m <= 2 ^ 53 /\ (x == inject_Z m * 2 ^ e)%Q.

Lemma representable_opp (x : Q) : representable x -> representable (- x).
Proof.
  intros (m & e & He & Hm & E). exists (- m), e.
  split; [exact He |]. split; [lia |]. rewrite E, inject_Z_opp. ring.
Qed.

Lemma round_positive_exact (x : Q) (m e : Z) :
  0 < m < 2 ^ 53 -> -1074 <= e -> (x == inject_Z m * 2 ^ e)%Q ->
  (round_positive x == x)%Q.
Proof.
  intros Hm He E. pose proof (pow2_pos e) as Hpe.
  assert (Hx : (0 < x)%Q).
  { rewrite E. apply Qmult_lt_0_compat; [apply inject_Z_pos; lia | exact Hpe]. }
  assert (Hhi : (x < 2 ^ (53 + e))%Q).
  { rewrite E, pow2_plus, (pow2_Z 53) by lia.
    apply Qmult_lt_compat_r; [exact Hpe |]. rewrite <- Zlt_Qlt. lia. }
  destruct (ilog2_spec x Hx) as [Hlo _].
  assert (ilog2 x < 53 + e) by (apply pow2_lt_inv; lra).
  unfold round_positive.
  assert (Hle : ulp_exponent x <= e) by (unfold ulp_exponent; lia).
  apply Qeq_trans with (round_to (ulp_exponent x) (inject_Z m * 2 ^ e));
    [apply round_to_comp, E |].
  rewrite round_to_multiple by exact Hle. symmetry. exact E.
Qed.

Lemma round_positive_exact_pos (x : Q) :
  (0 < x)%Q -> representable x -> (round_positive x == x)%Q.
Proof.
  intros Hx (m & e & He & Hm & E). pose proof (pow2_pos e) as Hpe.
  assert (Hmpos : 0 < m).
  { destruct (Z_lt_le_dec 0 m) as [H|H]; [exact H | exfalso].
    assert (inject_Z m <= 0)%Q by (change 0%Q with (inject_Z 0); rewrite <- Zle_Qle; lia).
    assert (inject_Z m * 2 ^ e <= 0 * 2 ^ e)%Q
      by (apply Qmult_le_compat_r; [assumption | lra]).
    lra. }
  destruct (Z.eq_dec m (2 ^ 53)) as [->|Hne].
  - apply (round_positive_exact x (2 ^ 52) (e + 1)); [lia | lia |].
    rewrite E, pow2_plus. change (2 ^ 1)%Q with 2%Q.
    change (2 ^ 53) with (2 ^ 52 * 2). rewrite inject_Z_mult.
    change (inject_Z 2) with 2%Q. ring.
  - apply (round_positive_exact x m e); [lia | exact He | exact E].
Qed.

(** A binary64 number rounds to itself. *)
Theorem round_representable (x : Q) : representable x -> (round x == x)%Q.
Proof.
  intros Hr. unfold round.
  destruct (Qcompare_spec x 0) as [Hx|Hx|Hx].
  - symmetry. exact Hx.
  - rewrite (round_positive_exact_pos (- x)); [ring | lra |].
    apply representable_opp, Hr.
  - apply round_positive_exact_pos; assumption.
Qed.

Lemma round_positive_is_representable (x : Q) :
  (0 < x)%Q -> representable (round_positive x).
Proof.
  intros Hx. unfold round_positive, round_to.
  set (e := ulp_exponent x). pose proof (pow2_pos e) as Hpe.
  exists (round_half_even (x / 2 ^ e)), e.
  split; [unfold e, ulp_exponent; lia |]. split; [| reflexivity].
  assert (Hlo : 0 <= round_half_even (x / 2 ^ e)).
  { rewrite <- (round_half_even_Z 0). apply round_half_even_mono.
    change (inject_Z 0) with 0%Q. apply Qle_shift_div_l; [exact Hpe | lra]. }
  assert (Hhi : round_half_even (x / 2 ^ e) <= 2 ^ 53).
  { rewrite <- (round_half_even_Z (2 ^ 53)). apply round_half_even_mono.
    apply Qle_shift_div_r; [exact Hpe |].
    rewrite <- (pow2_Z 53), <- pow2_plus by lia.
    destruct (ilog2_spec x Hx) as [_ H]. apply Qlt_le_weak.
    eapply Qlt_le_trans; [exact H |]. apply pow2_le.
    unfold e, ulp_exponent. lia. }
  lia.
Qed.

(** What rounding yields is a binary64 number. *)
Theorem round_is_representable (x : Q) : representable (round x).
Proof.
  unfold round. destruct (Qcompare_spec x 0) as [Hx|Hx|Hx].
  - exists 0, 0. split; [lia |]. split; [simpl; lia | reflexivity].
  - apply representable_opp, round_positive_is_representable. lra.
  - apply round_positive_is_representable, Hx.
Qed.

Lemma round_opp_round (x : Q) : (round (0 - round x) == - round x)%Q.
Proof.
  rewrite round_representable; [ring |].
  destruct (round_is_representable x) as (m & e & He & Hm & E).
  exists (- m), e. split; [exact He |]. split; [lia |].
  rewrite E, inject_Z_opp. ring.
Qed.

Lemma round_Z (n : Z) : Z.abs n <= 2 ^ 53 -> (round (inject_Z n) == inject_Z n)%Q.
Proof.
  intros Hn. apply round_representable. exists n, 0.
  split; [lia |]. split; [exact Hn |]. change (2 ^ 0)%Q with 1%Q. ring.
Qed.

(** In the normal range the relative error is at most [2^-53]. *)
Theorem round_error (x : Q) :
  (2 ^ (-1022) <= x)%Q -> (Qabs (round x - x) <= x * 2 ^ (-53))%Q.
Proof.
  intros Hn.
  assert (Hx : (0 < x)%Q) by (pose proof (pow2_pos (-1022)); lra).
  destruct (ilog2_spec x Hx) as [Hlo Hhi].
  assert (Hl : -1022 <= ilog2 x).
  { assert (-1022 < ilog2 x + 1) by (apply pow2_lt_inv; lra). lia. }
  unfold round. destruct (Qcompare_spec x 0) as [H0|H0|H0]; try lra.
  unfold round_positive, round_to.
  assert (Ee : ulp_exponent x = ilog2 x - 52) by (unfold ulp_exponent; lia).
  rewrite Ee. set (e := ilog2 x - 52). pose proof (pow2_pos e) as Hpe.
  set (t := (x / 2 ^ e)%Q).
  assert (Et : (inject_Z (round_half_even t) * 2 ^ e - x
                == (inject_Z (round_half_even t) - t) * 2 ^ e)%Q).
  { unfold t. field. apply pow2_nonzero. }
  rewrite Et, Qabs_Qmult, (Qabs_pos (2 ^ e)) by lra.
  apply Qle_trans with ((1 # 2) * 2 ^ e)%Q.
  - apply Qmult_le_compat_r; [apply round_half_even_near | lra].
  - assert (E2 : ((1 # 2) * 2 ^ e == 2 ^ ilog2 x * 2 ^ (-53))%Q).
    { rewrite <- pow2_plus. replace (ilog2 x + -53) with (e + -1) by (unfold e; lia).
      rewrite pow2_plus. change (2 ^ (-1))%Q with (/ 2)%Q. field. }
    rewrite E2. apply Qmult_le_compat_r; [exact Hlo |].
    apply Qlt_le_weak, pow2_pos.
Qed.

End Binary64Props.

(** ** Min-max normalisation *)

Module NormalizationProps.
Import DataPreparation Binary64Props.

Lemma column_min_le (x0 : Q) (t : list Q) (x : Q) :
  In x (x0 :: t) -> (column_min x0 t <= x)%Q.
Proof.
  unfold column_min. induction t as [|y t IH]; simpl.
  - intros [<-|[]]. apply Qle_refl.
  - intros [<-|[<-|Hx]].
    + eapply Qle_trans; [apply Q.le_min_r | apply IH; left; reflexivity].
    + apply Q.le_min_l.
    + eapply Qle_trans; [apply Q.le_min_r | apply IH; right; exact Hx].
Qed.

Lemma column_max_ge (x0 : Q) (t : list Q) (x : Q) :
  In x (x0 :: t) -> (x <= column_max x0 t)%Q.
Proof.
  unfold column_max. induction t as [|y t IH]; simpl.
  - intros [<-|[]]. apply Qle_refl.
  - intros [<-|[<-|Hx]].
    + eapply Qle_trans; [apply IH; left; reflexivity | apply Q.le_max_r].
    + apply Q.le_max_l.
    + eapply Qle_trans; [apply IH; right; exact Hx | apply Q.le_max_r].
Qed.

Lemma column_min_const (x0 : Q) (t : list Q) :
  (forall x, In x t -> x == x0)%Q -> (column_min x0 t == x0)%Q.
Proof.
  unfold column_min. induction t as [|y t IH]; simpl; intros Hc.
  - reflexivity.
  - rewrite IH by (intros x Hx; apply Hc; right; exact Hx).
    rewrite (Hc y) by (left; reflexivity). apply Q.min_id.
Qed.

Definition unit_interval (v : Q) : Prop := (0 <= v /\ v <= 1)%Q.

Lemma length_min_max_scale (col : list Q) :
  length (min_max_scale col) = length col.
Proof. destruct col as [|x0 t]; [reflexivity | apply length_map]. Qed.

Lemma column_range_nonneg (x0 : Q) (t : list Q) :
  (0 <= column_max x0 t - column_min x0 t)%Q.
Proof.
  pose proof (column_min_le x0 t x0 (or_introl eq_refl)).
  pose proof (column_max_ge x0 t x0 (or_introl eq_refl)).
  lra.
Qed.

Lemma float64_eps_small : (0 < 10 * float64_eps /\ 10 * float64_eps < 1)%Q.
Proof. unfold float64_eps. split; reflexivity. Qed.

(** The divisor is positive and not below the range. *)
Lemma handle_zeros_in_scale_bounds (r : Q) :
  (0 <= r)%Q ->
  (0 < _handle_zeros_in_scale r /\ r <= _handle_zeros_in_scale r)%Q.
Proof.
  intros Hr. unfold _handle_zeros_in_scale.
  destruct float64_eps_small as [He0 He1].
  destruct (Qle_bool (10 * float64_eps) r) eqn:E.
  - apply Qle_bool_iff in E. split; lra.
  - assert (Hlt : (r < 10 * float64_eps)%Q).
    { apply Qnot_le_lt. intros Hle. apply Qle_bool_iff in Hle. congruence. }
    split; lra.
Qed.

(** The learnt scale is not negative. *)
Lemma fit_scale_nonneg (x0 : Q) (t : list Q) : (0 <= scale_ (fit x0 t))%Q.
Proof.
  unfold fit. cbn [scale_]. unfold Binary64.div, Binary64.sub.
  apply round_nonneg.
  destruct (handle_zeros_in_scale_bounds
              (Binary64.round (column_max x0 t - column_min x0 t))) as [Hpos _].
  { apply round_nonneg, column_range_nonneg. }
  apply Qle_shift_div_l; [exact Hpos | lra].
Qed.

(** [transform] keeps the order of the values. *)
Lemma transform_mono (scaler : MinMaxScaler) (x y : Q) :
  (0 <= scale_ scaler)%Q -> (x <= y)%Q ->
  (transform scaler x <= transform scaler y)%Q.
Proof.
  intros Hs Hxy. unfold transform, Binary64.add, Binary64.mul.
  apply round_mono, Qplus_le_compat; [| apply Qle_refl].
  apply round_mono, Qmult_le_compat_r; assumption.
Qed.

Lemma transform_comp (scaler : MinMaxScaler) (x y : Q) :
  (0 <= scale_ scaler)%Q -> (x == y)%Q ->
  (transform scaler x == transform scaler y)%Q.
Proof.
  intros Hs E. apply Qle_antisym; apply transform_mono; try exact Hs;
    rewrite E; apply Qle_refl.
Qed.

(** The least value of the column is sent to 0: the product that is
    subtracted is the one that was added. *)
Lemma transform_fit_min (x0 : Q) (t : list Q) :
  (transform (fit x0 t) (column_min x0 t) == 0)%Q.
Proof.
  unfold transform, fit. cbn [scale_ min_].
  unfold Binary64.add, Binary64.sub, Binary64.mul.
  set (b := (column_min x0 t * _)%Q).
  rewrite <- round_0. apply round_comp. rewrite round_opp_round. ring.
Qed.

Lemma min_max_scale_nonneg (col : list Q) :
  Forall (fun v => 0 <= v)%Q (min_max_scale col).
Proof.
  destruct col as [|x0 t]; [constructor |].
  unfold min_max_scale.
  apply Forall_map, Forall_forall. intros x Hx. apply list_elem_of_In in Hx.
  rewrite <- (transform_fit_min x0 t).
  apply transform_mono; [apply fit_scale_nonneg | apply column_min_le, Hx].
Qed.

Lemma min_max_scale_degenerate (col : list Q) :
  (forall x y, In x col -> In y col -> x == y)%Q ->
  Forall (fun v => v == 0)%Q (min_max_scale col).
Proof.
  intros Hc. destruct col as [|x0 t]; [constructor |].
  unfold min_max_scale.
  assert (Hlo : (column_min x0 t == x0)%Q).
  { apply column_min_const. intros x Hx. apply Hc; simpl; auto. }
  apply Forall_map, Forall_forall. intros x Hx. apply list_elem_of_In in Hx.
  rewrite <- (transform_fit_min x0 t).
  apply transform_comp; [apply fit_scale_nonneg |].
  rewrite Hlo. apply Hc; [exact Hx | left; reflexivity].
Qed.

Lemma map_fst_combine {A B} (xs : list A) (ys : list B) :
  length xs = length ys -> map fst (combine xs ys) = xs.
Proof.
  revert ys. induction xs as [|x xs IH]; intros [|y ys] Hl; simpl in *;
    try discriminate; [reflexivity |].
  f_equal. apply IH. congruence.
Qed.

Lemma map_snd_combine {A B} (xs : list A) (ys : list B) :
  length xs = length ys -> map snd (combine xs ys) = ys.
Proof.
  revert ys. induction xs as [|x xs IH]; intros [|y ys] Hl; simpl in *;
    try discriminate; [reflexivity |].
  f_equal. apply IH. congruence.
Qed.

Lemma fit_transform_returns (X : list (Q * Q)) :
  X <> nil ->
  fit_transform X
  = Returned (combine (min_max_scale (map fst X)) (min_max_scale (map snd X))).
Proof. destruct X; [congruence | reflexivity]. Qed.

(** With at least one product the table gets its derived columns, which
    are read back here one by one. *)
Lemma engineer_product_features_columns (df_prod : list product) :
  df_prod <> nil ->
  exists rows,
    engineer_product_features df_prod = Returned rows
    /\ map raw rows = df_prod
    /\ map norm_price rows = min_max_scale (map price df_prod)
    /\ map norm_rating rows
       = min_max_scale (map (fun p => parse_rate (rating p)) df_prod).
Proof.
  intros Hne. unfold engineer_product_features.
  set (rv := map (fun p => parse_rate (rating p)) df_prod).
  assert (Lrv : length rv = length df_prod) by apply length_map.
  assert (Lpr : length (map price df_prod) = length rv)
    by (rewrite length_map; congruence).
  rewrite fit_transform_returns.
  2:{ destruct df_prod; [congruence | discriminate]. }
  rewrite (map_fst_combine _ _ Lpr), (map_snd_combine _ _ Lpr).
  set (np := min_max_scale (map price df_prod)).
  set (nr := min_max_scale rv).
  assert (Lnp : length np = length df_prod).
  { unfold np. rewrite length_min_max_scale. apply length_map. }
  assert (Lnr : length nr = length df_prod).
  { unfold nr. rewrite length_min_max_scale. exact Lrv. }
  assert (Lab : length (combine df_prod rv) = length (combine np nr)).
  { rewrite !length_combine. lia. }
  eexists. split; [reflexivity |]. repeat split.
  - rewrite <- (map_fst_combine df_prod rv) at 2 by congruence.
    rewrite <- (map_fst_combine (combine df_prod rv) (combine np nr)) at 2
      by exact Lab.
    rewrite !map_map. apply map_ext. intros [[p r] [a b]]. reflexivity.
  - rewrite <- (map_fst_combine np nr) at 2 by congruence.
    rewrite <- (map_snd_combine (combine df_prod rv) (combine np nr)) at 2
      by exact Lab.
    rewrite !map_map. apply map_ext. intros [[p r] [a b]]. reflexivity.
  - rewrite <- (map_snd_combine np nr) at 2 by congruence.
    rewrite <- (map_snd_combine (combine df_prod rv) (combine np nr)) at 2
      by exact Lab.
    rewrite !map_map. apply map_ext. intros [[p r] [a b]]. reflexivity.
Qed.

Lemma Forall_of_map {A B} (f : A -> B) (P : B -> Prop) (xs : list A) :
  Forall P (map f xs) -> Forall (fun x => P (f x)) xs.
Proof. exact (proj1 (Forall_map f P xs)). Qed.

(** C7 read literally: the normalisation returns for every product set. *)
Definition normalization_never_faults : Prop :=
  forall df_prod : list product,
    exists rows, engineer_product_features df_prod = Returned rows.

(** C7 as stated fails on the product set without products: the scaler
    refuses a table without rows. *)
Lemma empty_product_set_faults :
  engineer_product_features nil = Raised ValueError
  /\ ~ normalization_never_faults.
Proof.
  split; [reflexivity |].
  intros Hnever. destruct (Hnever nil) as (rows & Hrows). discriminate Hrows.
Qed.

(** C7, amended: for every product set with at least one product, scaling
    the price and the parsed rating returns one row per product, no
    scaled value is below 0, and a column whose rows all hold the same
    value is scaled to 0 in every row.  Nothing is said of the upper end
    of the range: see [scaled_price_above_one]. *)
Theorem min_max_normalization_safe (df_prod : list product) :
  df_prod <> nil ->
  exists rows,
    engineer_product_features df_prod = Returned rows
    /\ map raw rows = df_prod
    /\ Forall (fun p => 0 <= norm_price p /\ 0 <= norm_rating p)%Q rows
    /\ ((forall p q, In p df_prod -> In q df_prod -> price p == price q)%Q ->
        Forall (fun p => norm_price p == 0)%Q rows)
    /\ ((forall p q, In p df_prod -> In q df_prod ->
                     parse_rate (rating p) == parse_rate (rating q))%Q ->
        Forall (fun p => norm_rating p == 0)%Q rows).
Proof.
  intros Hne.
  destruct (engineer_product_features_columns df_prod Hne)
    as (rows & Hrows & Hraw & Hnp & Hnr).
  exists rows. split; [exact Hrows |]. split; [exact Hraw |]. split; [| split].
  - apply Forall_and. split.
    + apply (Forall_of_map norm_price (fun v => 0 <= v)%Q). rewrite Hnp.
      apply min_max_scale_nonneg.
    + apply (Forall_of_map norm_rating (fun v => 0 <= v)%Q). rewrite Hnr.
      apply min_max_scale_nonneg.
  - intros Hc. apply (Forall_of_map norm_price (fun v => v == 0)%Q).
    rewrite Hnp. apply min_max_scale_degenerate.
    intros x y Hx Hy. apply in_map_iff in Hx, Hy.
    destruct Hx as (p & <- & Hp), Hy as (q & <- & Hq). apply Hc; assumption.
  - intros Hc. apply (Forall_of_map norm_rating (fun v => v == 0)%Q).
    rewrite Hnr. apply min_max_scale_degenerate.
    intros x y Hx Hy. apply in_map_iff in Hx, Hy.
    destruct Hx as (p & <- & Hp), Hy as (q & <- & Hq). apply Hc; assumption.
Qed.

(** Two products with the same price and the same rating. *)
Definition same_valued_products : list product :=
  [ {| id := 1; category := "electronics"; price := (25 # 2)%Q;
       rating := RatingDict (Some 4%Q) (Some 10) |};
    {| id := 2; category := "jewelery"; price := (25 # 2)%Q;
       rating := RatingDict (Some 4%Q) None |} ].

Lemma min_max_normalization_safe_witness :
  exists rows,
    engineer_product_features same_valued_products = Returned rows
    /\ Forall (fun p => norm_price p == 0)%Q rows
    /\ Forall (fun p => norm_rating p == 0)%Q rows.
Proof.
  destruct (min_max_normalization_safe same_valued_products)
    as (rows & Hrows & _ & _ & Hprice & Hrating); [discriminate |].
  exists rows. split; [exact Hrows |]. split.
  - apply Hprice. intros p q Hp Hq. simpl in Hp, Hq.
    destruct Hp as [<-|[<-|[]]], Hq as [<-|[<-|[]]]; reflexivity.
  - apply Hrating. intros p q Hp Hq. simpl in Hp, Hq.
    destruct Hp as [<-|[<-|[]]], Hq as [<-|[<-|[]]]; reflexivity.
Defined.

(** Two products priced 420.58 and 258.92, as binary64 holds the two
    prices. *)
Definition two_prices : list product :=
  [ {| id := 1; category := "electronics";
       price := (7398921606560481 # 17592186044416)%Q;
       rating := RatingDict (Some 4%Q) (Some 10) |};
    {| id := 2; category := "jewelery";
       price := (4554968810620191 # 17592186044416)%Q;
       rating := RatingDict (Some 4%Q) (Some 10) |} ].

(** The scaled price of the dearer one is 1.0000000000000002, the
    binary64 number after 1: the scaled values do not all lie in [0,1],
    which is what the comment on the scaler and C7 say they do. *)
Lemma scaled_price_above_one :
  exists rows,
    engineer_product_features two_prices = Returned rows
    /\ Forall2 Qeq (map norm_price rows) [ (1 + 2 ^ (-52))%Q; 0%Q ]
    /\ ~ Forall (fun p => unit_interval (norm_price p)) rows.
Proof.
  eexists. split; [reflexivity |]. split.
  - vm_compute. repeat constructor.
  - intros H. apply Forall_inv in H. destruct H as [_ H].
    vm_compute in H. apply H. reflexivity.
Qed.

End NormalizationProps.

(** ** Key orders are strict total orders *)

Class KeyOrderLaws (K : Type) `{KeyOrder K} := {
  kcmp_eq : forall a b : K, kcmp a b = Eq <-> a = b;
  kcmp_opp : forall a b : K, kcmp b a = CompOpp (kcmp a b);
  kcmp_trans : forall a b c : K, kcmp a b = Lt -> kcmp b c = Lt -> kcmp a c = Lt
}.

Lemma kcmp_refl {K} `{KeyOrderLaws K} (a : K) : kcmp a a = Eq.
Proof. apply kcmp_eq. reflexivity. Qed.

Lemma keqb_eq {K} `{KeyOrderLaws K} (a b : K) : keqb a b = true <-> a = b.
Proof.
  unfold keqb. rewrite <- kcmp_eq. destruct (kcmp a b); intuition discriminate.
Qed.

Lemma keqb_refl {K} `{KeyOrderLaws K} (a : K) : keqb a a = true.
Proof. apply keqb_eq. reflexivity. Qed.

Lemma Z_compare_opp (a b : Z) : (b ?= a) = CompOpp (a ?= b).
Proof. apply Z.compare_antisym. Qed.

Lemma Z_compare_trans (a b c : Z) :
  (a ?= b) = Lt -> (b ?= c) = Lt -> (a ?= c) = Lt.
Proof. rewrite !Z.compare_lt_iff. apply Z.lt_trans. Qed.

#[export] Instance Z_KeyOrderLaws : KeyOrderLaws Z :=
  {| kcmp_eq := Z.compare_eq_iff;
     kcmp_opp := Z_compare_opp;
     kcmp_trans := Z_compare_trans |}.

Lemma string_compare_refl (a : string) : String.compare a a = Eq.
Proof.
  destruct (String.compare a a) eqn:E; [reflexivity | |];
    pose proof (String.compare_antisym a a) as Ho; rewrite E in Ho; discriminate.
Qed.

Lemma string_compare_eq (a b : string) : String.compare a b = Eq <-> a = b.
Proof.
  split; [apply String.compare_eq_iff | intros ->; apply string_compare_refl].
Qed.

Lemma string_compare_opp (a b : string) :
  String.compare b a = CompOpp (String.compare a b).
Proof. apply String.compare_antisym. Qed.

Lemma string_compare_trans (a b c : string) :
  String.compare a b = Lt -> String.compare b c = Lt -> String.compare a c = Lt.
Proof.
  intros Hab Hbc.
  apply String_as_OT.cmp_lt.
  apply String_as_OT.lt_trans with b; apply String_as_OT.cmp_lt; assumption.
Qed.

#[export] Instance string_KeyOrderLaws : KeyOrderLaws string :=
  {| kcmp_eq := string_compare_eq;
     kcmp_opp := string_compare_opp;
     kcmp_trans := string_compare_trans |}.

Section PairOrder.
Context {A B : Type} `{KeyOrderLaws A} `{KeyOrderLaws B}.

Lemma pair_cmp_unfold (x y : A * B) :
  kcmp x y = match kcmp (fst x) (fst y) with
             | Eq => kcmp (snd x) (snd y)
             | c => c
             end.
Proof. reflexivity. Qed.

Lemma pair_cmp_eq (x y : A * B) : kcmp x y = Eq <-> x = y.
Proof.
  destruct x as [a1 b1], y as [a2 b2].
  rewrite pair_cmp_unfold. simpl.
  destruct (kcmp a1 a2) eqn:E.
  - apply kcmp_eq in E. subst a2. rewrite kcmp_eq.
    split; intros Heq; [subst; reflexivity | congruence].
  - split; [discriminate |]. intros Heq. inversion Heq; subst.
    rewrite kcmp_refl in E. discriminate.
  - split; [discriminate |]. intros Heq. inversion Heq; subst.
    rewrite kcmp_refl in E. discriminate.
Qed.

Lemma pair_cmp_opp (x y : A * B) : kcmp y x = CompOpp (kcmp x y).
Proof.
  destruct x as [a1 b1], y as [a2 b2].
  rewrite !pair_cmp_unfold. simpl.
  rewrite (kcmp_opp a1 a2). destruct (kcmp a1 a2); simpl; auto.
  apply kcmp_opp.
Qed.

Lemma pair_cmp_trans (x y z : A * B) :
  kcmp x y = Lt -> kcmp y z = Lt -> kcmp x z = Lt.
Proof.
  destruct x as [a1 b1], y as [a2 b2], z as [a3 b3].
  rewrite !pair_cmp_unfold. simpl.
  destruct (kcmp a1 a2) eqn:E12; try discriminate;
    destruct (kcmp a2 a3) eqn:E23; try discriminate; intros H1' H2'.
  - apply kcmp_eq in E12, E23. subst. rewrite kcmp_refl.
    eapply kcmp_trans; eassumption.
  - apply kcmp_eq in E12. subst. rewrite E23. reflexivity.
  - apply kcmp_eq in E23. subst. rewrite E12. reflexivity.
  - rewrite (kcmp_trans _ _ _ E12 E23). reflexivity.
Qed.

#[export] Instance pair_KeyOrderLaws : KeyOrderLaws (A * B) :=
  {| kcmp_eq := pair_cmp_eq;
     kcmp_opp := pair_cmp_opp;
     kcmp_trans := pair_cmp_trans |}.
End PairOrder.

(** ** [groupby]: the groups and their keys *)

Module GroupByProps.
Import Pandas.

Section Keys.
Context {K : Type} `{KeyOrderLaws K}.

Definition klt (a b : K) : Prop := kcmp a b = Lt.

Lemma klt_irrefl (a : K) : ~ klt a a.
Proof. unfold klt. rewrite kcmp_refl. discriminate. Qed.

Lemma klt_of_gt (a b : K) : kcmp a b = Gt -> klt b a.
Proof. unfold klt. intros E. rewrite (kcmp_opp a b), E. reflexivity. Qed.

Lemma In_insert_key (k : K) (ks : list K) (x : K) :
  In x (insert_key k ks) <-> x = k \/ In x ks.
Proof.
  induction ks as [|a ks IH]; simpl.
  - intuition.
  - destruct (kcmp k a) eqn:E; simpl.
    + apply kcmp_eq in E. subst a. intuition.
    + intuition.
    + rewrite IH. intuition.
Qed.

Lemma insert_key_sorted (k : K) (ks : list K) :
  StronglySorted klt ks -> StronglySorted klt (insert_key k ks).
Proof.
  induction 1 as [|a l Hl IH Ha]; simpl.
  - repeat constructor.
  - destruct (kcmp k a) eqn:E.
    + constructor; assumption.
    + constructor; [constructor; assumption |].
      constructor; [exact E |].
      rewrite Forall_forall in Ha |- *. intros y Hy.
      apply (kcmp_trans k a y E). apply Ha, Hy.
    + constructor; [exact IH |].
      rewrite Forall_forall in Ha |- *. intros y Hy.
      apply list_elem_of_In, In_insert_key in Hy. destruct Hy as [->|Hy].
      * apply klt_of_gt, E.
      * apply Ha, list_elem_of_In, Hy.
Qed.

Lemma distinct_sorted (l : list K) :
  StronglySorted klt (fold_right insert_key nil l).
Proof.
  induction l as [|x l IH]; simpl; [constructor | apply insert_key_sorted, IH].
Qed.

Lemma In_distinct (l : list K) (x : K) :
  In x (fold_right insert_key nil l) <-> In x l.
Proof.
  induction l as [|y l IH]; simpl; [reflexivity |].
  rewrite In_insert_key, IH. intuition.
Qed.

Lemma sorted_head_lt (a : K) (l : list K) (x : K) :
  StronglySorted klt (a :: l) -> In x l -> klt a x.
Proof.
  intros Hs Hx. apply StronglySorted_inv in Hs. destruct Hs as [_ Ha].
  rewrite Forall_forall in Ha. apply Ha, list_elem_of_In, Hx.
Qed.

(** A strictly ascending list is determined by its elements. *)
Lemma sorted_ext (l1 l2 : list K) :
  StronglySorted klt l1 -> StronglySorted klt l2 ->
  (forall x, In x l1 <-> In x l2) -> l1 = l2.
Proof.
  revert l2. induction l1 as [|a l1 IH]; intros [|b l2] H1' H2' Hin.
  - reflexivity.
  - exfalso. apply (proj2 (Hin b)). left. reflexivity.
  - exfalso. apply (proj1 (Hin a)). left. reflexivity.
  - assert (a = b) as ->.
    { destruct (proj1 (Hin a) (or_introl eq_refl)) as [E|Ha]; [congruence |].
      destruct (proj2 (Hin b) (or_introl eq_refl)) as [E|Hb]; [congruence |].
      exfalso. apply (klt_irrefl a).
      apply (kcmp_trans a b a).
      - apply (sorted_head_lt a l1 b H1' Hb).
      - apply (sorted_head_lt b l2 a H2' Ha). }
    f_equal. apply IH.
    + apply StronglySorted_inv in H1'. tauto.
    + apply StronglySorted_inv in H2'. tauto.
    + intros x. split; intros Hx.
      * destruct (proj1 (Hin x) (or_intror Hx)) as [E|Hx']; [| exact Hx'].
        subst x. exfalso. apply (klt_irrefl b), (sorted_head_lt b l1 b H1' Hx).
      * destruct (proj2 (Hin x) (or_intror Hx)) as [E|Hx']; [| exact Hx'].
        subst x. exfalso. apply (klt_irrefl b), (sorted_head_lt b l2 b H2' Hx).
Qed.

Lemma sorted_NoDup (l : list K) : StronglySorted klt l -> List.NoDup l.
Proof.
  induction 1 as [|a l Hl IH Ha]; constructor; [| exact IH].
  intros Hin. rewrite Forall_forall in Ha.
  apply (klt_irrefl a), Ha, list_elem_of_In, Hin.
Qed.

Lemma distinct_Permutation (l l' : list K) :
  Permutation l l' -> fold_right insert_key nil l = fold_right insert_key nil l'.
Proof.
  intros Hp. apply sorted_ext; try apply distinct_sorted.
  intros x. rewrite !In_distinct.
  split; apply Permutation_in; [exact Hp | symmetry; exact Hp].
Qed.
End Keys.

Section Groups.
Context {K R : Type} `{KeyOrderLaws K}.
Variable key : R -> K.

Lemma In_group_keys (df : list R) (k : K) :
  In k (group_keys key df) <-> exists r, In r df /\ key r = k.
Proof.
  unfold group_keys. rewrite In_distinct, in_map_iff.
  split; intros (r & H1' & H2'); exists r; tauto.
Qed.

Lemma NoDup_group_keys (df : list R) : List.NoDup (group_keys key df).
Proof. apply sorted_NoDup, distinct_sorted. Qed.

Lemma group_keys_Permutation (df df' : list R) :
  Permutation df df' -> group_keys key df = group_keys key df'.
Proof.
  intros Hp. apply distinct_Permutation, Permutation_map, Hp.
Qed.

Lemma In_get_group (df : list R) (k : K) (r : R) :
  In r (get_group key df k) <-> In r df /\ key r = k.
Proof. unfold get_group. rewrite filter_In, keqb_eq. reflexivity. Qed.

Lemma get_group_Permutation (df df' : list R) (k : K) :
  Permutation df df' -> Permutation (get_group key df k) (get_group key df' k).
Proof.
  unfold get_group. induction 1 as [|x l l' Hp IH|x y l|l l' l'' _ IH1 _ IH2]; simpl.
  - constructor.
  - destruct (keqb (key x) k); [constructor |]; exact IH.
  - destruct (keqb (key x) k), (keqb (key y) k);
      try apply Permutation_refl. apply perm_swap.
  - eapply Permutation_trans; eassumption.
Qed.

(** A group of [groupby] is never empty. *)
Lemma get_group_nonempty (df : list R) (k : K) :
  In k (group_keys key df) -> get_group key df k <> nil.
Proof.
  intros Hk. apply In_group_keys in Hk. destruct Hk as (r & Hr & Hkey).
  intros E. assert (Hin : In r (get_group key df k)) by (apply In_get_group; tauto).
  rewrite E in Hin. exact Hin.
Qed.

(** Reducing the groups with functions that do not look at the order of
    the rows gives the same table for any order of the input rows. *)
Lemma groupby_agg_Permutation {O : Type} (agg : K -> list R -> O)
  (df df' : list R) :
  (forall k g g', Permutation g g' -> agg k g = agg k g') ->
  Permutation df df' ->
  groupby_agg key agg df = groupby_agg key agg df'.
Proof.
  intros Hagg Hp. unfold groupby_agg, groupby.
  rewrite (group_keys_Permutation df df' Hp), !map_map. simpl.
  apply map_ext. intros k. apply Hagg, get_group_Permutation, Hp.
Qed.

(** The keys of the output rows are the group keys. *)
Lemma groupby_agg_keys {O : Type} (agg : K -> list R -> O) (okey : O -> K)
  (df : list R) :
  (forall k g, okey (agg k g) = k) ->
  map okey (groupby_agg key agg df) = group_keys key df.
Proof.
  intros Hk. unfold groupby_agg, groupby. rewrite !map_map. simpl.
  rewrite <- (map_id (group_keys key df)) at 2.
  apply map_ext. intros k. apply Hk.
Qed.

(** *** Sums over groups *)

Lemma sum_map_add {A} (f g : A -> Z) (l : list A) :
  sum (map (fun x => f x + g x) l) = sum (map f l) + sum (map g l).
Proof. induction l as [|x l IH]; simpl; lia. Qed.

Lemma sum_map_zero {A} (l : list A) : sum (map (fun _ => 0) l) = 0.
Proof. induction l as [|x l IH]; simpl; lia. Qed.

(** Among distinct keys, one key is hit once, if it passes the filter. *)
Lemma sum_indicator (P : K -> bool) (k0 : K) (v : Z) (ks : list K) :
  List.NoDup ks ->
  sum (map (fun k => if keqb k0 k then v else 0) (List.filter P ks))
  = if existsb (keqb k0) ks && P k0 then v else 0.
Proof.
  induction 1 as [|k ks Hk Hnd IH]; simpl; [reflexivity |].
  destruct (keqb k0 k) eqn:E.
  - apply keqb_eq in E. subst k. simpl.
    assert (Hrest : sum (map (fun k => if keqb k0 k then v else 0)
                             (List.filter P ks)) = 0).
    { rewrite IH. destruct (existsb (keqb k0) ks) eqn:Ex; [| reflexivity].
      apply existsb_exists in Ex. destruct Ex as (x & Hx & Hkx).
      apply keqb_eq in Hkx. subst x. contradiction. }
    destruct (P k0); simpl; [rewrite keqb_refl |]; lia.
  - simpl. destruct (P k); simpl; [rewrite E |]; rewrite IH; lia.
Qed.

Lemma get_group_cons (r : R) (df : list R) (k : K) :
  get_group key (r :: df) k
  = if keqb (key r) k then r :: get_group key df k else get_group key df k.
Proof. reflexivity. Qed.

(** Summing a column group by group, over the groups whose key passes a
    filter, is summing it over the rows whose key passes the filter. *)
Lemma sum_groups_filter (P : K -> bool) (w : R -> Z) (ks : list K)
  (df : list R) :
  List.NoDup ks -> (forall r, In r df -> In (key r) ks) ->
  sum (map (fun k => sum (map w (get_group key df k))) (List.filter P ks))
  = sum (map w (List.filter (fun r => P (key r)) df)).
Proof.
  intros Hnd. induction df as [|r df IH]; intros Hks.
  - simpl. apply sum_map_zero.
  - rewrite (map_ext _ (fun k => (if keqb (key r) k then w r else 0)
                                 + sum (map w (get_group key df k)))).
    2:{ intros k. rewrite get_group_cons.
        destruct (keqb (key r) k); simpl; lia. }
    rewrite sum_map_add, sum_indicator by exact Hnd.
    rewrite IH by (intros x Hx; apply Hks; right; exact Hx).
    assert (Ex : existsb (keqb (key r)) ks = true).
    { apply existsb_exists. exists (key r). split.
      - apply Hks. left. reflexivity.
      - apply keqb_refl. }
    rewrite Ex. simpl. destruct (P (key r)); simpl; lia.
Qed.
End Groups.

End GroupByProps.

(** ** The three aggregations *)

Module AggregationProps.
Import Pandas GroupByProps DataTransformation.

(** *** The reductions do not look at the order of the rows *)

Lemma count_Permutation {A} (xs ys : list A) :
  Permutation xs ys -> count xs = count ys.
Proof. intros Hp. unfold count. rewrite (Permutation_length Hp). reflexivity. Qed.

Lemma sum_Permutation (xs ys : list Z) :
  Permutation xs ys -> sum xs = sum ys.
Proof.
  induction 1 as [|x l l' _ IH|x y l|l l' l'' _ IH1 _ IH2]; simpl; lia.
Qed.

Lemma mean_Permutation (xs ys : list Z) :
  Permutation xs ys -> mean xs = mean ys.
Proof.
  intros Hp. unfold mean.
  rewrite (sum_Permutation xs ys Hp), (count_Permutation xs ys Hp). reflexivity.
Qed.

(** The maximum, folded from the right with no distinguished first cell. *)
Definition running_max (x : Z) (acc : option Z) : option Z :=
  match acc with
  | None => Some x
  | Some m => Some (Z.max x m)
  end.

Lemma max_running (xs : list Z) : max xs = fold_right running_max None xs.
Proof.
  destruct xs as [|x t]; [reflexivity |]. unfold max.
  revert x. induction t as [|y t IH]; intros x; simpl; [reflexivity |].
  specialize (IH x). simpl in IH.
  destruct (fold_right running_max None t) as [m|] eqn:E; simpl in *.
  - injection IH as IH. f_equal. lia.
  - destruct t; simpl in *; [f_equal; lia |].
    destruct (fold_right running_max None t); discriminate.
Qed.

Lemma max_Permutation (xs ys : list Z) :
  Permutation xs ys -> max xs = max ys.
Proof.
  intros Hp. rewrite !max_running.
  induction Hp as [|x l l' _ IH|x y l|l l' l'' _ IH1 _ IH2]; simpl.
  - reflexivity.
  - rewrite IH. reflexivity.
  - destruct (fold_right running_max None l); simpl; f_equal; lia.
  - congruence.
Qed.

(** *** The affinity matrix *)

Definition affinity_pair (a : affinity) : string * Z :=
  (am_user_id a, am_product_id a).

Definition pair_eqb (k : string * Z) (r : DataPreparation.gold_row) : bool :=
  keqb (gold_pair r) k.

(** The eight numbers of the worked scenario. *)
Definition scenario_matrix : list affinity :=
  [ {| am_user_id := "U1"; am_product_id := 1; affinity_score := 2 |};
    {| am_user_id := "U1"; am_product_id := 2; affinity_score := 10 |};
    {| am_user_id := "U2"; am_product_id := 1; affinity_score := 2 |};
    {| am_user_id := "U3"; am_product_id := 2; affinity_score := 5 |} ].

Lemma interaction_matrix_pairs (df : list DataPreparation.gold_row) :
  map affinity_pair (interaction_matrix df) = group_keys gold_pair df.
Proof.
  unfold interaction_matrix. apply groupby_agg_keys.
  intros [u p] g. reflexivity.
Qed.

Lemma interaction_matrix_filter_user (u : string)
  (df : list DataPreparation.gold_row) :
  map affinity_score
      (List.filter (fun a => String.eqb (am_user_id a) u) (interaction_matrix df))
  = map (fun k => sum (map gold_weight (get_group gold_pair df k)))
        (List.filter (fun k => String.eqb (fst k) u) (group_keys gold_pair df)).
Proof.
  unfold interaction_matrix, groupby_agg, groupby. rewrite map_map. simpl.
  induction (group_keys gold_pair df) as [|k ks IH]; simpl; [reflexivity |].
  destruct (String.eqb (fst k) u); simpl; rewrite IH; reflexivity.
Qed.

(** C1: the affinity matrix has exactly one row per pair (user_id,
    product_id) that occurs in the input; the score of a row is the sum of
    interaction_weight over the input rows of its pair; for every user the
    scores of the user's rows add up to the weights of the user's input
    rows; and the scenario of 3 users, 2 products and 5 interactions yields
    the 4 rows U1,P1:2; U1,P2:10; U2,P1:2; U3,P2:5. *)
Theorem affinity_matrix_groups (df : list DataPreparation.gold_row) :
  List.NoDup (map affinity_pair (interaction_matrix df))
  /\ (forall u p, In (u, p) (map affinity_pair (interaction_matrix df))
                  <-> exists r, In r df /\ gold_user_id r = u
                                /\ gold_product_id r = p)
  /\ Forall (fun a => affinity_score a
                      = sum (map gold_weight
                                 (List.filter (pair_eqb (affinity_pair a)) df)))
            (interaction_matrix df)
  /\ (forall u,
        sum (map affinity_score
                 (List.filter (fun a => String.eqb (am_user_id a) u)
                              (interaction_matrix df)))
        = sum (map gold_weight
                   (List.filter (fun r => String.eqb (gold_user_id r) u) df)))
  /\ length Scenario.interactions = 5%nat
  /\ interaction_matrix Scenario.gold = scenario_matrix.
Proof.
  split; [| split; [| split; [| split; [| split]]]].
  - rewrite interaction_matrix_pairs. apply NoDup_group_keys.
  - intros u p. rewrite interaction_matrix_pairs, In_group_keys.
    split; intros (r & Hr & Hk); exists r.
    + unfold gold_pair in Hk. injection Hk as Hu Hp. tauto.
    + destruct Hk as [Hu Hp]. unfold gold_pair. rewrite Hu, Hp. tauto.
  - unfold interaction_matrix, groupby_agg, groupby. rewrite map_map. simpl.
    apply Forall_map, Forall_forall. intros [u p] _. reflexivity.
  - intros u. rewrite interaction_matrix_filter_user.
    apply (sum_groups_filter gold_pair (fun k => String.eqb (fst k) u) gold_weight).
    + apply NoDup_group_keys.
    + intros r Hr. apply In_group_keys. exists r. tauto.
  - reflexivity.
  - vm_compute. reflexivity.
Qed.

(** *** Order independence *)

(** The aggregates of an item row: its key, count, mean, and the
    popularity score computed from the count. *)
Definition item_aggregates (r : item_feature) : Z * Z * Q * np_float :=
  (if_product_id r, item_interaction_count r, item_avg_affinity r,
   global_popularity_score r).

Lemma item_aggregates_groupby (df : list DataPreparation.gold_row) :
  map item_aggregates (item_features df)
  = groupby_agg gold_product_id (fun k g =>
      (k, count (map gold_weight g), mean (map gold_weight g),
       log1p (count (map gold_weight g)))) df.
Proof.
  unfold item_features, groupby_agg. rewrite map_map. reflexivity.
Qed.

(** C2: for any reordering of the rows of the input table, the user
    aggregation (count, mean, sum, max timestamp per user), the count and
    mean of the item aggregation, and the affinity pairs are the same
    tables, row for row. *)
Theorem aggregation_order_independent (df df' : list DataPreparation.gold_row) :
  Permutation df df' ->
  user_features df = user_features df'
  /\ map item_aggregates (item_features df) = map item_aggregates (item_features df')
  /\ interaction_matrix df = interaction_matrix df'.
Proof.
  intros Hp. split; [| split].
  - unfold user_features. apply groupby_agg_Permutation; [| exact Hp].
    intros k g g' Hg.
    assert (Hw : Permutation (map gold_weight g) (map gold_weight g'))
      by (apply Permutation_map, Hg).
    assert (Ht : Permutation (map gold_timestamp g) (map gold_timestamp g'))
      by (apply Permutation_map, Hg).
    rewrite (count_Permutation _ _ Hw), (mean_Permutation _ _ Hw),
            (sum_Permutation _ _ Hw), (max_Permutation _ _ Ht).
    reflexivity.
  - rewrite !item_aggregates_groupby.
    apply groupby_agg_Permutation; [| exact Hp].
    intros k g g' Hg.
    assert (Hw : Permutation (map gold_weight g) (map gold_weight g'))
      by (apply Permutation_map, Hg).
    rewrite (count_Permutation _ _ Hw), (mean_Permutation _ _ Hw). reflexivity.
  - unfold interaction_matrix. apply groupby_agg_Permutation; [| exact Hp].
    intros k g g' Hg.
    assert (Hw : Permutation (map gold_weight g) (map gold_weight g'))
      by (apply Permutation_map, Hg).
    rewrite (sum_Permutation _ _ Hw). reflexivity.
Qed.

Lemma aggregation_order_independent_witness :
  user_features Scenario.gold = user_features (rev Scenario.gold)
  /\ map item_aggregates (item_features Scenario.gold)
     = map item_aggregates (item_features (rev Scenario.gold))
  /\ interaction_matrix Scenario.gold = interaction_matrix (rev Scenario.gold).
Proof.
  apply (aggregation_order_independent Scenario.gold (rev Scenario.gold)).
  apply Permutation_rev.
Defined.

(** *** The carried columns

    The item aggregation also carries the first available norm_price,
    norm_rating and category of each group.  These do not depend on the
    order of the rows when the item columns are the same in all rows of a
    product, as they are after the join with a catalog. *)

Lemma first_const {A} (c : option A) (l : list (option A)) :
  l <> nil -> (forall x, In x l -> x = c) -> first l = c.
Proof.
  induction l as [|x l IH]; intros Hne Hc; [congruence |].
  simpl. rewrite (Hc x (or_introl eq_refl)).
  destruct c as [a|]; [reflexivity |].
  destruct l as [|y l]; [reflexivity |].
  apply IH; [discriminate |]. intros z Hz. apply Hc. right. exact Hz.
Qed.

Lemma first_column_const {A} (col : DataPreparation.gold_row -> option A)
  (r0 : DataPreparation.gold_row) (g : list DataPreparation.gold_row) :
  g <> nil -> (forall r, In r g -> col r = col r0) ->
  first (map col g) = col r0.
Proof.
  intros Hne Hc. apply first_const.
  - destruct g; [congruence | discriminate].
  - intros x Hx. apply in_map_iff in Hx. destruct Hx as (r & <- & Hr).
    apply Hc, Hr.
Qed.

Lemma item_features_order_independent (df df' : list DataPreparation.gold_row) :
  (forall r r', In r df -> In r' df ->
                gold_product_id r = gold_product_id r' ->
                DataPreparation.item r = DataPreparation.item r') ->
  Permutation df df' ->
  item_features df = item_features df'.
Proof.
  intros Hfd Hp. unfold item_features, groupby_agg, groupby.
  rewrite <- (group_keys_Permutation gold_product_id df df' Hp), !map_map. simpl.
  apply map_ext_in. intros k Hk.
  pose proof (get_group_Permutation gold_product_id df df' k Hp) as Hg.
  pose proof (get_group_nonempty gold_product_id df k Hk) as Hne.
  assert (Hne' : get_group gold_product_id df' k <> nil).
  { intros E. rewrite E in Hg. apply Permutation_nil_r in Hg. congruence. }
  destruct (get_group gold_product_id df k) as [|r0 g0] eqn:Eg; [congruence |].
  assert (Hr0 : In r0 df /\ gold_product_id r0 = k).
  { apply In_get_group. rewrite Eg. left. reflexivity. }
  assert (Hsame : forall r, In r (r0 :: g0) -> DataPreparation.item r
                                               = DataPreparation.item r0).
  { intros r Hr. rewrite <- Eg in Hr. apply In_get_group in Hr.
    apply Hfd; try tauto. destruct Hr0, Hr. congruence. }
  assert (Hsame' : forall r, In r (get_group gold_product_id df' k) ->
                             DataPreparation.item r = DataPreparation.item r0).
  { intros r Hr. apply Hsame. apply (Permutation_in r (Permutation_sym Hg) Hr). }
  assert (Hw : Permutation (map gold_weight (r0 :: g0))
                           (map gold_weight (get_group gold_product_id df' k)))
    by (apply Permutation_map, Hg).
  rewrite (count_Permutation _ _ Hw), (mean_Permutation _ _ Hw).
  f_equal.
  - rewrite (first_column_const gold_norm_price r0 (r0 :: g0)), 
            (first_column_const gold_norm_price r0 (get_group gold_product_id df' k));
      try reflexivity; try assumption; try discriminate;
      intros r Hr; unfold gold_norm_price; f_equal; auto.
  - rewrite (first_column_const gold_norm_rating r0 (r0 :: g0)), 
            (first_column_const gold_norm_rating r0 (get_group gold_product_id df' k));
      try reflexivity; try assumption; try discriminate;
      intros r Hr; unfold gold_norm_rating; f_equal; auto.
  - rewrite (first_column_const gold_category r0 (r0 :: g0)), 
            (first_column_const gold_category r0 (get_group gold_product_id df' k));
      try reflexivity; try assumption; try discriminate;
      intros r Hr; unfold gold_category; f_equal; auto.
Qed.

End AggregationProps.

(** ** The join with the catalog *)

Module JoinProps.
Import Pandas GroupByProps DataPreparation.

Definition weigh (i : interaction) : weighted_interaction :=
  {| event := i; interaction_weight := interaction_weight_of (event_type i) |}.

(** An interaction whose product is not in the catalog. *)
Definition is_unmatched (silver_prod : list product) (i : interaction) : bool :=
  negb (existsb (fun p => id p =? product_id i) silver_prod).

Definition unmatched (silver_inter : list interaction) (silver_prod : list product)
  : list interaction :=
  List.filter (is_unmatched silver_prod) silver_inter.

Definition unmatched_count (silver_inter : list interaction)
  (silver_prod : list product) : nat :=
  length (unmatched silver_inter silver_prod).

(** A Gold row whose item-side cells are missing. *)
Definition missing_item (r : gold_row) : bool :=
  match item r with
  | None => true
  | Some _ => false
  end.

Lemma filter_nil_existsb {A} (f : A -> bool) (l : list A) :
  List.filter f l = nil <-> existsb f l = false.
Proof.
  induction l as [|x l IH]; simpl; [tauto |].
  destruct (f x); simpl; [split; discriminate | exact IH].
Qed.

Lemma existsb_map {A B} (g : A -> B) (f : B -> bool) (l : list A) :
  existsb f (map g l) = existsb (fun x => f (g x)) l.
Proof. induction l as [|x l IH]; simpl; [reflexivity | rewrite IH; reflexivity]. Qed.

Lemma filter_missing_matched (i : weighted_interaction) (ms : list product_features) :
  List.filter missing_item
    (map (fun p => {| inter := i; item := Some (project_item p) |}) ms) = nil.
Proof. induction ms as [|m ms IH]; simpl; [reflexivity | exact IH]. Qed.

(** The rows of the join with missing item cells are the interactions
    without a product in the catalog, in table order, each once. *)
Lemma merge_left_missing (df_inter : list weighted_interaction)
  (df_prod : list product_features) :
  List.filter missing_item (merge_left df_inter df_prod)
  = map (fun w => {| inter := w; item := None |})
        (List.filter (fun w => is_unmatched (map raw df_prod) (event w)) df_inter).
Proof.
  unfold merge_left.
  induction df_inter as [|w t IH]; [reflexivity |].
  cbn [flat_map List.filter]. rewrite List.filter_app, IH.
  assert (Hu : is_unmatched (map raw df_prod) (event w)
               = negb (existsb (fun p => id (raw p) =? product_id (event w)) df_prod)).
  { unfold is_unmatched. rewrite existsb_map. reflexivity. }
  rewrite Hu.
  destruct (List.filter (fun p => id (raw p) =? product_id (event w)) df_prod)
    as [|m ms] eqn:E.
  - apply filter_nil_existsb in E. rewrite E. reflexivity.
  - assert (Ex : existsb (fun p => id (raw p) =? product_id (event w)) df_prod = true).
    { destruct (existsb _ df_prod) eqn:Ex; [reflexivity |].
      apply filter_nil_existsb in Ex. congruence. }
    rewrite Ex, filter_missing_matched. reflexivity.
Qed.

Lemma nunique_pos {K} `{KeyOrderLaws K} (x : K) (l : list K) :
  0 < nunique (x :: l).
Proof.
  unfold nunique.
  destruct (fold_right insert_key nil (x :: l)) as [|y t] eqn:E; [| simpl; lia].
  exfalso. assert (Hin : In x (fold_right insert_key nil (x :: l))).
  { apply In_distinct. left. reflexivity. }
  rewrite E in Hin. exact Hin.
Qed.

Lemma calculate_global_sparsity_returns (w : weighted_interaction)
  (df : list weighted_interaction) :
  exists sparsity lines,
    calculate_global_sparsity (w :: df) = Returned (sparsity, lines).
Proof.
  unfold calculate_global_sparsity.
  pose proof (nunique_pos (user_id (event w))
                (map (fun r => user_id (event r)) df)) as Hu.
  pose proof (nunique_pos (product_id (event w))
                (map (fun r => product_id (event r)) df)) as Hi.
  simpl map.
  destruct (_ * _ =? 0) eqn:E; [apply Z.eqb_eq in E; nia |].
  eexists _, _. reflexivity.
Qed.

(** With an interaction to process and a product in the catalog, the Gold
    table is the whole join. *)
Lemma run_data_preparation_gold_file (silver_inter : list interaction)
  (silver_prod : list product) :
  silver_inter <> nil -> silver_prod <> nil ->
  exists df_prod,
    engineer_product_features silver_prod = Returned df_prod
    /\ map raw df_prod = silver_prod
    /\ gold_file (run_data_preparation silver_inter silver_prod)
       = Some (merge_left (engineer_interaction_features silver_inter) df_prod).
Proof.
  intros Hi Hp.
  destruct (NormalizationProps.engineer_product_features_columns silver_prod Hp)
    as (df_prod & Hrows & Hraw & _).
  exists df_prod. split; [exact Hrows |]. split; [exact Hraw |].
  destruct silver_inter as [|i t]; [congruence |].
  unfold run_data_preparation. rewrite Hrows.
  destruct (calculate_global_sparsity_returns (weigh i)
              (engineer_interaction_features t)) as (s & m & Hs).
  change (engineer_interaction_features (i :: t))
    with (weigh i :: engineer_interaction_features t).
  rewrite Hs. reflexivity.
Qed.

(** For catalogs that hold a product, the console and the return value
    are computed from the interactions. *)
Lemma run_data_preparation_console (silver_inter : list interaction)
  (silver_prod silver_prod' : list product) :
  silver_prod <> nil -> silver_prod' <> nil ->
  stdout (run_data_preparation silver_inter silver_prod)
  = stdout (run_data_preparation silver_inter silver_prod')
  /\ returned (run_data_preparation silver_inter silver_prod)
     = returned (run_data_preparation silver_inter silver_prod').
Proof.
  intros Hp Hp'.
  destruct (NormalizationProps.engineer_product_features_columns silver_prod Hp)
    as (df_prod & Hrows & _).
  destruct (NormalizationProps.engineer_product_features_columns silver_prod' Hp')
    as (df_prod' & Hrows' & _).
  unfold run_data_preparation. rewrite Hrows, Hrows'.
  destruct (calculate_global_sparsity _) as [[s m]|e]; simpl; auto.
Qed.

(** A catalog that holds the one product [n]. *)
Definition catalog_of (n : Z) : list product :=
  [ {| id := n; category := "jewelery"; price := 30%Q;
       rating := RatingDict (Some (45 # 10)%Q) (Some 70) |} ].

(** The count of unmatched interactions would be surfaced if it could be
    read off the console and the return value of the run. *)
Definition surfaces_unmatched_count : Prop :=
  exists f : list line -> unit -> nat,
    forall silver_inter silver_prod,
      f (stdout (run_data_preparation silver_inter silver_prod))
        (returned (run_data_preparation silver_inter silver_prod))
      = unmatched_count silver_inter silver_prod.

(** C8 as stated fails: the five interactions of the scenario are run once
    with both products in the catalog and once with product 2 alone.  The
    run prints the same lines and returns the same value both times, while
    the number of unmatched interactions is 0 in one run and 3 in the other:
    the count cannot be read off what the run surfaces. *)
Lemma unmatched_count_not_surfaced :
  stdout (run_data_preparation Scenario.interactions Scenario.products)
  = stdout (run_data_preparation Scenario.interactions (catalog_of 2))
  /\ returned (run_data_preparation Scenario.interactions Scenario.products)
     = returned (run_data_preparation Scenario.interactions (catalog_of 2))
  /\ unmatched_count Scenario.interactions Scenario.products = 0%nat
  /\ unmatched_count Scenario.interactions (catalog_of 2) = 3%nat
  /\ ~ surfaces_unmatched_count.
Proof.
  repeat split.
  intros (f & Hf).
  pose proof (Hf Scenario.interactions Scenario.products) as H1'.
  pose proof (Hf Scenario.interactions (catalog_of 2)) as H2'.
  destruct (run_data_preparation_console Scenario.interactions
              Scenario.products (catalog_of 2)) as [Hs Hr]; try discriminate.
  rewrite Hs, Hr, H2' in H1'. discriminate H1'.
Qed.

Lemma missing_rows_of_unmatched (silver_inter : list interaction)
  (silver_prod : list product) :
  map (fun w => {| inter := w; item := None |})
      (List.filter (fun w => is_unmatched silver_prod (event w))
                   (engineer_interaction_features silver_inter))
  = map (fun i => {| inter := weigh i; item := None |})
        (unmatched silver_inter silver_prod).
Proof.
  unfold unmatched, engineer_interaction_features.
  induction silver_inter as [|x l IH]; [reflexivity |].
  cbn [map List.filter event].
  destruct (is_unmatched silver_prod x); cbn [map]; rewrite IH; reflexivity.
Qed.

(** C8, amended: with an interaction to process and a catalog that holds
    at least one product, the Gold table is written in full whichever
    products the catalog holds; its rows with missing item cells are the
    interactions whose product is not in the catalog, in order and once
    each; and no count of them is surfaced: for two such catalogs the lines
    printed and the value returned are the same. *)
Theorem referential_gaps_resolve_to_missing
  (silver_inter : list interaction) (silver_prod silver_prod' : list product) :
  silver_inter <> nil -> silver_prod <> nil -> silver_prod' <> nil ->
  (exists gold_df,
      gold_file (run_data_preparation silver_inter silver_prod) = Some gold_df
      /\ List.filter missing_item gold_df
         = map (fun i => {| inter := weigh i; item := None |})
               (unmatched silver_inter silver_prod))
  /\ stdout (run_data_preparation silver_inter silver_prod)
     = stdout (run_data_preparation silver_inter silver_prod')
  /\ returned (run_data_preparation silver_inter silver_prod)
     = returned (run_data_preparation silver_inter silver_prod').
Proof.
  intros Hi Hp Hp'. split; [| apply run_data_preparation_console; assumption].
  destruct (run_data_preparation_gold_file silver_inter silver_prod Hi Hp)
    as (df_prod & _ & Hraw & Hgold).
  rewrite Hgold. eexists. split; [reflexivity |].
  rewrite merge_left_missing, Hraw. apply missing_rows_of_unmatched.
Qed.

Lemma referential_gaps_resolve_to_missing_witness :
  (exists gold_df,
      gold_file (run_data_preparation Scenario.interactions (catalog_of 2))
      = Some gold_df
      /\ List.filter missing_item gold_df
         = map (fun i => {| inter := weigh i; item := None |})
               (unmatched Scenario.interactions (catalog_of 2)))
  /\ stdout (run_data_preparation Scenario.interactions (catalog_of 2))
     = stdout (run_data_preparation Scenario.interactions Scenario.products)
  /\ returned (run_data_preparation Scenario.interactions (catalog_of 2))
     = returned (run_data_preparation Scenario.interactions Scenario.products).
Proof.
  apply (referential_gaps_resolve_to_missing
           Scenario.interactions (catalog_of 2) Scenario.products);
    discriminate.
Defined.

(** *** A catalog with unique ids

    The validation stage promotes a product table only when its ids are
    unique.  The join then keeps one row per interaction, and the item
    columns of a Gold row are determined by its product_id. *)

Definition catalog_lookup (df_prod : list product_features) (k : Z)
  : option item_columns :=
  match List.filter (fun p => id (raw p) =? k) df_prod with
  | nil => None
  | m :: _ => Some (project_item m)
  end.

Lemma filter_unique_id (df_prod : list product_features) (k : Z) :
  List.NoDup (map (fun p => id (raw p)) df_prod) ->
  (length (List.filter (fun p => (id (raw p) =? k)%Z) df_prod) <= 1)%nat.
Proof.
  induction df_prod as [|p t IH]; simpl; [lia |].
  intros Hnd. apply NoDup_cons_iff in Hnd. destruct Hnd as [Hp Hnd].
  destruct (id (raw p) =? k) eqn:E; [| apply IH, Hnd].
  apply Z.eqb_eq in E. simpl.
  destruct (List.filter (fun p => id (raw p) =? k) t) as [|q l] eqn:F; [simpl; lia |].
  exfalso. apply Hp.
  assert (Hq : In q (List.filter (fun p => id (raw p) =? k) t))
    by (rewrite F; left; reflexivity).
  apply filter_In in Hq. destruct Hq as [Hq Hk]. apply Z.eqb_eq in Hk.
  apply in_map_iff. exists q. split; [congruence | exact Hq].
Qed.

Lemma merge_left_rows_unique (i : weighted_interaction)
  (df_prod : list product_features) :
  List.NoDup (map (fun p => id (raw p)) df_prod) ->
  match List.filter (fun p => id (raw p) =? product_id (event i)) df_prod with
  | nil => [ {| inter := i; item := None |} ]
  | ms => map (fun p => {| inter := i; item := Some (project_item p) |}) ms
  end
  = [ {| inter := i; item := catalog_lookup df_prod (product_id (event i)) |} ].
Proof.
  intros Hnd. unfold catalog_lookup.
  pose proof (filter_unique_id df_prod (product_id (event i)) Hnd) as Hle.
  destruct (List.filter _ df_prod) as [|m [|m' l]]; simpl in Hle |- *;
    [reflexivity | reflexivity | lia].
Qed.

Lemma merge_left_unique (df_inter : list weighted_interaction)
  (df_prod : list product_features) :
  List.NoDup (map (fun p => id (raw p)) df_prod) ->
  merge_left df_inter df_prod
  = map (fun i => {| inter := i;
                     item := catalog_lookup df_prod (product_id (event i)) |})
        df_inter.
Proof.
  intros Hnd. unfold merge_left.
  induction df_inter as [|i t IH]; [reflexivity |].
  cbn [flat_map]. rewrite IH, (merge_left_rows_unique i df_prod Hnd). reflexivity.
Qed.

Lemma merge_left_one_row_per_interaction (df_inter : list weighted_interaction)
  (df_prod : list product_features) :
  List.NoDup (map (fun p => id (raw p)) df_prod) ->
  map inter (merge_left df_inter df_prod) = df_inter.
Proof.
  intros Hnd. rewrite (merge_left_unique df_inter df_prod Hnd), map_map. simpl.
  apply map_id.
Qed.

(** The whole item table, carried columns included, is then the same for
    any order of the Gold rows. *)
Lemma gold_item_features_order_independent
  (df_inter : list weighted_interaction) (df_prod : list product_features)
  (df' : list gold_row) :
  List.NoDup (map (fun p => id (raw p)) df_prod) ->
  Permutation (merge_left df_inter df_prod) df' ->
  DataTransformation.item_features (merge_left df_inter df_prod)
  = DataTransformation.item_features df'.
Proof.
  intros Hnd Hp.
  apply AggregationProps.item_features_order_independent; [| exact Hp].
  rewrite (merge_left_unique df_inter df_prod Hnd).
  intros r r' Hr Hr' Hk. apply in_map_iff in Hr, Hr'.
  destruct Hr as (i & <- & _), Hr' as (i' & <- & _).
  unfold DataTransformation.gold_product_id in Hk. simpl in Hk |- *.
  rewrite Hk. reflexivity.
Qed.

End JoinProps.

(** ** The feature registry *)

Module RegistryProps.
Import FeatureStore.

(** The path whose existence [register_feature_view] tests. *)
Definition full_source_path (self : RecomartFeatureStore) (w : world)
  (source_filename : string) : string :=
  OsPath.abspath (cwd w) (OsPath.join (base_path self) source_filename).

Definition registered_view (self : RecomartFeatureStore) (w : world)
  (source_filename entity_key : string) (features : list string)
  (version t_created : string) : feature_view :=
  {| source := full_source_path self w source_filename;
     entity_key := entity_key;
     feature_list := features;
     version := version;
     created_at := t_created |}.

Lemma register_missing (self : RecomartFeatureStore) (w : world)
  (name source_filename entity_key : string) (features : list string)
  (version t_created t_updated : string) :
  os_path_exists w (full_source_path self w source_filename) = false ->
  register_feature_view self w name source_filename entity_key features
                        version t_created t_updated
  = (self, print w (FileNotFoundMessage (full_source_path self w source_filename)),
     Returned tt).
Proof.
  intros Hm. unfold register_feature_view. fold (full_source_path self w source_filename).
  rewrite Hm. reflexivity.
Qed.

Lemma register_present (self : RecomartFeatureStore) (w : world)
  (name source_filename entity_key : string) (features : list string)
  (version t_created t_updated : string) :
  os_path_exists w (full_source_path self w source_filename) = true ->
  let view := registered_view self w source_filename entity_key features
                              version t_created in
  let doc := {| feature_views := <[name := view]> (feature_views (self_registry self));
                metadata := <["last_updated" := t_updated]>
                              (metadata (self_registry self)) |} in
  register_feature_view self w name source_filename entity_key features
                        version t_created t_updated
  = ({| base_path := base_path self; registry_path := registry_path self;
        self_registry := doc |},
     print (json_dump w (registry_path self) doc) (RegisteredMessage name version),
     Returned tt).
Proof.
  intros Hp. unfold register_feature_view. fold (full_source_path self w source_filename).
  rewrite Hp. reflexivity.
Qed.

(** A store over the default directory, and a world with no file at all. *)
Definition fresh_store : RecomartFeatureStore :=
  {| base_path := "./recomart-data-lake/feature_store";
     registry_path := "./recomart-data-lake/feature_store/metadata_registry.json";
     self_registry := empty_registry |}.

Definition bare_world : world :=
  {| fs := ∅; cwd := "/srv/recomart"; console := [] |}.

(** The same world with the user feature table in place. *)
Definition stocked_world : world :=
  {| fs := {[ "/srv/recomart/recomart-data-lake/feature_store/user_feature_store.csv"
              := CsvFile {| columns := [ "user_id"; "user_activity_count" ];
                            rows := [ [ "U0001"; "3" ] ] |} ]};
     cwd := "/srv/recomart"; console := [] |}.

Definition user_signals_features : list string :=
  [ "user_activity_count"; "user_avg_affinity"; "user_total_score" ].

Definition item_signals_features : list string :=
  [ "item_interaction_count"; "global_popularity_score"; "norm_rating" ].

(** The store and the world after [user_signals] was registered. *)
Definition seeded : RecomartFeatureStore * world :=
  (register_feature_view fresh_store stocked_world "user_signals"
     "user_feature_store.csv" "user_id" user_signals_features "v1.1"
     "2026-01-01 00:00:00.000001" "2026-01-01 00:00:00.000002").1.

(** C9 read literally: a missing source makes the call raise. *)
Definition raises_when_source_missing : Prop :=
  forall self w name source_filename entity_key features version t_created t_updated,
    os_path_exists w (full_source_path self w source_filename) = false ->
    exists e,
      (register_feature_view self w name source_filename entity_key features
                             version t_created t_updated).2 = Raised e.

(** C9 as stated fails: with no file at the source path the call prints a
    message and returns; nothing is raised. *)
Lemma register_missing_source_returns :
  os_path_exists bare_world
    (full_source_path fresh_store bare_world "user_feature_store.csv") = false
  /\ register_feature_view fresh_store bare_world "user_signals"
       "user_feature_store.csv" "user_id" user_signals_features "v1.1"
       "2026-01-01 00:00:00.000001" "2026-01-01 00:00:00.000002"
     = (fresh_store,
        {| fs := ∅; cwd := "/srv/recomart";
           console := [ FileNotFoundMessage
             "/srv/recomart/recomart-data-lake/feature_store/user_feature_store.csv" ] |},
        Returned tt)
  /\ ~ raises_when_source_missing.
Proof.
  assert (Hm : os_path_exists bare_world
                 (full_source_path fresh_store bare_world "user_feature_store.csv")
               = false) by (vm_compute; reflexivity).
  split; [exact Hm |]. split.
  - rewrite register_missing by exact Hm. reflexivity.
  - intros Hraise.
    destruct (Hraise fresh_store bare_world "user_signals" "user_feature_store.csv"
                "user_id" user_signals_features "v1.1"
                "2026-01-01 00:00:00.000001" "2026-01-01 00:00:00.000002" Hm)
      as (e & He).
    rewrite register_missing in He by exact Hm. discriminate He.
Qed.

(** C9, amended: [register_feature_view] always returns.  When the source
    file does not exist it prints a file-not-found message and registers
    nothing.  When the file exists, the named view holds the new metadata,
    every other view is as before, and the registry file holds the updated
    registry, which is what a store created afterwards loads. *)
Theorem register_feature_view_outcome (self : RecomartFeatureStore) (w : world)
  (name source_filename entity_key : string) (features : list string)
  (version t_created t_updated : string) :
  let r := register_feature_view self w name source_filename entity_key features
                                 version t_created t_updated in
  let path := full_source_path self w source_filename in
  r.2 = Returned tt
  /\ (os_path_exists w path = false ->
      feature_views (self_registry r.1.1) = feature_views (self_registry self)
      /\ console r.1.2 = (console w ++ [ FileNotFoundMessage path ])%list)
  /\ (os_path_exists w path = true ->
      feature_views (self_registry r.1.1) !! name
      = Some (registered_view self w source_filename entity_key features
                              version t_created)
      /\ (forall other, other <> name ->
            feature_views (self_registry r.1.1) !! other
            = feature_views (self_registry self) !! other)
      /\ metadata (self_registry r.1.1) !! "last_updated" = Some t_updated
      /\ fs r.1.2 !! OsPath.abspath (cwd w) (registry_path self)
         = Some (JsonFile (self_registry r.1.1))
      /\ _load_registry r.1.2 (registry_path self) = Returned (self_registry r.1.1)).
Proof.
  intros r path. subst r path.
  destruct (os_path_exists w (full_source_path self w source_filename)) eqn:E.
  - rewrite register_present by exact E. cbn [fst snd].
    split; [reflexivity |]. split; [discriminate |]. intros _.
    cbn [self_registry feature_views metadata].
    split; [apply lookup_insert_eq |].
    split; [intros other Hne; apply lookup_insert_ne; congruence |].
    split; [apply lookup_insert_eq |].
    assert (Hfile : fs (print (json_dump w (registry_path self)
                {| feature_views :=
                     <[name := registered_view self w source_filename entity_key
                                 features version t_created]>
                       (feature_views (self_registry self));
                   metadata := <["last_updated" := t_updated]>
                                 (metadata (self_registry self)) |})
              (RegisteredMessage name version))
            !! OsPath.abspath (cwd w) (registry_path self)
            = Some (JsonFile
                {| feature_views :=
                     <[name := registered_view self w source_filename entity_key
                                 features version t_created]>
                       (feature_views (self_registry self));
                   metadata := <["last_updated" := t_updated]>
                                 (metadata (self_registry self)) |})).
    { cbn [print json_dump fs]. apply lookup_insert_eq. }
    split; [exact Hfile |].
    unfold _load_registry. cbn [print json_dump cwd fs] in Hfile |- *.
    rewrite Hfile. reflexivity.
  - rewrite register_missing by exact E. cbn [fst snd].
    split; [reflexivity |]. split; [| discriminate]. intros _.
    split; reflexivity.
Qed.

Lemma register_feature_view_outcome_witness :
  (feature_views (self_registry seeded.1) !! "user_signals"
   = Some (registered_view fresh_store stocked_world "user_feature_store.csv"
             "user_id" user_signals_features "v1.1" "2026-01-01 00:00:00.000001")
   /\ _load_registry seeded.2 (registry_path fresh_store)
      = Returned (self_registry seeded.1))
  /\ console
       (register_feature_view fresh_store bare_world "user_signals"
          "user_feature_store.csv" "user_id" user_signals_features "v1.1"
          "2026-01-01 00:00:00.000001" "2026-01-01 00:00:00.000002").1.2
     = [ FileNotFoundMessage
           (full_source_path fresh_store bare_world "user_feature_store.csv") ].
Proof.
  split.
  - destruct (register_feature_view_outcome fresh_store stocked_world "user_signals"
                "user_feature_store.csv" "user_id" user_signals_features "v1.1"
                "2026-01-01 00:00:00.000001" "2026-01-01 00:00:00.000002")
      as (_ & _ & Hpresent).
    destruct Hpresent as (Hview & _ & _ & _ & Hload); [vm_compute; reflexivity |].
    split; [exact Hview | exact Hload].
  - destruct (register_feature_view_outcome fresh_store bare_world "user_signals"
                "user_feature_store.csv" "user_id" user_signals_features "v1.1"
                "2026-01-01 00:00:00.000001" "2026-01-01 00:00:00.000002")
      as (_ & Hmissing & _).
    destruct Hmissing as (_ & Hconsole); [vm_compute; reflexivity |].
    exact Hconsole.
Defined.

(** C10: when the source file does not exist, [register_feature_view]
    leaves the object and the files as they were: the registry held in
    memory is the same, no file is written, every view is looked up and
    retrieved as before, and a store created afterwards loads the same
    registry. *)
Theorem register_missing_source_changes_nothing (self : RecomartFeatureStore)
  (w : world) (name source_filename entity_key : string) (features : list string)
  (version t_created t_updated : string) :
  os_path_exists w (full_source_path self w source_filename) = false ->
  let r := register_feature_view self w name source_filename entity_key features
                                 version t_created t_updated in
  r.1.1 = self
  /\ fs r.1.2 = fs w
  /\ (forall view_name,
        feature_views (self_registry r.1.1) !! view_name
        = feature_views (self_registry self) !! view_name)
  /\ (forall view_name,
        get_historical_features r.1.1 r.1.2 view_name
        = get_historical_features self w view_name)
  /\ _load_registry r.1.2 (registry_path self) = _load_registry w (registry_path self).
Proof.
  intros Hm r. subst r. rewrite register_missing by exact Hm. cbn [fst snd].
  repeat split; reflexivity.
Qed.

Lemma register_missing_source_changes_nothing_witness :
  let r := register_feature_view seeded.1 seeded.2 "item_signals"
             "item_feature_store.csv" "product_id" item_signals_features "v1.1"
             "2026-01-01 00:00:00.000003" "2026-01-01 00:00:00.000004" in
  r.1.1 = seeded.1
  /\ fs r.1.2 = fs seeded.2
  /\ (forall view_name,
        feature_views (self_registry r.1.1) !! view_name
        = feature_views (self_registry seeded.1) !! view_name)
  /\ (forall view_name,
        get_historical_features r.1.1 r.1.2 view_name
        = get_historical_features seeded.1 seeded.2 view_name)
  /\ _load_registry r.1.2 (registry_path seeded.1)
     = _load_registry seeded.2 (registry_path seeded.1).
Proof.
  apply (register_missing_source_changes_nothing seeded.1 seeded.2 "item_signals"
           "item_feature_store.csv" "product_id" item_signals_features "v1.1"
           "2026-01-01 00:00:00.000003" "2026-01-01 00:00:00.000004").
  vm_compute. reflexivity.
Defined.

End RegistryProps.

(** ** The recommender *)

Module RecommenderProps.
Import DataTransformation ModelTraining.

(** *** Positions *)

Lemma enumerate_from_bounds {A} (n : nat) (xs : list A) (i : nat) (x : A) :
  In (i, x) (enumerate_from n xs) -> (n <= i < n + length xs)%nat.
Proof.
  revert n. induction xs as [|y t IH]; intros n; simpl; [tauto |].
  intros [E|Hin].
  - injection E as <- _. lia.
  - apply IH in Hin. lia.
Qed.

Lemma enumerate_from_complete {A} (n : nat) (xs : list A) (x : A) :
  In x xs -> exists i, In (i, x) (enumerate_from n xs).
Proof.
  revert n. induction xs as [|y t IH]; intros n; simpl; [tauto |].
  intros [->|Hin].
  - exists n. left. reflexivity.
  - destruct (IH (S n) Hin) as (i & Hi). exists i. right. exact Hi.
Qed.

Lemma In_matching_index (df_items : list item_feature) (product_id : Z) (i : nat) :
  In i (matching_index df_items product_id) -> (i < length df_items)%nat.
Proof.
  unfold matching_index, enumerate. rewrite in_map_iff.
  intros ([j r] & <- & Hin). apply filter_In in Hin. destruct Hin as [Hin _].
  apply enumerate_from_bounds in Hin. simpl. lia.
Qed.

Lemma matching_index_absent (df_items : list item_feature) (product_id : Z) :
  ~ In product_id (map if_product_id df_items) ->
  matching_index df_items product_id = nil.
Proof.
  intros Habs. unfold matching_index.
  destruct (List.filter _ (enumerate df_items)) as [|[i r] l] eqn:E; [reflexivity |].
  exfalso. apply Habs.
  assert (Hin : In (i, r) (List.filter
                  (fun ir => if_product_id (snd ir) =? product_id)
                  (enumerate df_items))) by (rewrite E; left; reflexivity).
  apply filter_In in Hin. destruct Hin as [Hin Hid]. simpl in Hid.
  apply Z.eqb_eq in Hid. subst product_id.
  apply in_map_iff. exists r. split; [reflexivity |].
  unfold enumerate in Hin. clear -Hin.
  revert Hin. generalize 0%nat. induction df_items as [|y t IH]; intros n; simpl; [tauto |].
  intros [E|Hin]; [injection E as _ ->; left; reflexivity | right; eapply IH, Hin].
Qed.

Lemma matching_index_present (df_items : list item_feature) (product_id : Z) :
  In product_id (map if_product_id df_items) ->
  exists idx rest, matching_index df_items product_id = idx :: rest
                   /\ (idx < length df_items)%nat.
Proof.
  intros Hin. apply in_map_iff in Hin. destruct Hin as (r & Hid & Hr).
  destruct (enumerate_from_complete 0 df_items r Hr) as (i & Hi).
  assert (Hm : In i (matching_index df_items product_id)).
  { unfold matching_index. apply in_map_iff. exists (i, r). split; [reflexivity |].
    apply filter_In. split; [exact Hi |]. simpl. apply Z.eqb_eq. exact Hid. }
  destruct (matching_index df_items product_id) as [|idx rest] eqn:E; [destruct Hm |].
  exists idx, rest. split; [reflexivity |].
  apply (In_matching_index df_items product_id). rewrite E. left. reflexivity.
Qed.

(** *** The sort *)

(** [a] is ranked before [b]: a higher score, or the same score and an
    earlier position in the item table. *)
Definition ranked_before (a b : nat * Q) : Prop :=
  (snd b < snd a)%Q \/ ((snd a == snd b)%Q /\ (fst a < fst b)%nat).

Lemma ranked_before_of_le (a b : nat * Q) :
  (snd b <= snd a)%Q -> (fst a < fst b)%nat -> ranked_before a b.
Proof.
  intros Hle Hlt. unfold ranked_before.
  destruct (Qlt_le_dec (snd b) (snd a)) as [H|H]; [left; exact H |].
  right. split; [apply Qle_antisym; assumption | exact Hlt].
Qed.

Lemma ranked_before_le (a b : nat * Q) : ranked_before a b -> (snd b <= snd a)%Q.
Proof.
  intros [H|[H _]]; [apply Qlt_le_weak, H | rewrite H; apply Qle_refl].
Qed.

Lemma In_insert_desc {A} (key : A -> Q) (x : A) (l : list A) (y : A) :
  In y (insert_desc key x l) <-> y = x \/ In y l.
Proof.
  induction l as [|z t IH]; simpl.
  - intuition.
  - destruct (Qle_bool (key z) (key x)); simpl; [intuition |].
    rewrite IH. intuition.
Qed.

Lemma In_sorted_reverse {A} (key : A -> Q) (l : list A) (y : A) :
  In y (sorted_reverse key l) <-> In y l.
Proof.
  unfold sorted_reverse. induction l as [|x l IH]; simpl; [reflexivity |].
  rewrite In_insert_desc, IH. intuition.
Qed.

(** Inserting an element that comes from an earlier position than all the
    elements already sorted. *)
Lemma insert_desc_sorted (x : nat * Q) (l : list (nat * Q)) :
  StronglySorted ranked_before l ->
  (forall y, In y l -> (fst x < fst y)%nat) ->
  StronglySorted ranked_before (insert_desc snd x l).
Proof.
  induction 1 as [|y t Ht IH Hy]; intros Hpos; simpl.
  - repeat constructor.
  - rewrite Forall_forall in Hy.
    destruct (Qle_bool (snd y) (snd x)) eqn:E.
    + apply Qle_bool_iff in E.
      constructor; [constructor; [exact Ht | apply Forall_forall; exact Hy] |].
      apply Forall_forall. intros z Hz. apply list_elem_of_In in Hz.
      apply ranked_before_of_le; [| apply Hpos; exact Hz].
      destruct Hz as [<-|Hz]; [exact E |].
      apply Qle_trans with (snd y); [| exact E].
      apply ranked_before_le, Hy, list_elem_of_In, Hz.
    + assert (Hlt : (snd x < snd y)%Q).
      { apply Qnot_le_lt. intros Hle. apply Qle_bool_iff in Hle. congruence. }
      constructor.
      * apply IH. intros z Hz. apply Hpos. right. exact Hz.
      * apply Forall_forall. intros z Hz.
        apply list_elem_of_In, In_insert_desc in Hz. destruct Hz as [->|Hz].
        -- left. exact Hlt.
        -- apply Hy, list_elem_of_In, Hz.
Qed.

Lemma sorted_reverse_enumerate (n : nat) (row : list Q) :
  StronglySorted ranked_before (sorted_reverse snd (enumerate_from n row)).
Proof.
  revert n. induction row as [|s row IH]; intros n.
  - constructor.
  - change (StronglySorted ranked_before
              (insert_desc snd (n, s)
                 (sorted_reverse snd (enumerate_from (S n) row)))).
    apply insert_desc_sorted; [apply IH |].
    intros [i v] Hin. apply In_sorted_reverse, enumerate_from_bounds in Hin.
    simpl. lia.
Qed.

(** *** The slice *)

Lemma StronglySorted_skipn {A} (R : A -> A -> Prop) (n : nat) (l : list A) :
  StronglySorted R l -> StronglySorted R (skipn n l).
Proof.
  intros Hs. rewrite <- (firstn_skipn n l) in Hs.
  apply StronglySorted_app_1_r in Hs. exact Hs.
Qed.

Lemma StronglySorted_firstn {A} (R : A -> A -> Prop) (n : nat) (l : list A) :
  StronglySorted R l -> StronglySorted R (firstn n l).
Proof.
  intros Hs. rewrite <- (firstn_skipn n l) in Hs.
  apply StronglySorted_app_1_l in Hs. exact Hs.
Qed.

Lemma slice_sorted {A} (R : A -> A -> Prop) (start stop : Z) (l : list A) :
  StronglySorted R l -> StronglySorted R (slice start stop l).
Proof.
  intros Hs. unfold slice. apply StronglySorted_firstn, StronglySorted_skipn, Hs.
Qed.

Lemma In_slice {A} (start stop : Z) (l : list A) (x : A) :
  In x (slice start stop l) -> In x l.
Proof.
  unfold slice. intros Hin.
  rewrite <- (firstn_skipn (Z.to_nat (clamp_bound (Z.of_nat (length l)) start)) l).
  apply in_or_app. right.
  rewrite <- (firstn_skipn
                (Z.to_nat (clamp_bound (Z.of_nat (length l)) stop
                           - clamp_bound (Z.of_nat (length l)) start))
                (skipn _ l)).
  apply in_or_app. left. exact Hin.
Qed.

(** *** Picking the rows *)

Lemma result_mapM_cons {A B} (f : A -> result B) (x : A) (t : list A) :
  result_mapM f (x :: t)
  = match f x with
    | Returned y =>
        match result_mapM f t with
        | Returned ys => Returned (y :: ys)
        | Raised e => Raised e
        end
    | Raised e => Raised e
    end.
Proof. reflexivity. Qed.

Lemma iloc_returns (df_items : list item_feature) (item_indices : list nat) :
  (forall i, In i item_indices -> (i < length df_items)%nat) ->
  exists picked, iloc df_items item_indices = Returned picked
                 /\ Forall2 (fun i r => nth_error df_items i = Some r)
                            item_indices picked.
Proof.
  unfold iloc. induction item_indices as [|i t IH]; intros Hb.
  - exists nil. split; [reflexivity | constructor].
  - destruct IH as (picked & Hp & Hf); [intros j Hj; apply Hb; right; exact Hj |].
    destruct (nth_error df_items i) as [r|] eqn:E.
    + exists (r :: picked). split; [| constructor; assumption].
      rewrite result_mapM_cons. unfold getitem at 1. rewrite E, Hp. reflexivity.
    + apply nth_error_None in E. specialize (Hb i (or_introl eq_refl)). lia.
Qed.

Lemma top_scores_returns (X : list (list Q)) (idx : nat) (top_n : Z) :
  (idx < length X)%nat ->
  exists scores,
    top_scores (linear_kernel X X) idx top_n = Returned scores
    /\ StronglySorted ranked_before scores
    /\ (forall i s, In (i, s) scores -> (i < length X)%nat).
Proof.
  intros Hidx. unfold top_scores, linear_kernel, getitem.
  destruct (nth_error X idx) as [x|] eqn:E; [| apply nth_error_None in E; lia].
  rewrite nth_error_map, E. simpl.
  eexists. split; [reflexivity |]. split.
  - apply slice_sorted, sorted_reverse_enumerate.
  - intros i s Hin.
    apply In_slice, In_sorted_reverse, enumerate_from_bounds in Hin.
    rewrite length_map in Hin. lia.
Qed.

(** *** The claims *)

Definition item_row (pid : Z) (cat : string) (n : Z) : item_feature :=
  {| if_product_id := pid;
     item_interaction_count := n;
     item_avg_affinity := 1%Q;
     norm_price := Some 0%Q;
     norm_rating := Some 0%Q;
     category := Some cat;
     global_popularity_score := log1p n |}.

(** Two items of the same category.  The vocabulary has the one term
    [electronics], which occurs once in both documents: its idf is
    [ln(3/3) + 1 = 1], both rows are [[1]] before and after the L2
    normalisation, and all four entries of the kernel are 1. *)
Definition twin_items : list item_feature :=
  [ item_row 1 "electronics" 3; item_row 2 "electronics" 2 ].

Definition twin_tfidf : list (list Q) := [ [ 1%Q ]; [ 1%Q ] ].

Definition recommended_ids (recs : list recommendation) : list Z :=
  map (fun r => fst (fst r)) recs.

(** C3 read literally: the queried product is never among the results. *)
Definition never_recommends_query : Prop :=
  forall df_items tfidf_matrix product_id top_n recs,
    length tfidf_matrix = length df_items ->
    In product_id (map if_product_id df_items) ->
    recommender df_items tfidf_matrix product_id top_n = Returned recs ->
    ~ In product_id (recommended_ids recs).

(** C3: the code drops the first entry of the sorted scores, taking it to
    be the queried item.  With two items of the same category the scores
    tie, the sort keeps the table order, and a query for the second item
    drops the first item and returns the queried item itself. *)
Theorem recommender_returns_query_itself :
  linear_kernel twin_tfidf twin_tfidf = [ [ 1%Q; 1%Q ]; [ 1%Q; 1%Q ] ]
  /\ recommender twin_items twin_tfidf 2 5
     = Returned [ (2, Some "electronics", Some 0%Q) ]
  /\ recommender twin_items twin_tfidf 1 5
     = Returned [ (2, Some "electronics", Some 0%Q) ]
  /\ ~ never_recommends_query.
Proof.
  assert (Hrun : recommender twin_items twin_tfidf 2 5
                 = Returned [ (2, Some "electronics", Some 0%Q) ])
    by (vm_compute; reflexivity).
  split; [vm_compute; reflexivity |]. split; [exact Hrun |].
  split; [vm_compute; reflexivity |].
  intros Hnever.
  apply (Hnever twin_items twin_tfidf 2 5
           [ (2, Some "electronics", Some 0%Q) ] eq_refl).
  - simpl. tauto.
  - exact Hrun.
  - simpl. tauto.
Qed.

(** C4: a query for a product_id that is not in the item table raises
    (the [IndexError] of taking element 0 of the empty list of matches);
    no list is returned. *)
Theorem unknown_product_raises (df_items : list item_feature)
  (cosine_sim : list (list Q)) (product_id top_n : Z) :
  ~ In product_id (map if_product_id df_items) ->
  get_recommendations df_items cosine_sim product_id top_n = Raised IndexError.
Proof.
  intros Habs. unfold get_recommendations.
  rewrite (matching_index_absent df_items product_id Habs). reflexivity.
Qed.

Lemma unknown_product_raises_witness :
  get_recommendations twin_items (linear_kernel twin_tfidf twin_tfidf) 99 5
  = Raised IndexError.
Proof.
  apply (unknown_product_raises twin_items (linear_kernel twin_tfidf twin_tfidf) 99 5).
  simpl. intros [H|[H|[]]]; discriminate H.
Defined.

(** C5: for a product of the item table, the call returns the rows picked
    by a list of scored positions that is sorted by non-increasing score,
    positions of equal score being in the order of the item table; and the
    call has one outcome for given inputs. *)
Theorem recommendations_sorted_stable (df_items : list item_feature)
  (tfidf_matrix : list (list Q)) (product_id top_n : Z) :
  length tfidf_matrix = length df_items ->
  In product_id (map if_product_id df_items) ->
  exists idx scores picked,
    getitem (matching_index df_items product_id) 0 = Returned idx
    /\ top_scores (linear_kernel tfidf_matrix tfidf_matrix) idx top_n
       = Returned scores
    /\ StronglySorted ranked_before scores
    /\ Forall2 (fun i r => nth_error df_items i = Some r) (map fst scores) picked
    /\ recommender df_items tfidf_matrix product_id top_n
       = Returned (map project picked)
    /\ (forall out out',
          recommender df_items tfidf_matrix product_id top_n = out ->
          recommender df_items tfidf_matrix product_id top_n = out' ->
          out = out').
Proof.
  intros Hlen Hin.
  destruct (matching_index_present df_items product_id Hin) as (idx & rest & Hm & Hidx).
  destruct (top_scores_returns tfidf_matrix idx top_n) as (scores & Hs & Hsorted & Hb);
    [lia |].
  destruct (iloc_returns df_items (map fst scores)) as (picked & Hp & Hf).
  { intros i Hi. apply in_map_iff in Hi. destruct Hi as ([j s] & <- & Hj).
    apply Hb in Hj. simpl. lia. }
  exists idx, scores, picked.
  split; [rewrite Hm; reflexivity |].
  split; [exact Hs |]. split; [exact Hsorted |]. split; [exact Hf |].
  split; [| intros out out' <- <-; reflexivity].
  unfold recommender, get_recommendations. rewrite Hm.
  change (getitem (idx :: rest) 0) with (Returned (A:=nat) idx).
  cbn [mbind result_bind]. rewrite Hs. cbn [mbind result_bind].
  rewrite Hp. reflexivity.
Qed.

(** Three items, the second and third tied against the first. *)
Definition three_items : list item_feature :=
  [ item_row 1 "electronics" 3; item_row 2 "jewelery" 2; item_row 3 "jewelery" 1 ].

Definition three_tfidf : list (list Q) :=
  [ [ 1%Q; 0%Q ]; [ 0%Q; 1%Q ]; [ 0%Q; 1%Q ] ].

Lemma recommendations_sorted_stable_witness :
  exists idx scores picked,
    getitem (matching_index three_items 1) 0 = Returned idx
    /\ top_scores (linear_kernel three_tfidf three_tfidf) idx 5 = Returned scores
    /\ StronglySorted ranked_before scores
    /\ Forall2 (fun i r => nth_error three_items i = Some r) (map fst scores) picked
    /\ recommender three_items three_tfidf 1 5 = Returned (map project picked)
    /\ (forall out out',
          recommender three_items three_tfidf 1 5 = out ->
          recommender three_items three_tfidf 1 5 = out' ->
          out = out').
Proof.
  apply (recommendations_sorted_stable three_items three_tfidf 1 5).
  - reflexivity.
  - simpl. left. reflexivity.
Defined.

End RecommenderProps.

(** * More of the pipeline *)

(** ** The feature tables of the transformation stage *)

Module FeatureTableProps.
Import Pandas GroupByProps DataTransformation Binary64Props.

Lemma filter_all {A} (l : list A) : List.filter (fun _ => true) l = l.
Proof. induction l as [|x l IH]; simpl; [reflexivity | rewrite IH; reflexivity]. Qed.

Lemma count_as_sum {A} (l : list A) : count l = sum (map (fun _ => 1) l).
Proof.
  unfold count. induction l as [|x l IH]; [reflexivity |].
  cbn [length map sum fold_right]. fold (sum (map (fun _ : A => 1) l)). lia.
Qed.

Lemma keqb_string (a b : string) : keqb a b = String.eqb a b.
Proof.
  destruct (String.eqb_spec a b) as [->|Hne].
  - apply keqb_refl.
  - destruct (keqb a b) eqn:E; [| reflexivity].
    apply keqb_eq in E. contradiction.
Qed.

Section Totals.
Context {K : Type} `{KeyOrderLaws K}.
Variable key : DataPreparation.gold_row -> K.

(** Adding a column up group by group is adding it up over the table. *)
Lemma sum_over_groups (w : DataPreparation.gold_row -> Z)
  (df : list DataPreparation.gold_row) :
  sum (map (fun k => sum (map w (get_group key df k))) (group_keys key df))
  = sum (map w df).
Proof.
  pose proof (sum_groups_filter key (fun _ => true) w (group_keys key df) df
                (NoDup_group_keys key df)) as Hs.
  rewrite !filter_all in Hs. apply Hs.
  intros r Hr. apply In_group_keys. exists r. tauto.
Qed.
End Totals.

(** The strict order of the rows of each table. *)
Definition user_before (a b : user_feature) : Prop :=
  String.ltb (uf_user_id a) (uf_user_id b) = true.

Definition item_before (a b : item_feature) : Prop :=
  (if_product_id a < if_product_id b)%Z.

Definition pair_before (a b : affinity) : Prop :=
  String.ltb (am_user_id a) (am_user_id b) = true
  \/ (am_user_id a = am_user_id b /\ (am_product_id a < am_product_id b)%Z).

Lemma sorted_by_key {O K} `{KeyOrderLaws K} (okey : O -> K) (R : O -> O -> Prop)
  (l : list O) :
  (forall a b, klt (okey a) (okey b) -> R a b) ->
  StronglySorted klt (map okey l) -> StronglySorted R l.
Proof.
  intros HR. induction l as [|x l IH]; intros Hs; [constructor |].
  simpl in Hs. apply StronglySorted_inv in Hs. destruct Hs as [Hl Hx].
  constructor; [apply IH, Hl |].
  rewrite Forall_forall in Hx. rewrite Forall_forall. intros y Hy. apply HR, Hx.
  apply list_elem_of_In, in_map, list_elem_of_In, Hy.
Qed.

Lemma user_features_keys (df : list DataPreparation.gold_row) :
  map uf_user_id (user_features df) = group_keys gold_user_id df.
Proof. unfold user_features. apply groupby_agg_keys. reflexivity. Qed.

Lemma item_features_keys (df : list DataPreparation.gold_row) :
  map if_product_id (item_features df) = group_keys gold_product_id df.
Proof. unfold item_features. apply groupby_agg_keys. reflexivity. Qed.

Lemma interaction_matrix_keys (df : list DataPreparation.gold_row) :
  map (fun a => (am_user_id a, am_product_id a)) (interaction_matrix df)
  = group_keys gold_pair df.
Proof. unfold interaction_matrix. apply groupby_agg_keys. intros [u p] g. reflexivity. Qed.

(** X1: for user ids that are read as text (the generator's [U0001]),
    each of the three tables comes out in strictly ascending key order
    (users by user_id in code point order, items by product_id, pairs by
    user_id and then product_id), and the users and products listed are
    exactly those that occur in the input.  A user_id column of digits only
    is read as integers and ordered numerically; it is not covered. *)
Theorem feature_tables_sorted_by_key (df : list DataPreparation.gold_row) :
  text_user_ids df ->
  StronglySorted user_before (user_features df)
  /\ StronglySorted item_before (item_features df)
  /\ StronglySorted pair_before (interaction_matrix df)
  /\ (forall u, In u (map uf_user_id (user_features df))
                <-> In u (map gold_user_id df))
  /\ (forall p, In p (map if_product_id (item_features df))
                <-> In p (map gold_product_id df)).
Proof.
  intros _. split; [| split; [| split; [| split]]].
  - apply (sorted_by_key uf_user_id).
    + intros a b Hlt. unfold user_before, String.ltb. unfold klt in Hlt.
      change (String.compare (uf_user_id a) (uf_user_id b) = Lt) in Hlt.
      rewrite Hlt. reflexivity.
    + rewrite user_features_keys. apply distinct_sorted.
  - apply (sorted_by_key if_product_id).
    + intros a b Hlt. exact Hlt.
    + rewrite item_features_keys. apply distinct_sorted.
  - apply (sorted_by_key (fun a => (am_user_id a, am_product_id a))).
    + intros a b Hlt. unfold klt in Hlt. rewrite pair_cmp_unfold in Hlt.
      simpl in Hlt. unfold pair_before, String.ltb.
      change (kcmp (am_user_id a) (am_user_id b))
        with (String.compare (am_user_id a) (am_user_id b)) in Hlt.
      destruct (String.compare (am_user_id a) (am_user_id b)) eqn:E;
        try discriminate.
      * right. split; [apply string_compare_eq, E | exact Hlt].
      * left. reflexivity.
    + rewrite interaction_matrix_keys. apply distinct_sorted.
  - intros u. rewrite user_features_keys. unfold group_keys. apply In_distinct.
  - intros p. rewrite item_features_keys. unfold group_keys. apply In_distinct.
Qed.

Lemma feature_tables_sorted_by_key_witness :
  StronglySorted user_before (user_features Scenario.gold)
  /\ StronglySorted item_before (item_features Scenario.gold)
  /\ StronglySorted pair_before (interaction_matrix Scenario.gold)
  /\ (forall u, In u (map uf_user_id (user_features Scenario.gold))
                <-> In u (map gold_user_id Scenario.gold))
  /\ (forall p, In p (map if_product_id (item_features Scenario.gold))
                <-> In p (map gold_product_id Scenario.gold)).
Proof.
  apply (feature_tables_sorted_by_key Scenario.gold).
  unfold text_user_ids. vm_compute. repeat constructor.
Defined.

(** X2: nothing is lost or counted twice.  The activity counts of the user
    table and the interaction counts of the item table each add up to the
    number of input rows; the total scores of the user table and the
    affinity scores of the matrix each add up to the sum of all weights. *)
Theorem feature_tables_conserve_totals (df : list DataPreparation.gold_row) :
  sum (map user_activity_count (user_features df)) = Z.of_nat (length df)
  /\ sum (map item_interaction_count (item_features df)) = Z.of_nat (length df)
  /\ sum (map user_total_score (user_features df)) = sum (map gold_weight df)
  /\ sum (map affinity_score (interaction_matrix df)) = sum (map gold_weight df).
Proof.
  assert (Hlen : forall l : list DataPreparation.gold_row,
            sum (map (fun _ => 1) l) = Z.of_nat (length l)).
  { intros l. rewrite <- count_as_sum. reflexivity. }
  split; [| split; [| split]].
  - unfold user_features, groupby_agg, groupby. rewrite !map_map. cbn [fst snd user_activity_count].
    rewrite <- Hlen, <- (sum_over_groups gold_user_id (fun _ => 1) df).
    f_equal. apply map_ext. intros k.
    rewrite count_as_sum, !map_map. reflexivity.
  - unfold item_features, groupby_agg, groupby. rewrite !map_map. cbn [fst snd item_interaction_count].
    rewrite <- Hlen, <- (sum_over_groups gold_product_id (fun _ => 1) df).
    f_equal. apply map_ext. intros k.
    rewrite count_as_sum, !map_map. reflexivity.
  - unfold user_features, groupby_agg, groupby. rewrite !map_map. cbn [fst snd user_total_score].
    apply (sum_over_groups gold_user_id gold_weight df).
  - unfold interaction_matrix, groupby_agg, groupby. rewrite !map_map. cbn [fst snd affinity_score].
    apply (sum_over_groups gold_pair gold_weight df).
Qed.

(** X3: the user table and the affinity matrix agree: the total score of
    a user is the sum of the affinity scores of the user's rows of the
    matrix. *)
Theorem user_total_is_sum_of_affinities (df : list DataPreparation.gold_row) :
  Forall (fun u =>
            user_total_score u
            = sum (map affinity_score
                       (List.filter (fun a => String.eqb (am_user_id a) (uf_user_id u))
                                    (interaction_matrix df))))
         (user_features df).
Proof.
  unfold user_features, groupby_agg, groupby. rewrite map_map.
  apply Forall_map, Forall_forall. intros k _.
  cbn [fst snd user_total_score uf_user_id].
  rewrite AggregationProps.interaction_matrix_filter_user.
  rewrite (sum_groups_filter gold_pair (fun k' => String.eqb (fst k') k) gold_weight).
  - unfold get_group. f_equal. f_equal. apply filter_ext. intros r.
    apply keqb_string.
  - apply NoDup_group_keys.
  - intros r Hr. apply In_group_keys. exists r. tauto.
Qed.

Lemma max_attained (x : Z) (t : list Z) :
  In (fold_right Z.max x t) (x :: t)
  /\ forall y, In y (x :: t) -> (y <= fold_right Z.max x t)%Z.
Proof.
  induction t as [|z t [Hin Hub]]; simpl.
  - split; [left; reflexivity | intros y [<-|[]]; lia].
  - split.
    + destruct (Z.max_spec z (fold_right Z.max x t)) as [[_ ->]|[_ ->]].
      * destruct Hin as [E|Hin]; [left; exact E | right; right; exact Hin].
      * right. left. reflexivity.
    + intros y [<-|[<-|Hy]].
      * specialize (Hub x (or_introl eq_refl)). lia.
      * lia.
      * specialize (Hub y (or_intror Hy)). lia.
Qed.

(** X4: [last_active_ts] of a user is the timestamp of one of the user's
    input rows, and none of the user's rows has a later one. *)
Theorem last_active_is_latest (df : list DataPreparation.gold_row) :
  Forall (fun u =>
            exists t,
              last_active_ts u = Some t
              /\ (exists r, In r df /\ gold_user_id r = uf_user_id u
                            /\ gold_timestamp r = t)
              /\ (forall r, In r df -> gold_user_id r = uf_user_id u ->
                            (gold_timestamp r <= t)%Z))
         (user_features df).
Proof.
  unfold user_features, groupby_agg, groupby. rewrite map_map.
  apply Forall_map, Forall_forall. intros k Hk. apply list_elem_of_In in Hk.
  cbn [fst snd last_active_ts uf_user_id].
  pose proof (get_group_nonempty gold_user_id df k Hk) as Hne.
  destruct (get_group gold_user_id df k) as [|r0 g] eqn:Eg; [congruence |].
  cbn [map max].
  destruct (max_attained (gold_timestamp r0) (map gold_timestamp g)) as [Hin Hub].
  eexists. split; [reflexivity |]. split.
  - change (gold_timestamp r0 :: map gold_timestamp g)
      with (map gold_timestamp (r0 :: g)) in Hin.
    apply in_map_iff in Hin. destruct Hin as (r & Ht & Hr).
    rewrite <- Eg in Hr. apply In_get_group in Hr.
    exists r. tauto.
  - intros r Hr Hu. apply Hub.
    change (gold_timestamp r0 :: map gold_timestamp g)
      with (map gold_timestamp (r0 :: g)).
    apply in_map. rewrite <- Eg. apply In_get_group. tauto.
Qed.

Lemma count_pos {A} (xs : list A) : xs <> nil -> (0 < count xs)%Z.
Proof. unfold count. destruct xs; [congruence | simpl; lia]. Qed.

Lemma count_le_sum (xs : list Z) :
  (forall x, In x xs -> 1 <= x)%Z -> (count xs <= sum xs)%Z.
Proof.
  unfold count. induction xs as [|x xs IH]; intros Hb; [simpl; lia |].
  specialize (IH (fun y Hy => Hb y (or_intror Hy))).
  specialize (Hb x (or_introl eq_refl)).
  cbn [length sum fold_right] in *. fold (sum xs). lia.
Qed.

(** The mean is the quotient up to the rounding of one division. *)
Lemma mean_times_count (xs : list Z) :
  xs <> nil -> (forall x, In x xs -> 1 <= x)%Z ->
  (0 < count xs)%Z
  /\ (Qabs (mean xs * inject_Z (count xs) - inject_Z (sum xs))
      <= inject_Z (sum xs) * 2 ^ (-53))%Q.
Proof.
  intros Hne Hb. pose proof (count_pos xs Hne) as Hc.
  pose proof (count_le_sum xs Hb) as Hs.
  split; [exact Hc |].
  assert (HcQ : (0 < inject_Z (count xs))%Q) by (apply inject_Z_pos, Hc).
  assert (HsQ : (inject_Z (count xs) <= inject_Z (sum xs))%Q)
    by (rewrite <- Zle_Qle; exact Hs).
  unfold mean, Binary64.div.
  set (q := (inject_Z (sum xs) / inject_Z (count xs))%Q).
  assert (Hq : (1 <= q)%Q) by (apply Qle_shift_div_l; [exact HcQ | lra]).
  assert (Hn : (2 ^ (-1022) <= q)%Q).
  { apply Qle_trans with 1%Q; [| exact Hq].
    change 1%Q with (2 ^ 0)%Q. apply pow2_le. lia. }
  pose proof (round_error q Hn) as He.
  assert (E : (Binary64.round q * inject_Z (count xs) - inject_Z (sum xs)
               == (Binary64.round q - q) * inject_Z (count xs))%Q).
  { unfold q. field. lra. }
  rewrite E, Qabs_Qmult, (Qabs_pos (inject_Z (count xs))) by lra.
  assert (E2 : (inject_Z (sum xs) * 2 ^ (-53)
                == q * 2 ^ (-53) * inject_Z (count xs))%Q).
  { unfold q. field. lra. }
  rewrite E2. apply Qmult_le_compat_r; [exact He | lra].
Qed.

(** X5: no group is empty, and the averages are the totals over the
    counts up to the rounding of one binary64 division.  For weights of at
    least 1, as the preparation stage writes them: in the user table the
    activity count is positive and the average affinity times the count
    differs from the total score by at most [2^-53] of the total; in the
    item table the same holds of the interaction count, the average and the
    sum of the weights of the product's rows. *)
Theorem averages_are_rounded_quotients (df : list DataPreparation.gold_row) :
  Forall (fun r => 1 <= gold_weight r)%Z df ->
  Forall (fun u =>
            (0 < user_activity_count u)%Z
            /\ (Qabs (user_avg_affinity u * inject_Z (user_activity_count u)
                      - inject_Z (user_total_score u))
                <= inject_Z (user_total_score u) * 2 ^ (-53))%Q)
         (user_features df)
  /\ Forall (fun i =>
               let total :=
                 sum (map gold_weight
                          (List.filter
                             (fun r => gold_product_id r =? if_product_id i) df)) in
               (0 < item_interaction_count i)%Z
               /\ (Qabs (item_avg_affinity i * inject_Z (item_interaction_count i)
                         - inject_Z total)
                   <= inject_Z total * 2 ^ (-53))%Q)
            (item_features df).
Proof.
  intros Hw. rewrite List.Forall_forall in Hw.
  assert (Hgroup : forall (K : Type) (H : KeyOrder K) (L : KeyOrderLaws K)
                          (key : DataPreparation.gold_row -> K) (k : K),
             forall x, In x (map gold_weight (get_group key df k)) -> (1 <= x)%Z).
  { intros K H L key k x Hx. apply in_map_iff in Hx. destruct Hx as (r & <- & Hr).
    apply In_get_group in Hr. apply Hw. tauto. }
  split.
  - unfold user_features, groupby_agg, groupby. rewrite map_map.
    apply Forall_map, Forall_forall. intros k Hk. apply list_elem_of_In in Hk.
    cbn [fst snd user_activity_count user_avg_affinity user_total_score].
    pose proof (get_group_nonempty gold_user_id df k Hk) as Hne.
    apply mean_times_count; [| apply (Hgroup _ _ _ gold_user_id k)].
    destruct (get_group gold_user_id df k); [congruence | discriminate].
  - unfold item_features, groupby_agg, groupby. rewrite map_map.
    apply Forall_map, Forall_forall. intros k Hk. apply list_elem_of_In in Hk.
    cbn [fst snd item_interaction_count item_avg_affinity if_product_id].
    assert (Hg : List.filter (fun r => gold_product_id r =? k) df
                 = get_group gold_product_id df k).
    { unfold get_group. apply filter_ext. intros r. unfold keqb.
      change (kcmp (gold_product_id r) k) with (gold_product_id r ?= k)%Z.
      rewrite Z.eqb_compare. reflexivity. }
    rewrite Hg.
    pose proof (get_group_nonempty gold_product_id df k Hk) as Hne.
    apply mean_times_count; [| apply (Hgroup _ _ _ gold_product_id k)].
    destruct (get_group gold_product_id df k); [congruence | discriminate].
Qed.

Lemma averages_are_rounded_quotients_witness :
  Forall (fun u =>
            (0 < user_activity_count u)%Z
            /\ (Qabs (user_avg_affinity u * inject_Z (user_activity_count u)
                      - inject_Z (user_total_score u))
                <= inject_Z (user_total_score u) * 2 ^ (-53))%Q)
         (user_features Scenario.gold).
Proof.
  apply (averages_are_rounded_quotients Scenario.gold).
  vm_compute. repeat constructor; discriminate.
Defined.

End FeatureTableProps.

(** ** The preparation stage *)

Module PreparationProps.
Import Pandas GroupByProps DataPreparation Binary64Props.

Lemma nunique_length {K} `{KeyOrderLaws K} (xs : list K) :
  nunique xs = Z.of_nat (length (fold_right insert_key nil xs)).
Proof. reflexivity. Qed.

(** The distinct pairs of a table are pairs of its distinct users and its
    distinct products, so there are at most users x products of them. *)
Lemma distinct_pairs_le (df : list weighted_interaction) :
  nunique (map user_product df)
  <= nunique (map (fun r => user_id (event r)) df)
     * nunique (map (fun r => product_id (event r)) df).
Proof.
  rewrite !nunique_length, <- Nat2Z.inj_mul. apply Nat2Z.inj_le.
  rewrite <- length_prod. apply NoDup_incl_length.
  - apply sorted_NoDup, distinct_sorted.
  - intros [u p] Hin. apply In_distinct, in_map_iff in Hin.
    destruct Hin as (r & Hr & Hin). unfold user_product in Hr.
    injection Hr as <- <-. apply in_prod; apply In_distinct.
    + apply (in_map (fun r => user_id (event r))), Hin.
    + apply (in_map (fun r => product_id (event r))), Hin.
Qed.

(** X6: the sparsity report fails with [ZeroDivisionError] on a table
    without rows, before it prints anything; on any other table it returns
    a percentage that is at least 0 and below 100. *)
Theorem calculate_global_sparsity_range :
  calculate_global_sparsity nil = Raised ZeroDivisionError
  /\ forall (w : weighted_interaction) (df : list weighted_interaction),
       exists sparsity lines,
         calculate_global_sparsity (w :: df) = Returned (sparsity, lines)
         /\ (0 <= sparsity /\ sparsity < 100)%Q.
Proof.
  split; [reflexivity |]. intros w df.
  unfold calculate_global_sparsity.
  pose proof (JoinProps.nunique_pos (user_id (event w))
                (map (fun r => user_id (event r)) df)) as Hu.
  pose proof (JoinProps.nunique_pos (product_id (event w))
                (map (fun r => product_id (event r)) df)) as Hi.
  pose proof (JoinProps.nunique_pos (user_product w) (map user_product df)) as Ha.
  pose proof (distinct_pairs_le (w :: df)) as Hle.
  cbn [map] in Hle |- *.
  set (a := nunique (user_product w :: map user_product df)) in *.
  set (t := nunique _ * nunique _) in *.
  assert (Ht : 0 < t) by (unfold t; nia).
  destruct (t =? 0) eqn:E; [apply Z.eqb_eq in E; lia |].
  eexists _, _. split; [reflexivity |].
  assert (Htq : (inject_Z 0 < inject_Z t)%Q) by (rewrite <- Zlt_Qlt; exact Ht).
  assert (Haq : (inject_Z 0 < inject_Z a)%Q) by (rewrite <- Zlt_Qlt; exact Ha).
  assert (Hleq : (inject_Z a <= inject_Z t)%Q) by (rewrite <- Zle_Qle; exact Hle).
  change (inject_Z 0) with 0%Q in Htq, Haq.
  assert (Hlo : (0 < inject_Z a / inject_Z t)%Q).
  { apply Qlt_shift_div_l; [exact Htq |]. rewrite Qmult_0_l. exact Haq. }
  assert (Hhi : (inject_Z a / inject_Z t <= 1)%Q).
  { apply Qle_shift_div_r; [exact Htq |]. rewrite Qmult_1_l. exact Hleq. }
  split; lra.
Qed.

(** *** When the run writes the Gold table *)

Definition started : list line :=
  [ Text "Initializing Section 5: Data Preparation..." ].

Lemma run_without_products (silver_inter : list interaction) :
  run_data_preparation silver_inter nil
  = {| stdout := started ++ [ ExecutionError ValueError ];
       gold_file := None; returned := tt |}.
Proof. reflexivity. Qed.

Lemma run_without_interactions (silver_prod : list product) :
  silver_prod <> nil ->
  run_data_preparation nil silver_prod
  = {| stdout := started ++ [ ExecutionError ZeroDivisionError ];
       gold_file := None; returned := tt |}.
Proof.
  intros Hp.
  destruct (NormalizationProps.engineer_product_features_columns silver_prod Hp)
    as (rows & Hrows & _).
  unfold run_data_preparation. rewrite Hrows. reflexivity.
Qed.

(** What a written Gold table is. *)
Lemma run_gold_written (silver_inter : list interaction)
  (silver_prod : list product) (gold_df : list gold_row) :
  gold_file (run_data_preparation silver_inter silver_prod) = Some gold_df ->
  exists df_prod,
    engineer_product_features silver_prod = Returned df_prod
    /\ map raw df_prod = silver_prod
    /\ gold_df = merge_left (engineer_interaction_features silver_inter) df_prod.
Proof.
  intros Hg.
  destruct silver_prod as [|p sp].
  { rewrite run_without_products in Hg. discriminate Hg. }
  destruct silver_inter as [|i si].
  { rewrite run_without_interactions in Hg by discriminate. discriminate Hg. }
  destruct (JoinProps.run_data_preparation_gold_file (i :: si) (p :: sp))
    as (df_prod & Hrows & Hraw & Hgold); try discriminate.
  exists df_prod. split; [exact Hrows |]. split; [exact Hraw |]. congruence.
Qed.

(** X7: the run writes the Gold table exactly when both input tables have
    a row.  With no product the scaler's [ValueError] is caught and printed;
    with products but no interaction the sparsity report's
    [ZeroDivisionError] is; in both cases nothing is written and the call
    still returns. *)
Theorem run_data_preparation_needs_rows (silver_inter : list interaction)
  (silver_prod : list product) :
  (gold_file (run_data_preparation silver_inter silver_prod) = None
   <-> silver_inter = nil \/ silver_prod = nil)
  /\ (silver_prod = nil ->
      stdout (run_data_preparation silver_inter silver_prod)
      = (started ++ [ ExecutionError ValueError ])%list)
  /\ (silver_prod <> nil -> silver_inter = nil ->
      stdout (run_data_preparation silver_inter silver_prod)
      = (started ++ [ ExecutionError ZeroDivisionError ])%list).
Proof.
  split; [| split].
  - split.
    + intros Hnone. destruct silver_inter as [|i si]; [left; reflexivity |].
      destruct silver_prod as [|p sp]; [right; reflexivity |].
      destruct (JoinProps.run_data_preparation_gold_file (i :: si) (p :: sp))
        as (df_prod & _ & _ & Hgold); try discriminate.
      congruence.
    + intros [-> | ->].
      * destruct silver_prod as [|p sp]; [reflexivity |].
        rewrite run_without_interactions by discriminate. reflexivity.
      * reflexivity.
  - intros ->. reflexivity.
  - intros Hp ->. rewrite run_without_interactions by exact Hp. reflexivity.
Qed.

(** *** The left join, row by row *)

(** The rows that the join makes of one interaction. *)
Definition joined_rows (df_prod : list product_features) (i : weighted_interaction)
  : list gold_row :=
  match List.filter (fun p => id (raw p) =? product_id (event i)) df_prod with
  | nil => [ {| inter := i; item := None |} ]
  | ms => map (fun p => {| inter := i; item := Some (project_item p) |}) ms
  end.

Lemma merge_left_blocks (df_inter : list weighted_interaction)
  (df_prod : list product_features) :
  merge_left df_inter df_prod = concat (map (joined_rows df_prod) df_inter).
Proof. unfold merge_left. apply flat_map_concat_map. Qed.

Definition matches (df_prod : list product_features) (i : weighted_interaction)
  : list product_features :=
  List.filter (fun p => id (raw p) =? product_id (event i)) df_prod.

(** X8: the join keeps every interaction, in table order, whatever the
    catalog holds: the Gold table is the concatenation of one block of rows
    per interaction, all rows of a block carry that interaction, and a block
    has one row per catalog entry of the interaction's product_id, or one
    row if there is none.  A product_id listed twice doubles the rows. *)
Theorem merge_left_keeps_every_interaction
  (df_inter : list weighted_interaction) (df_prod : list product_features) :
  exists blocks,
    merge_left df_inter df_prod = concat blocks
    /\ Forall2 (fun i block =>
                  Forall (fun r => inter r = i) block
                  /\ length block = Nat.max 1 (length (matches df_prod i)))
               df_inter blocks.
Proof.
  exists (map (joined_rows df_prod) df_inter). split; [apply merge_left_blocks |].
  induction df_inter as [|i t IH]; [constructor |].
  cbn [map]. constructor; [| exact IH].
  unfold joined_rows, matches.
  destruct (List.filter _ df_prod) as [|m ms].
  - split; [repeat constructor | reflexivity].
  - split.
    + apply Forall_map, Forall_forall. intros p _. reflexivity.
    + rewrite length_map. simpl. lia.
Qed.

(** X9: the item-side cells of a Gold row are those of a catalog entry
    with the row's product_id, and they are missing only when the catalog
    has no entry with that product_id. *)
Theorem merge_left_item_from_catalog
  (df_inter : list weighted_interaction) (df_prod : list product_features) :
  Forall (fun r =>
            match item r with
            | Some cells =>
                exists p, In p df_prod
                          /\ id (raw p) = product_id (event (inter r))
                          /\ cells = project_item p
            | None =>
                forall p, In p df_prod ->
                          id (raw p) <> product_id (event (inter r))
            end)
         (merge_left df_inter df_prod).
Proof.
  rewrite merge_left_blocks. apply Forall_forall. intros r Hr.
  apply list_elem_of_In, in_concat in Hr. destruct Hr as (block & Hb & Hr).
  apply in_map_iff in Hb. destruct Hb as (i & <- & _).
  unfold joined_rows in Hr.
  destruct (List.filter (fun p => id (raw p) =? product_id (event i)) df_prod)
    as [|m ms] eqn:E.
  - destruct Hr as [<-|[]]. cbn [item inter]. intros p Hp Hid.
    assert (Hin : In p (List.filter
                          (fun p => id (raw p) =? product_id (event i)) df_prod)).
    { apply filter_In. split; [exact Hp | apply Z.eqb_eq, Hid]. }
    rewrite E in Hin. exact Hin.
  - apply in_map_iff in Hr. destruct Hr as (p & <- & Hp). cbn [item inter].
    rewrite <- E in Hp. apply filter_In in Hp. destruct Hp as [Hp Hid].
    exists p. split; [exact Hp |]. split; [apply Z.eqb_eq, Hid | reflexivity].
Qed.

(** X10: with a catalog whose ids are all different, the join neither
    drops nor repeats an interaction: the Gold table has the interactions,
    one row each, in the same order. *)
Theorem unique_catalog_one_row_per_interaction
  (df_inter : list weighted_interaction) (df_prod : list product_features) :
  List.NoDup (map (fun p => id (raw p)) df_prod) ->
  map inter (merge_left df_inter df_prod) = df_inter
  /\ length (merge_left df_inter df_prod) = length df_inter.
Proof.
  intros Hnd.
  assert (Hm : map inter (merge_left df_inter df_prod) = df_inter).
  { rewrite (JoinProps.merge_left_unique df_inter df_prod Hnd), map_map.
    apply map_id. }
  split; [exact Hm |]. rewrite <- Hm at 2. rewrite length_map. reflexivity.
Qed.

(** The scenario's catalog with its derived columns. *)
Definition scenario_catalog : list product_features :=
  match engineer_product_features Scenario.products with
  | Returned rows => rows
  | Raised _ => nil
  end.

Lemma unique_catalog_one_row_per_interaction_witness :
  map inter (merge_left (engineer_interaction_features Scenario.interactions)
                        scenario_catalog)
  = engineer_interaction_features Scenario.interactions
  /\ length (merge_left (engineer_interaction_features Scenario.interactions)
                        scenario_catalog)
     = length (engineer_interaction_features Scenario.interactions).
Proof.
  apply (unique_catalog_one_row_per_interaction
           (engineer_interaction_features Scenario.interactions) scenario_catalog).
  vm_compute. repeat constructor; simpl; intuition discriminate.
Defined.

(** *** From the Silver tables to the feature tables *)

Lemma filter_map_comm {A B} (f : B -> bool) (g : A -> B) (l : list A) :
  List.filter f (map g l) = map g (List.filter (fun x => f (g x)) l).
Proof.
  induction l as [|x l IH]; [reflexivity |]. cbn [map List.filter].
  destruct (f (g x)); cbn [map]; rewrite IH; reflexivity.
Qed.

(** The user's rows of a Silver table. *)
Definition interactions_of (u : string) (silver_inter : list interaction)
  : list interaction :=
  List.filter (fun i => String.eqb (user_id i) u) silver_inter.

(** X11: with a catalog whose ids are all different, every Silver
    interaction is counted exactly once in the user table computed from the
    Gold table that the preparation stage writes: a user's activity count
    is the number of the user's Silver interactions and the total score is
    the sum of their event weights. *)
Theorem each_interaction_counted_once (silver_inter : list interaction)
  (silver_prod : list product) (gold_df : list gold_row) :
  List.NoDup (map id silver_prod) ->
  gold_file (run_data_preparation silver_inter silver_prod) = Some gold_df ->
  Forall (fun u =>
            DataTransformation.user_activity_count u
            = Z.of_nat (length (interactions_of (DataTransformation.uf_user_id u)
                                                silver_inter))
            /\ DataTransformation.user_total_score u
               = sum (map (fun i => interaction_weight_of (event_type i))
                          (interactions_of (DataTransformation.uf_user_id u)
                                           silver_inter)))
         (DataTransformation.user_features gold_df).
Proof.
  intros Hnd Hg.
  destruct (run_gold_written silver_inter silver_prod gold_df Hg)
    as (df_prod & _ & Hraw & ->).
  assert (Hnd' : List.NoDup (map (fun p => id (raw p)) df_prod)).
  { rewrite <- Hraw, map_map in Hnd. exact Hnd. }
  rewrite (JoinProps.merge_left_unique _ df_prod Hnd').
  unfold DataTransformation.user_features, groupby_agg, groupby. rewrite map_map.
  apply Forall_map, Forall_forall. intros k _.
  cbn [fst snd DataTransformation.user_activity_count
       DataTransformation.user_total_score DataTransformation.uf_user_id].
  unfold get_group, engineer_interaction_features.
  rewrite !filter_map_comm, !map_map.
  cbn [DataTransformation.gold_weight DataTransformation.gold_user_id
       inter event interaction_weight].
  unfold interactions_of.
  rewrite (filter_ext (fun i => keqb (user_id i) k)
                      (fun i => String.eqb (user_id i) k))
    by (intros i; apply FeatureTableProps.keqb_string).
  split; [| reflexivity].
  unfold count. rewrite length_map. reflexivity.
Qed.

Lemma each_interaction_counted_once_witness :
  Forall (fun u =>
            DataTransformation.user_activity_count u
            = Z.of_nat (length (interactions_of (DataTransformation.uf_user_id u)
                                                Scenario.interactions))
            /\ DataTransformation.user_total_score u
               = sum (map (fun i => interaction_weight_of (event_type i))
                          (interactions_of (DataTransformation.uf_user_id u)
                                           Scenario.interactions)))
         (DataTransformation.user_features Scenario.gold).
Proof.
  apply (each_interaction_counted_once Scenario.interactions Scenario.products
           Scenario.gold).
  - simpl. repeat constructor; simpl; intuition discriminate.
  - vm_compute. reflexivity.
Defined.

Lemma interaction_weight_of_bounds (event : option string) :
  1 <= interaction_weight_of event <= 10.
Proof.
  rewrite WeightingProps.interaction_weight_of_spec.
  unfold WeightingProps.spec_weight. destruct event as [s|]; [| lia].
  repeat match goal with
         | |- context [String.eqb s ?k] => destruct (String.eqb s k)
         end; lia.
Qed.

Lemma In_merge_left_inter (df_inter : list weighted_interaction)
  (df_prod : list product_features) (r : gold_row) :
  In r (merge_left df_inter df_prod) -> In (inter r) df_inter.
Proof.
  rewrite merge_left_blocks. intros Hr.
  apply in_concat in Hr. destruct Hr as (block & Hb & Hr).
  apply in_map_iff in Hb. destruct Hb as (i & <- & Hi).
  unfold joined_rows in Hr.
  destruct (List.filter _ df_prod) as [|m ms].
  - destruct Hr as [<-|[]]. exact Hi.
  - apply in_map_iff in Hr. destruct Hr as (p & <- & _). exact Hi.
Qed.

Lemma sum_between (xs : list Z) :
  (forall x, In x xs -> 1 <= x <= 10) ->
  count xs <= sum xs <= 10 * count xs.
Proof.
  unfold count. induction xs as [|x xs IH]; intros Hb; [simpl; lia |].
  specialize (IH (fun y Hy => Hb y (or_intror Hy))).
  specialize (Hb x (or_introl eq_refl)).
  cbn [length sum fold_right] in *. fold (sum xs). lia.
Qed.

Lemma mean_between (xs : list Z) :
  xs <> nil -> (forall x, In x xs -> 1 <= x <= 10) ->
  (1 <= mean xs /\ mean xs <= 10)%Q.
Proof.
  intros Hne Hb. pose proof (sum_between xs Hb) as Hs.
  assert (Hc : 0 < count xs) by (unfold count; destruct xs; [congruence | simpl; lia]).
  assert (HcQ : (0 < inject_Z (count xs))%Q) by (apply inject_Z_pos, Hc).
  assert (Hlo : (inject_Z (count xs) <= inject_Z (sum xs))%Q)
    by (rewrite <- Zle_Qle; lia).
  assert (Hhi : (inject_Z (sum xs) <= 10 * inject_Z (count xs))%Q).
  { change 10%Q with (inject_Z 10). rewrite <- inject_Z_mult, <- Zle_Qle. lia. }
  unfold mean, Binary64.div. split.
  - rewrite <- (round_Z 1) by (simpl; lia). apply round_mono.
    change (inject_Z 1) with 1%Q. apply Qle_shift_div_l; [exact HcQ | lra].
  - rewrite <- (round_Z 10) by (simpl; lia). apply round_mono.
    change (inject_Z 10) with 10%Q. apply Qle_shift_div_r; [exact HcQ | lra].
Qed.

(** X12: in the feature tables computed from a Gold table that the
    preparation stage wrote, every average affinity lies between 1 and 10
    and every affinity score is at least 1. *)
Theorem pipeline_affinities_in_range (silver_inter : list interaction)
  (silver_prod : list product) (gold_df : list gold_row) :
  gold_file (run_data_preparation silver_inter silver_prod) = Some gold_df ->
  Forall (fun u => 1 <= DataTransformation.user_avg_affinity u
                   /\ DataTransformation.user_avg_affinity u <= 10)%Q
         (DataTransformation.user_features gold_df)
  /\ Forall (fun i => 1 <= DataTransformation.item_avg_affinity i
                      /\ DataTransformation.item_avg_affinity i <= 10)%Q
            (DataTransformation.item_features gold_df)
  /\ Forall (fun a => 1 <= DataTransformation.affinity_score a)
            (DataTransformation.interaction_matrix gold_df).
Proof.
  intros Hg.
  destruct (run_gold_written silver_inter silver_prod gold_df Hg)
    as (df_prod & _ & _ & ->).
  set (gold := merge_left (engineer_interaction_features silver_inter) df_prod).
  assert (Hw : forall r, In r gold -> 1 <= DataTransformation.gold_weight r <= 10).
  { intros r Hr. apply In_merge_left_inter in Hr.
    unfold engineer_interaction_features in Hr. apply in_map_iff in Hr.
    destruct Hr as (i & Hi & _). unfold DataTransformation.gold_weight.
    rewrite <- Hi. apply interaction_weight_of_bounds. }
  assert (Hgroup : forall {K} `{KeyOrderLaws K} (key : gold_row -> K) k x,
            In x (map DataTransformation.gold_weight (get_group key gold k)) ->
            1 <= x <= 10).
  { intros K HK HL key k x Hx. apply in_map_iff in Hx.
    destruct Hx as (r & <- & Hr). apply In_get_group in Hr. apply Hw, Hr. }
  assert (Hne : forall {K} `{KeyOrderLaws K} (key : gold_row -> K) k,
            In k (group_keys key gold) ->
            map DataTransformation.gold_weight (get_group key gold k) <> nil).
  { intros K HK HL key k Hk. pose proof (get_group_nonempty key gold k Hk).
    destruct (get_group key gold k); [congruence | discriminate]. }
  split; [| split].
  - unfold DataTransformation.user_features, groupby_agg, groupby. rewrite map_map.
    apply Forall_map, Forall_forall. intros k Hk. apply list_elem_of_In in Hk.
    cbn [fst snd DataTransformation.user_avg_affinity].
    apply mean_between;
      [ apply (Hne _ _ _ DataTransformation.gold_user_id k Hk)
      | apply (Hgroup _ _ _ DataTransformation.gold_user_id k) ].
  - unfold DataTransformation.item_features, groupby_agg, groupby. rewrite map_map.
    apply Forall_map, Forall_forall. intros k Hk. apply list_elem_of_In in Hk.
    cbn [fst snd DataTransformation.item_avg_affinity].
    apply mean_between;
      [ apply (Hne _ _ _ DataTransformation.gold_product_id k Hk)
      | apply (Hgroup _ _ _ DataTransformation.gold_product_id k) ].
  - unfold DataTransformation.interaction_matrix, groupby_agg, groupby.
    rewrite map_map.
    apply Forall_map, Forall_forall. intros k Hk. apply list_elem_of_In in Hk.
    cbn [fst snd DataTransformation.affinity_score].
    pose proof (sum_between _ (Hgroup _ _ _ DataTransformation.gold_pair k)) as Hs.
    pose proof (Hne _ _ _ DataTransformation.gold_pair k Hk) as Hn.
    unfold count in Hs.
    destruct (map DataTransformation.gold_weight
                  (get_group DataTransformation.gold_pair gold k));
      [congruence | simpl length in Hs; lia].
Qed.

Lemma pipeline_affinities_in_range_witness :
  Forall (fun u => 1 <= DataTransformation.user_avg_affinity u
                   /\ DataTransformation.user_avg_affinity u <= 10)%Q
         (DataTransformation.user_features Scenario.gold)
  /\ Forall (fun i => 1 <= DataTransformation.item_avg_affinity i
                      /\ DataTransformation.item_avg_affinity i <= 10)%Q
            (DataTransformation.item_features Scenario.gold)
  /\ Forall (fun a => 1 <= DataTransformation.affinity_score a)
            (DataTransformation.interaction_matrix Scenario.gold).
Proof.
  apply (pipeline_affinities_in_range Scenario.interactions Scenario.products
           Scenario.gold).
  vm_compute. reflexivity.
Defined.

(** *** Scaling keeps the order *)

Lemma column_min_attained (x0 : Q) (t : list Q) :
  exists y, In y (x0 :: t) /\ (column_min x0 t == y)%Q.
Proof.
  unfold column_min. induction t as [|z t (y & Hy & Hm)]; simpl.
  - exists x0. split; [left; reflexivity | reflexivity].
  - destruct (Q.min_spec z (fold_right Qmin x0 t)) as [[_ E]|[_ E]].
    + exists z. split; [right; left; reflexivity | exact E].
    + exists y. split; [| rewrite E; exact Hm].
      destruct Hy as [Hy|Hy]; [left; exact Hy | right; right; exact Hy].
Qed.

(** X13: scaling keeps the order of the products and pins the lower end
    of the range, rounding included.  For a catalog with at least one
    product: a product that is not dearer than another gets a norm_price
    that is not greater, and likewise for the parsed rating and
    norm_rating; and a cheapest product gets norm_price 0. *)
Theorem scaling_keeps_order (df_prod : list product) :
  df_prod <> nil ->
  exists rows,
    engineer_product_features df_prod = Returned rows
    /\ (forall p q, In p rows -> In q rows ->
          (price (raw p) <= price (raw q) -> norm_price p <= norm_price q)%Q
          /\ (parse_rate (rating (raw p)) <= parse_rate (rating (raw q)) ->
              norm_rating p <= norm_rating q)%Q)
    /\ (forall p, In p rows ->
          (forall q, In q rows -> price (raw p) <= price (raw q))%Q ->
          (norm_price p == 0)%Q).
Proof.
  intros Hne.
  destruct (NormalizationProps.engineer_product_features_columns df_prod Hne)
    as (rows & Hrows & Hraw & Hnp & Hnr).
  exists rows. split; [exact Hrows |].
  destruct df_prod as [|p0 t]; [congruence |].
  assert (Hprice : forall a, In a rows ->
            norm_price a
            = transform (fit (price p0) (map price t)) (price (raw a))).
  { intros a Ha.
    assert (E : map norm_price rows
                = map (fun a => transform (fit (price p0) (map price t))
                                          (price (raw a))) rows).
    { rewrite Hnp, <- Hraw, !map_map.
      destruct rows as [|r0 rs]; [discriminate Hraw |].
      injection Hraw as <- <-. cbn [map min_max_scale]. rewrite !map_map.
      reflexivity. }
    exact (ext_in_map E a Ha). }
  assert (Hrating : forall a, In a rows ->
            norm_rating a
            = transform (fit (parse_rate (rating p0))
                             (map (fun p => parse_rate (rating p)) t))
                        (parse_rate (rating (raw a)))).
  { intros a Ha.
    assert (E : map norm_rating rows
                = map (fun a => transform
                                  (fit (parse_rate (rating p0))
                                       (map (fun p => parse_rate (rating p)) t))
                                  (parse_rate (rating (raw a)))) rows).
    { rewrite Hnr, <- Hraw, !map_map.
      destruct rows as [|r0 rs]; [discriminate Hraw |].
      injection Hraw as <- <-. cbn [map min_max_scale]. rewrite !map_map.
      reflexivity. }
    exact (ext_in_map E a Ha). }
  assert (Hcol : forall a, In a rows -> In (price (raw a)) (price p0 :: map price t)).
  { intros a Ha. change (price p0 :: map price t) with (map price (p0 :: t)).
    rewrite <- Hraw, map_map. apply (in_map (fun r => price (raw r))), Ha. }
  assert (Hall : forall y, In y (price p0 :: map price t) ->
                           exists a, In a rows /\ price (raw a) = y).
  { intros y Hy. change (price p0 :: map price t) with (map price (p0 :: t)) in Hy.
    rewrite <- Hraw, map_map in Hy. apply in_map_iff in Hy.
    destruct Hy as (a & <- & Ha). exists a. tauto. }
  split.
  - intros p q Hp Hq. split; intros Hle.
    + rewrite (Hprice p Hp), (Hprice q Hq).
      apply NormalizationProps.transform_mono;
        [apply NormalizationProps.fit_scale_nonneg | exact Hle].
    + rewrite (Hrating p Hp), (Hrating q Hq).
      apply NormalizationProps.transform_mono;
        [apply NormalizationProps.fit_scale_nonneg | exact Hle].
  - intros p Hp Hmin. rewrite (Hprice p Hp).
    destruct (column_min_attained (price p0) (map price t)) as (y & Hy & Hm).
    destruct (Hall y Hy) as (a & Ha & <-).
    pose proof (NormalizationProps.column_min_le _ _ _ (Hcol p Hp)) as Hlo.
    specialize (Hmin a Ha).
    rewrite <- (NormalizationProps.transform_fit_min (price p0) (map price t)).
    apply NormalizationProps.transform_comp;
      [apply NormalizationProps.fit_scale_nonneg | lra].
Qed.

Lemma scaling_keeps_order_witness :
  exists rows,
    engineer_product_features Scenario.products = Returned rows
    /\ (forall p q, In p rows -> In q rows ->
          (price (raw p) <= price (raw q) -> norm_price p <= norm_price q)%Q
          /\ (parse_rate (rating (raw p)) <= parse_rate (rating (raw q)) ->
              norm_rating p <= norm_rating q)%Q)
    /\ (forall p, In p rows ->
          (forall q, In q rows -> price (raw p) <= price (raw q))%Q ->
          (norm_price p == 0)%Q).
Proof.
  apply (scaling_keeps_order Scenario.products). discriminate.
Defined.

(** *** The latest folder *)

Lemma ltb_leb (a b : string) : String.ltb a b = true -> String.leb a b = true.
Proof. unfold String.ltb, String.leb. destruct (String.compare a b); congruence. Qed.

Lemma not_ltb_leb (a b : string) : String.ltb a b = false -> String.leb b a = true.
Proof.
  unfold String.ltb, String.leb. rewrite (String.compare_antisym a b).
  destruct (String.compare b a); simpl; congruence.
Qed.

Lemma leb_refl (a : string) : String.leb a a = true.
Proof. unfold String.leb. rewrite string_compare_refl. reflexivity. Qed.

Lemma leb_trans (a b c : string) :
  String.leb a b = true -> String.leb b c = true -> String.leb a c = true.
Proof.
  unfold String.leb. intros Hab Hbc.
  destruct (String.compare a b) eqn:Eab; try discriminate;
    destruct (String.compare b c) eqn:Ebc; try discriminate.
  - apply string_compare_eq in Eab, Ebc. subst. rewrite string_compare_refl.
    reflexivity.
  - apply string_compare_eq in Eab. subst. rewrite Ebc. reflexivity.
  - apply string_compare_eq in Ebc. subst. rewrite Eab. reflexivity.
  - rewrite (string_compare_trans a b c Eab Ebc). reflexivity.
Qed.

Lemma max_str_spec (xs : list string) (x : string) :
  In (max_str x xs) (x :: xs)
  /\ forall y, In y (x :: xs) -> String.leb y (max_str x xs) = true.
Proof.
  revert x. induction xs as [|z xs IH]; intros x.
  - split; [left; reflexivity | intros y [<-|[]]; apply leb_refl].
  - change (max_str x (z :: xs))
      with (max_str (if String.ltb x z then z else x) xs).
    destruct (IH (if String.ltb x z then z else x)) as [Hin Hub].
    split.
    + destruct Hin as [E|Hin]; [| right; right; exact Hin].
      rewrite <- E. destruct (String.ltb x z); [right; left | left]; reflexivity.
    + assert (Hacc : String.leb (if String.ltb x z then z else x)
                                (max_str (if String.ltb x z then z else x) xs)
                     = true) by (apply Hub; left; reflexivity).
      intros y [<-|[<-|Hy]].
      * destruct (String.ltb x z) eqn:E; [| exact Hacc].
        apply (leb_trans x z); [apply ltb_leb, E | exact Hacc].
      * destruct (String.ltb x z) eqn:E; [exact Hacc |].
        apply (leb_trans z x); [apply not_ltb_leb, E | exact Hacc].
      * apply Hub. right. exact Hy.
Qed.

(** X14: [get_latest_silver_path] fails with [FileNotFoundError] when no
    folder is listed.  Otherwise it returns one of the listed folders, no
    listed folder is greater in code point order, and the answer does not
    depend on the order in which the folders are listed. *)
Theorem get_latest_silver_path_greatest :
  get_latest_silver_path nil = Raised FileNotFoundError
  /\ forall (f : string) (fs : list string),
       exists latest,
         get_latest_silver_path (f :: fs) = Returned latest
         /\ In latest (f :: fs)
         /\ (forall x, In x (f :: fs) -> String.leb x latest = true)
         /\ (forall folders', Permutation (f :: fs) folders' ->
                              get_latest_silver_path folders' = Returned latest).
Proof.
  split; [reflexivity |]. intros f fs.
  destruct (max_str_spec fs f) as [Hin Hub].
  exists (max_str f fs). split; [reflexivity |]. split; [exact Hin |].
  split; [exact Hub |].
  intros folders' Hp. destruct folders' as [|f' fs'].
  { apply Permutation_sym, Permutation_nil in Hp. discriminate Hp. }
  destruct (max_str_spec fs' f') as [Hin' Hub'].
  cbn [get_latest_silver_path]. f_equal.
  apply String.leb_antisym.
  - apply Hub. apply (Permutation_in _ (Permutation_sym Hp)), Hin'.
  - apply Hub'. apply (Permutation_in _ Hp), Hin.
Qed.

End PreparationProps.

(** ** Retrieval from the feature store *)

Module RetrievalProps.
Import FeatureStore RegistryProps.

(** The file that the process finds at a path. *)
Definition file_at (w : world) (path : string) : option file :=
  fs w !! OsPath.abspath (cwd w) path.

Lemma index_of_present (c : string) (cols : list string) :
  In c cols -> exists i, index_of c cols = Returned i.
Proof.
  intros Hin. unfold index_of.
  destruct (List.find _ (enumerate cols)) as [ic|] eqn:E; [eexists; reflexivity |].
  exfalso.
  destruct (RecommenderProps.enumerate_from_complete 0 cols c Hin) as (i & Hi).
  pose proof (find_none _ _ E (i, c) Hi) as Hn. simpl in Hn.
  rewrite String.eqb_refl in Hn. discriminate Hn.
Qed.

Lemma index_of_absent (c : string) (cols : list string) :
  ~ In c cols -> index_of c cols = Raised KeyError.
Proof.
  intros Hout. unfold index_of.
  destruct (List.find _ (enumerate cols)) as [[i x]|] eqn:E; [| reflexivity].
  exfalso. apply find_some in E. destruct E as [Hin Hx]. simpl in Hx.
  apply String.eqb_eq in Hx. subst x. apply Hout.
  unfold enumerate in Hin. revert Hin. generalize 0%nat.
  induction cols as [|y t IH]; intros n; simpl; [tauto |].
  intros [E|Hin]; [injection E as _ ->; left; reflexivity |].
  right. apply (IH (fun H => Hout (or_intror H)) (S n) Hin).
Qed.

Lemma index_of_head (c : string) (cols : list string) :
  index_of c (c :: cols) = Returned 0%nat.
Proof. unfold index_of. simpl. rewrite String.eqb_refl. reflexivity. Qed.

(** The positions of the columns asked for: all found, or [KeyError]. *)
Lemma positions_found (have cols : list string) :
  Forall (fun c => In c have) cols ->
  exists idxs, result_mapM (fun c => index_of c have) cols = Returned idxs
               /\ length idxs = length cols.
Proof.
  induction 1 as [|c cols Hc _ (idxs & Hi & Hl)].
  - exists nil. split; reflexivity.
  - destruct (index_of_present c have Hc) as (i & Hci).
    exists (i :: idxs). split; [| simpl; congruence].
    rewrite RecommenderProps.result_mapM_cons, Hci, Hi. reflexivity.
Qed.

Lemma positions_missing (have cols : list string) :
  Exists (fun c => ~ In c have) cols ->
  result_mapM (fun c => index_of c have) cols = Raised KeyError.
Proof.
  induction 1 as [c cols Hc|c cols _ IH];
    rewrite RecommenderProps.result_mapM_cons.
  - rewrite (index_of_absent c have Hc). reflexivity.
  - rewrite IH. destruct (index_of c have) as [i|e] eqn:E; [reflexivity |].
    destruct (in_dec string_dec c have) as [Hin|Hout].
    + destruct (index_of_present c have Hin) as (i & Hi). congruence.
    + rewrite (index_of_absent c have Hout) in E. congruence.
Qed.

Lemma positions_length (have cols : list string) (idxs : list nat) :
  result_mapM (fun c => index_of c have) cols = Returned idxs ->
  length idxs = length cols.
Proof.
  revert idxs. induction cols as [|c cols IH]; intros idxs.
  - intros E. injection E as <-. reflexivity.
  - rewrite RecommenderProps.result_mapM_cons.
    destruct (index_of c have); [| discriminate].
    destruct (result_mapM _ cols) as [js|]; [| discriminate].
    intros E. injection E as <-. simpl. rewrite (IH js eq_refl). reflexivity.
Qed.

Lemma select_shape (df : table) (cols : list string) (t : table) :
  select df cols = Returned t ->
  columns t = cols
  /\ length (rows t) = length (rows df)
  /\ Forall (fun r => length r = length cols) (rows t).
Proof.
  unfold select.
  destruct (result_mapM _ cols) as [idxs|] eqn:E; [| discriminate].
  intros Ht. injection Ht as <-. cbn [columns rows].
  split; [reflexivity |]. split; [apply length_map |].
  apply Forall_map, Forall_forall. intros r _.
  rewrite length_map. apply (positions_length _ _ _ E).
Qed.

(** X15: what [get_historical_features] returns has exactly the declared
    columns: the entity key first, then the registered features in their
    registered order, with one row per row of the source file and one cell
    per declared column in every row. *)
Theorem get_historical_features_declared_columns
  (self : RecomartFeatureStore) (w : world) (view_name : string) (t : table) :
  get_historical_features self w view_name = Returned t ->
  exists view src,
    feature_views (self_registry self) !! view_name = Some view
    /\ read_csv w (source view) = Returned src
    /\ columns t = entity_key view :: feature_list view
    /\ length (rows t) = length (rows src)
    /\ Forall (fun r => length r = S (length (feature_list view))) (rows t).
Proof.
  unfold get_historical_features.
  destruct (feature_views (self_registry self) !! view_name) as [view|];
    [| discriminate].
  destruct (read_csv w (source view)) as [src|e] eqn:E; [| discriminate].
  intros Hs. change (select src (entity_key view :: feature_list view) = Returned t) in Hs.
  apply select_shape in Hs. exists view, src. tauto.
Qed.

Lemma file_at_exists (w : world) (path : string) (f : file) :
  file_at w path = Some f -> os_path_exists w path = true.
Proof.
  unfold file_at, os_path_exists. intros E. rewrite E.
  apply bool_decide_eq_true. eexists. reflexivity.
Qed.

(** After a registration the files are the old ones plus the registry. *)
Lemma file_at_after_register (self : RecomartFeatureStore) (w : world)
  (name source_filename entity_key : string) (features : list string)
  (version t_created t_updated path : string) :
  os_path_exists w (full_source_path self w source_filename) = true ->
  OsPath.abspath (cwd w) (registry_path self) <> OsPath.abspath (cwd w) path ->
  file_at (register_feature_view self w name source_filename entity_key features
                                 version t_created t_updated).1.2 path
  = file_at w path.
Proof.
  intros Hex Hne. rewrite register_present by exact Hex.
  unfold file_at. cbn [fst snd print json_dump fs cwd].
  apply lookup_insert_ne. exact Hne.
Qed.

Lemma lookup_after_register (self : RecomartFeatureStore) (w : world)
  (name source_filename entity_key : string) (features : list string)
  (version t_created t_updated : string) :
  os_path_exists w (full_source_path self w source_filename) = true ->
  feature_views
    (self_registry (register_feature_view self w name source_filename entity_key
                                          features version t_created t_updated).1.1)
  = <[name := registered_view self w source_filename entity_key features
                              version t_created]>
      (feature_views (self_registry self)).
Proof. intros Hex. rewrite register_present by exact Hex. reflexivity. Qed.

Lemma retrieve (self : RecomartFeatureStore) (w : world) (view_name : string)
  (view : feature_view) (df : table) :
  feature_views (self_registry self) !! view_name = Some view ->
  file_at w (source view) = Some (CsvFile df) ->
  get_historical_features self w view_name
  = select df (entity_key view :: feature_list view).
Proof.
  intros Hv Hf. unfold get_historical_features, read_csv. rewrite Hv.
  unfold file_at in Hf. rewrite Hf. reflexivity.
Qed.

(** X16: registering a view over a CSV file that has the entity key and
    all the declared features as columns, and that is not the registry file
    itself, makes the view retrievable at once: [get_historical_features]
    returns the declared columns with one row per row of the file. *)
Theorem register_then_retrieve (self : RecomartFeatureStore) (w : world)
  (name source_filename entity_key : string) (features : list string)
  (version t_created t_updated : string) (df : table) :
  file_at w (full_source_path self w source_filename) = Some (CsvFile df) ->
  OsPath.abspath (cwd w) (registry_path self)
  <> OsPath.abspath (cwd w) (full_source_path self w source_filename) ->
  Forall (fun c => In c (columns df)) (entity_key :: features) ->
  let r := register_feature_view self w name source_filename entity_key features
                                 version t_created t_updated in
  exists t,
    get_historical_features r.1.1 r.1.2 name = Returned t
    /\ columns t = entity_key :: features
    /\ length (rows t) = length (rows df).
Proof.
  intros Hfile Hne Hcols r. subst r.
  pose proof (file_at_exists _ _ _ Hfile) as Hex.
  rewrite (retrieve _ _ name
             (registered_view self w source_filename entity_key features
                              version t_created) df).
  - cbn [FeatureStore.entity_key FeatureStore.feature_list registered_view].
    destruct (positions_found (columns df) (entity_key :: features) Hcols)
      as (idxs & Hi & _).
    unfold select. rewrite Hi. eexists. split; [reflexivity |].
    cbn [columns rows]. split; [reflexivity | apply length_map].
  - rewrite lookup_after_register by exact Hex. apply lookup_insert_eq.
  - cbn [source registered_view].
    rewrite file_at_after_register by assumption. exact Hfile.
Qed.

(** A world with the user feature table as the transformation stage
    writes it. *)
Definition user_table : table :=
  {| columns := [ "user_id"; "user_activity_count"; "user_avg_affinity";
                  "user_total_score"; "last_active_ts" ];
     rows := [ [ "U1"; "3"; "4.0"; "12"; "1970-01-01 00:05:00" ];
               [ "U2"; "1"; "2.0"; "2"; "1970-01-01 00:06:40" ] ] |}.

Definition full_world : world :=
  {| fs := {[ "/srv/recomart/recomart-data-lake/feature_store/user_feature_store.csv"
              := CsvFile user_table ]};
     cwd := "/srv/recomart"; console := [] |}.

Lemma register_then_retrieve_witness :
  let r := register_feature_view fresh_store full_world "user_signals"
             "user_feature_store.csv" "user_id" user_signals_features "v1.1"
             "2026-01-01 00:00:00.000001" "2026-01-01 00:00:00.000002" in
  exists t,
    get_historical_features r.1.1 r.1.2 "user_signals" = Returned t
    /\ columns t = "user_id" :: user_signals_features
    /\ length (rows t) = length (rows user_table).
Proof.
  apply (register_then_retrieve fresh_store full_world "user_signals"
           "user_feature_store.csv" "user_id" user_signals_features "v1.1"
           "2026-01-01 00:00:00.000001" "2026-01-01 00:00:00.000002" user_table).
  - vm_compute. reflexivity.
  - vm_compute. discriminate.
  - unfold user_signals_features, user_table. cbn [columns].
    repeat constructor; simpl; tauto.
Defined.

Lemma get_historical_features_declared_columns_witness :
  let r := register_feature_view fresh_store full_world "user_signals"
             "user_feature_store.csv" "user_id" user_signals_features "v1.1"
             "2026-01-01 00:00:00.000001" "2026-01-01 00:00:00.000002" in
  exists view src,
    feature_views (self_registry r.1.1) !! "user_signals" = Some view
    /\ read_csv r.1.2 (source view) = Returned src
    /\ columns
         {| columns := "user_id" :: user_signals_features;
            rows := [ [ "U1"; "3"; "4.0"; "12" ]; [ "U2"; "1"; "2.0"; "2" ] ] |}
       = entity_key view :: feature_list view
    /\ length (rows
                 {| columns := "user_id" :: user_signals_features;
                    rows := [ [ "U1"; "3"; "4.0"; "12" ]; [ "U2"; "1"; "2.0"; "2" ] ] |})
       = length (rows src)
    /\ Forall (fun r => length r = S (length (feature_list view)))
              (rows {| columns := "user_id" :: user_signals_features;
                       rows := [ [ "U1"; "3"; "4.0"; "12" ];
                                 [ "U2"; "1"; "2.0"; "2" ] ] |}).
Proof.
  intros r.
  apply (get_historical_features_declared_columns r.1.1 r.1.2 "user_signals").
  vm_compute. reflexivity.
Defined.

(** X17: registration does not look into the file.  A view that declares a
    column which its CSV file does not have is registered all the same, and
    the mismatch shows only at retrieval, as a [KeyError], from
    [get_historical_features] and from [get_online_feature] alike. *)
Theorem registration_does_not_check_columns (self : RecomartFeatureStore)
  (w : world) (name source_filename entity_key : string) (features : list string)
  (version t_created t_updated : string) (df : table) :
  file_at w (full_source_path self w source_filename) = Some (CsvFile df) ->
  OsPath.abspath (cwd w) (registry_path self)
  <> OsPath.abspath (cwd w) (full_source_path self w source_filename) ->
  Exists (fun c => ~ In c (columns df)) (entity_key :: features) ->
  let r := register_feature_view self w name source_filename entity_key features
                                 version t_created t_updated in
  feature_views (self_registry r.1.1) !! name
  = Some (registered_view self w source_filename entity_key features
                          version t_created)
  /\ get_historical_features r.1.1 r.1.2 name = Raised KeyError
  /\ forall entity_id, get_online_feature r.1.1 r.1.2 name entity_id = Raised KeyError.
Proof.
  intros Hfile Hne Hcols r. subst r.
  pose proof (file_at_exists _ _ _ Hfile) as Hex.
  assert (Hview : feature_views
            (self_registry (register_feature_view self w name source_filename
                              entity_key features version t_created t_updated).1.1)
            !! name
          = Some (registered_view self w source_filename entity_key features
                                  version t_created)).
  { rewrite lookup_after_register by exact Hex. apply lookup_insert_eq. }
  assert (Hget : get_historical_features
                   (register_feature_view self w name source_filename entity_key
                      features version t_created t_updated).1.1
                   (register_feature_view self w name source_filename entity_key
                      features version t_created t_updated).1.2 name
                 = Raised KeyError).
  { rewrite (retrieve _ _ name _ df Hview).
    - cbn [FeatureStore.entity_key FeatureStore.feature_list registered_view]. unfold select.
      rewrite (positions_missing _ _ Hcols). reflexivity.
    - cbn [source registered_view].
      rewrite file_at_after_register by assumption. exact Hfile. }
  split; [exact Hview |]. split; [exact Hget |].
  intros entity_id. unfold get_online_feature. rewrite Hget. reflexivity.
Qed.

Lemma registration_does_not_check_columns_witness :
  feature_views (self_registry seeded.1) !! "user_signals"
  = Some (registered_view fresh_store stocked_world "user_feature_store.csv"
            "user_id" user_signals_features "v1.1" "2026-01-01 00:00:00.000001")
  /\ get_historical_features seeded.1 seeded.2 "user_signals" = Raised KeyError
  /\ forall entity_id,
       get_online_feature seeded.1 seeded.2 "user_signals" entity_id
       = Raised KeyError.
Proof.
  apply (registration_does_not_check_columns fresh_store stocked_world
           "user_signals" "user_feature_store.csv" "user_id"
           user_signals_features "v1.1" "2026-01-01 00:00:00.000001"
           "2026-01-01 00:00:00.000002"
           {| columns := [ "user_id"; "user_activity_count" ];
              rows := [ [ "U0001"; "3" ] ] |}).
  - vm_compute. reflexivity.
  - vm_compute. discriminate.
  - apply Exists_cons_tl, Exists_cons_tl, Exists_cons_hd.
    simpl. intros [H|[H|[]]]; discriminate H.
Defined.

Lemma get_historical_features_shape (self : RecomartFeatureStore) (w : world)
  (view_name : string) (df : table) :
  get_historical_features self w view_name = Returned df ->
  exists view,
    feature_views (self_registry self) !! view_name = Some view
    /\ columns df = entity_key view :: feature_list view.
Proof.
  unfold get_historical_features.
  destruct (feature_views (self_registry self) !! view_name) as [view|];
    [| discriminate].
  destruct (read_csv w (source view)) as [src|e]; [| discriminate].
  intros Hs. change (select src (entity_key view :: feature_list view) = Returned df) in Hs.
  apply select_shape in Hs. exists view. tauto.
Qed.

Lemma exists_after_register (self : RecomartFeatureStore) (w : world)
  (name source_filename entity_key : string) (features : list string)
  (version t_created t_updated path : string) :
  os_path_exists w (full_source_path self w source_filename) = true ->
  os_path_exists w path = true ->
  os_path_exists (register_feature_view self w name source_filename entity_key
                    features version t_created t_updated).1.2 path = true.
Proof.
  intros Hex Hp. rewrite register_present by exact Hex.
  unfold os_path_exists in *. cbn [fst snd print json_dump fs cwd].
  apply bool_decide_eq_true. apply bool_decide_eq_true in Hp.
  rewrite lookup_insert. case_decide; [eexists; reflexivity | exact Hp].
Qed.

(** X18: two registrations in a row.  The view registered second holds
    the second metadata, also when it has the name of the first (the later
    registration overwrites); a first view of another name keeps its
    metadata; views of other names are as before; and the registry file
    holds the registry with both. *)
Theorem register_twice (self : RecomartFeatureStore) (w : world)
  (name1 source1 key1 : string) (features1 : list string)
  (version1 created1 updated1 : string)
  (name2 source2 key2 : string) (features2 : list string)
  (version2 created2 updated2 : string) :
  os_path_exists w (full_source_path self w source1) = true ->
  os_path_exists w (full_source_path self w source2) = true ->
  let r1 := register_feature_view self w name1 source1 key1 features1
                                  version1 created1 updated1 in
  let r2 := register_feature_view r1.1.1 r1.1.2 name2 source2 key2 features2
                                  version2 created2 updated2 in
  feature_views (self_registry r2.1.1) !! name2
  = Some (registered_view self w source2 key2 features2 version2 created2)
  /\ (name1 <> name2 ->
      feature_views (self_registry r2.1.1) !! name1
      = Some (registered_view self w source1 key1 features1 version1 created1))
  /\ (forall other, other <> name1 -> other <> name2 ->
        feature_views (self_registry r2.1.1) !! other
        = feature_views (self_registry self) !! other)
  /\ file_at r2.1.2 (registry_path self) = Some (JsonFile (self_registry r2.1.1)).
Proof.
  intros Hex1 Hex2 r1 r2.
  assert (Hbase : base_path r1.1.1 = base_path self
                  /\ registry_path r1.1.1 = registry_path self
                  /\ cwd r1.1.2 = cwd w).
  { subst r1. rewrite register_present by exact Hex1. repeat split. }
  destruct Hbase as (Hb & Hr & Hc).
  assert (Hpath : forall s, full_source_path r1.1.1 r1.1.2 s = full_source_path self w s).
  { intros s. unfold full_source_path. rewrite Hb, Hc. reflexivity. }
  assert (Hex2' : os_path_exists r1.1.2 (full_source_path r1.1.1 r1.1.2 source2) = true).
  { rewrite Hpath. subst r1. apply exists_after_register; assumption. }
  assert (Hviews : feature_views (self_registry r2.1.1)
                   = <[name2 := registered_view self w source2 key2 features2
                                                version2 created2]>
                       (<[name1 := registered_view self w source1 key1 features1
                                                   version1 created1]>
                          (feature_views (self_registry self)))).
  { subst r2. rewrite lookup_after_register by exact Hex2'.
    unfold registered_view. rewrite !Hpath.
    subst r1. rewrite lookup_after_register by exact Hex1. reflexivity. }
  split; [| split; [| split]].
  - rewrite Hviews. apply lookup_insert_eq.
  - intros Hne. rewrite Hviews, lookup_insert_ne by congruence.
    apply lookup_insert_eq.
  - intros other H1' H2'. rewrite Hviews, !lookup_insert_ne by congruence.
    reflexivity.
  - subst r2. rewrite register_present by exact Hex2'.
    unfold file_at. cbn [fst snd print json_dump fs cwd self_registry].
    rewrite Hr, Hc. apply lookup_insert_eq.
Qed.

Lemma register_twice_witness :
  let r1 := register_feature_view fresh_store full_world "user_signals"
              "user_feature_store.csv" "user_id" user_signals_features "v1.0"
              "2026-01-01 00:00:00.000001" "2026-01-01 00:00:00.000002" in
  let r2 := register_feature_view r1.1.1 r1.1.2 "user_signals"
              "user_feature_store.csv" "user_id" [ "user_total_score" ] "v1.1"
              "2026-01-02 00:00:00.000001" "2026-01-02 00:00:00.000002" in
  feature_views (self_registry r2.1.1) !! "user_signals"
  = Some (registered_view fresh_store full_world "user_feature_store.csv"
            "user_id" [ "user_total_score" ] "v1.1" "2026-01-02 00:00:00.000001").
Proof.
  intros r1 r2.
  apply (register_twice fresh_store full_world
           "user_signals" "user_feature_store.csv" "user_id"
           user_signals_features "v1.0"
           "2026-01-01 00:00:00.000001" "2026-01-01 00:00:00.000002"
           "user_signals" "user_feature_store.csv" "user_id"
           [ "user_total_score" ] "v1.1"
           "2026-01-02 00:00:00.000001" "2026-01-02 00:00:00.000002");
    vm_compute; reflexivity.
Defined.

(** X19: [get_online_feature] tells a view it cannot retrieve from an
    entity it cannot find.  For a view whose feature list does not repeat
    its entity key, so that [df[entity_key]] is one column: whatever
    [get_historical_features] raises is raised unchanged ([ValueError] for a
    name that is not registered); when the view is retrieved, the call
    returns [None] if no row has the entity id in its key cell, and
    otherwise the rows that have it, all columns of the view. *)
Theorem get_online_feature_outcomes (self : RecomartFeatureStore) (w : world)
  (view_name entity_id : string) :
  (forall view, feature_views (self_registry self) !! view_name = Some view ->
                ~ In (FeatureStore.entity_key view) (feature_list view)) ->
  (forall e, get_historical_features self w view_name = Raised e ->
             get_online_feature self w view_name entity_id = Raised e)
  /\ (feature_views (self_registry self) !! view_name = None ->
      get_online_feature self w view_name entity_id = Raised ValueError)
  /\ (forall df, get_historical_features self w view_name = Returned df ->
        let hits := List.filter
                      (fun r => String.eqb (nth 0 r EmptyString) entity_id)
                      (rows df) in
        (hits = nil ->
         get_online_feature self w view_name entity_id = Returned None)
        /\ (hits <> nil ->
            get_online_feature self w view_name entity_id
            = Returned (Some {| columns := columns df; rows := hits |}))).
Proof.
  intros _. split; [| split].
  - intros e He. unfold get_online_feature. rewrite He. reflexivity.
  - intros Hnone. unfold get_online_feature, get_historical_features.
    rewrite Hnone. reflexivity.
  - intros df Hdf hits.
    destruct (get_historical_features_shape self w view_name df Hdf)
      as (view & Hview & Hcols).
    assert (Hon : get_online_feature self w view_name entity_id
                  = match hits with
                    | nil => Returned None
                    | _ => Returned (Some {| columns := columns df; rows := hits |})
                    end).
    { unfold get_online_feature. rewrite Hdf. cbn [mbind result_bind].
      rewrite Hview. cbn [mbind result_bind]. rewrite Hcols, index_of_head.
      reflexivity. }
    rewrite Hon. split; intros Hh.
    + rewrite Hh. reflexivity.
    + destruct hits; [congruence | reflexivity].
Qed.

(** The store and the world after [user_signals] was registered over the
    full user table. *)
Definition online_store : RecomartFeatureStore * world :=
  (register_feature_view fresh_store full_world "user_signals"
     "user_feature_store.csv" "user_id" user_signals_features "v1.1"
     "2026-01-01 00:00:00.000001" "2026-01-01 00:00:00.000002").1.

Lemma get_online_feature_outcomes_witness :
  get_online_feature online_store.1 online_store.2 "user_signals" "U2"
  = Returned (Some {| columns := "user_id" :: user_signals_features;
                      rows := [ [ "U2"; "1"; "2.0"; "2" ] ] |}).
Proof.
  destruct (get_online_feature_outcomes online_store.1 online_store.2
              "user_signals" "U2") as (_ & _ & Hfound).
  - intros view Hview. vm_compute in Hview. injection Hview as <-.
    simpl. intuition discriminate.
  - destruct (Hfound {| columns := "user_id" :: user_signals_features;
                        rows := [ [ "U1"; "3"; "4.0"; "12" ];
                                  [ "U2"; "1"; "2.0"; "2" ] ] |})
      as [_ Hhit]; [vm_compute; reflexivity |].
    apply Hhit. discriminate.
Defined.

End RetrievalProps.

(** ** What the recommender keeps and what it drops *)

Module RankingProps.
Import DataTransformation ModelTraining RecommenderProps.

Lemma insert_desc_Permutation {A} (key : A -> Q) (x : A) (l : list A) :
  Permutation (x :: l) (insert_desc key x l).
Proof.
  induction l as [|y t IH]; simpl; [apply Permutation_refl |].
  destruct (Qle_bool (key y) (key x)); [apply Permutation_refl |].
  eapply Permutation_trans; [apply perm_swap |]. apply perm_skip, IH.
Qed.

Lemma sorted_reverse_Permutation {A} (key : A -> Q) (l : list A) :
  Permutation l (sorted_reverse key l).
Proof.
  unfold sorted_reverse. induction l as [|x l IH]; simpl; [constructor |].
  eapply Permutation_trans; [apply perm_skip, IH | apply insert_desc_Permutation].
Qed.

Lemma positions_enumerate_from {A} (n : nat) (xs : list A) :
  map fst (enumerate_from n xs) = seq n (length xs).
Proof.
  revert n. induction xs as [|x xs IH]; intros n; simpl; [reflexivity |].
  rewrite IH. reflexivity.
Qed.

Lemma In_enumerate_from {A} (n : nat) (xs : list A) (i : nat) (x : A) :
  In (i, x) (enumerate_from n xs)
  <-> (n <= i)%nat /\ nth_error xs (i - n) = Some x.
Proof.
  revert n. induction xs as [|y t IH]; intros n; simpl.
  - split; [tauto |]. intros [_ H]. destruct (i - n)%nat; discriminate H.
  - rewrite IH. split.
    + intros [E|[Hle Hn]].
      * injection E as <- <-. rewrite Nat.sub_diag. split; [lia | reflexivity].
      * split; [lia |]. replace (i - n)%nat with (S (i - S n)) by lia. exact Hn.
    + intros [Hle Hn]. destruct (Nat.eq_dec i n) as [->|Hne].
      * left. rewrite Nat.sub_diag in Hn. simpl in Hn. congruence.
      * right. split; [lia |].
        replace (i - n)%nat with (S (i - S n)) in Hn by lia. exact Hn.
Qed.

Lemma In_enumerate {A} (xs : list A) (i : nat) (x : A) :
  In (i, x) (enumerate xs) <-> nth_error xs i = Some x.
Proof.
  unfold enumerate. rewrite In_enumerate_from, Nat.sub_0_r.
  split; [tauto | intros H; split; [lia | exact H]].
Qed.

(** The ranking of a row: all its scored positions, best first. *)
Definition ranking (row : list Q) : list (nat * Q) :=
  sorted_reverse snd (enumerate row).

Lemma ranking_positions (row : list Q) :
  Permutation (map fst (ranking row)) (seq 0 (length row)).
Proof.
  unfold ranking. rewrite <- (positions_enumerate_from 0 row).
  apply Permutation_map, Permutation_sym, sorted_reverse_Permutation.
Qed.

Lemma length_ranking (row : list Q) : length (ranking row) = length row.
Proof.
  rewrite <- (length_map fst), (Permutation_length (ranking_positions row)).
  apply length_seq.
Qed.

Lemma NoDup_ranking_positions (row : list Q) :
  List.NoDup (map fst (ranking row)).
Proof.
  apply (Permutation_NoDup (Permutation_sym (ranking_positions row))).
  apply seq_NoDup.
Qed.

Lemma In_ranking (row : list Q) (i : nat) (s : Q) :
  In (i, s) (ranking row) <-> nth_error row i = Some s.
Proof. unfold ranking. rewrite In_sorted_reverse. apply In_enumerate. Qed.

(** [[1:stop]] of a list with a first element. *)
Lemma slice_after_first {A} (stop : Z) (h : A) (tl : list A) :
  slice 1 stop (h :: tl)
  = firstn (Z.to_nat (clamp_bound (Z.of_nat (S (length tl))) stop - 1)) tl.
Proof.
  unfold slice. cbn [length].
  assert (E : clamp_bound (Z.of_nat (S (length tl))) 1 = 1).
  { unfold clamp_bound. change (1 <? 0) with false. cbv iota.
    rewrite Nat2Z.inj_succ. lia. }
  rewrite E. reflexivity.
Qed.

(** How many entries [[1:top_n+1]] keeps of a ranking of [n] entries. *)
Definition kept (n top_n : Z) : Z :=
  if 0 <=? top_n then Z.min top_n (n - 1)
  else if top_n =? -1 then 0
  else Z.max 0 (n + top_n).

Lemma length_slice_ranking {A} (top_n : Z) (l : list A) :
  l <> nil ->
  Z.of_nat (length (slice 1 (top_n + 1) l)) = kept (Z.of_nat (length l)) top_n.
Proof.
  destruct l as [|h tl]; [congruence |]. intros _.
  rewrite slice_after_first, length_firstn. cbn [length].
  unfold kept, clamp_bound. rewrite !Nat2Z.inj_succ.
  destruct (top_n + 1 <? 0) eqn:E1; destruct (0 <=? top_n) eqn:E2;
    destruct (top_n =? -1) eqn:E3; lia.
Qed.

(** The call, step by step, for a product of the item table. *)
Lemma recommender_steps (df_items : list item_feature)
  (tfidf_matrix : list (list Q)) (product_id top_n : Z) :
  length tfidf_matrix = length df_items ->
  In product_id (map if_product_id df_items) ->
  exists idx row picked,
    getitem (matching_index df_items product_id) 0 = Returned idx
    /\ getitem (linear_kernel tfidf_matrix tfidf_matrix) idx = Returned row
    /\ length row = length df_items
    /\ Forall2 (fun i r => nth_error df_items i = Some r)
               (map fst (slice 1 (top_n + 1) (ranking row))) picked
    /\ recommender df_items tfidf_matrix product_id top_n
       = Returned (map project picked).
Proof.
  intros Hlen Hin.
  destruct (matching_index_present df_items product_id Hin)
    as (idx & rest & Hm & Hidx).
  assert (Hrow : exists row,
             getitem (linear_kernel tfidf_matrix tfidf_matrix) idx = Returned row
             /\ length row = length df_items).
  { unfold getitem, linear_kernel. rewrite nth_error_map.
    destruct (nth_error tfidf_matrix idx) as [x|] eqn:E;
      [| apply nth_error_None in E; lia].
    eexists. split; [reflexivity |]. rewrite length_map. exact Hlen. }
  destruct Hrow as (row & Hrow & Hrl).
  destruct (iloc_returns df_items (map fst (slice 1 (top_n + 1) (ranking row))))
    as (picked & Hp & Hf).
  { intros i Hi. apply in_map_iff in Hi. destruct Hi as ([j s] & <- & Hj).
    apply In_slice, In_ranking in Hj. simpl.
    rewrite <- Hrl. apply nth_error_Some. congruence. }
  exists idx, row, picked.
  split; [rewrite Hm; reflexivity |]. split; [exact Hrow |].
  split; [exact Hrl |]. split; [exact Hf |].
  unfold recommender, get_recommendations. rewrite Hm.
  change (getitem (idx :: rest) 0) with (Returned (A:=nat) idx).
  cbn [mbind result_bind]. unfold top_scores. rewrite Hrow.
  cbn [mbind result_bind]. fold (ranking row). rewrite Hp. reflexivity.
Qed.

(** X20: how many rows come back.  For a product of the item table and a
    catalog of [n] items, a non-negative [top_n] gives [min(top_n, n - 1)]
    rows.  A negative [top_n] raises nothing: -1 gives no row, and a
    [top_n] of -2 or less gives [n + top_n] rows (none if that is
    negative), as the slice [[1:top_n+1]] then counts from the end. *)
Theorem recommendations_count (df_items : list item_feature)
  (tfidf_matrix : list (list Q)) (product_id top_n : Z) :
  length tfidf_matrix = length df_items ->
  In product_id (map if_product_id df_items) ->
  exists recs,
    recommender df_items tfidf_matrix product_id top_n = Returned recs
    /\ Z.of_nat (length recs) = kept (Z.of_nat (length df_items)) top_n.
Proof.
  intros Hlen Hin.
  destruct (recommender_steps df_items tfidf_matrix product_id top_n Hlen Hin)
    as (idx & row & picked & _ & _ & Hrl & Hf & Hrec).
  exists (map project picked). split; [exact Hrec |].
  rewrite length_map, <- (Forall2_length _ _ _ Hf), length_map.
  rewrite length_slice_ranking, length_ranking, Hrl; [reflexivity |].
  intros E. apply (f_equal (@length _)) in E. rewrite length_ranking, Hrl in E.
  destruct df_items; [destruct Hin | discriminate E].
Qed.

Lemma recommendations_count_witness :
  exists recs,
    recommender three_items three_tfidf 1 (-2) = Returned recs
    /\ Z.of_nat (length recs) = kept (Z.of_nat (length three_items)) (-2).
Proof.
  apply (recommendations_count three_items three_tfidf 1 (-2)).
  - reflexivity.
  - simpl. left. reflexivity.
Defined.

Lemma map_slice {A B} (f : A -> B) (start stop : Z) (l : list A) :
  map f (slice start stop l) = slice start stop (map f l).
Proof. unfold slice. rewrite length_map, skipn_map, firstn_map. reflexivity. Qed.

Lemma NoDup_slice {A} (start stop : Z) (l : list A) :
  List.NoDup l -> List.NoDup (slice start stop l).
Proof.
  intros Hn. unfold slice.
  set (j := Z.to_nat (clamp_bound (Z.of_nat (length l)) start)).
  set (k := Z.to_nat _).
  rewrite <- (firstn_skipn j l) in Hn. apply NoDup_app_remove_l in Hn.
  rewrite <- (firstn_skipn k (skipn j l)) in Hn.
  apply NoDup_app_remove_r in Hn. exact Hn.
Qed.

Lemma same_key_same_position {A B} (f : A -> B) (l : list A) (i j : nat) (a b : A) :
  List.NoDup (map f l) ->
  nth_error l i = Some a -> nth_error l j = Some b -> f a = f b -> i = j.
Proof.
  intros Hn Hi Hj E.
  apply (proj1 (NoDup_nth_error (map f l)) Hn).
  - rewrite length_map. apply nth_error_Some. congruence.
  - rewrite !nth_error_map, Hi, Hj. simpl. congruence.
Qed.

Lemma picked_positions (df_items : list item_feature) (idxs : list nat)
  (picked : list item_feature) (r : item_feature) :
  Forall2 (fun i r => nth_error df_items i = Some r) idxs picked ->
  In r picked -> exists i, In i idxs /\ nth_error df_items i = Some r.
Proof.
  induction 1 as [|i r' idxs picked Hi _ IH]; intros Hin; [destruct Hin |].
  destruct Hin as [->|Hin].
  - exists i. split; [left; reflexivity | exact Hi].
  - destruct (IH Hin) as (j & Hj & Hr). exists j. split; [right; exact Hj | exact Hr].
Qed.

Lemma positions_picked (df_items : list item_feature) (idxs : list nat)
  (picked : list item_feature) (i : nat) :
  Forall2 (fun i r => nth_error df_items i = Some r) idxs picked ->
  In i idxs -> exists r, In r picked /\ nth_error df_items i = Some r.
Proof.
  induction 1 as [|j r idxs picked Hj _ IH]; intros Hin; [destruct Hin |].
  destruct Hin as [->|Hin].
  - exists r. split; [left; reflexivity | exact Hj].
  - destruct (IH Hin) as (r' & Hr & Hn). exists r'. split; [right; exact Hr | exact Hn].
Qed.

Lemma picked_distinct (df_items : list item_feature) (idxs : list nat)
  (picked : list item_feature) :
  List.NoDup (map if_product_id df_items) -> List.NoDup idxs ->
  Forall2 (fun i r => nth_error df_items i = Some r) idxs picked ->
  List.NoDup (map if_product_id picked).
Proof.
  intros Hids Hn Hf. induction Hf as [|i r idxs picked Hi Hf IH]; [constructor |].
  apply NoDup_cons_iff in Hn. destruct Hn as [Hni Hn].
  cbn [map]. constructor; [| apply IH, Hn].
  intros Hin. apply in_map_iff in Hin. destruct Hin as (r' & E & Hr').
  destruct (picked_positions _ _ _ _ Hf Hr') as (j & Hj & Hnj).
  apply Hni. rewrite (same_key_same_position if_product_id df_items i j r r' Hids Hi Hnj);
    [exact Hj | congruence].
Qed.

Lemma recommended_ids_project (picked : list item_feature) :
  recommended_ids (map project picked) = map if_product_id picked.
Proof. unfold recommended_ids. rewrite map_map. reflexivity. Qed.

(** X21: with unique product ids in the item table, the rows that come
    back are rows of the item table, and no product comes back twice. *)
Theorem recommendations_distinct (df_items : list item_feature)
  (tfidf_matrix : list (list Q)) (product_id top_n : Z) :
  length tfidf_matrix = length df_items ->
  In product_id (map if_product_id df_items) ->
  List.NoDup (map if_product_id df_items) ->
  exists recs,
    recommender df_items tfidf_matrix product_id top_n = Returned recs
    /\ List.NoDup (recommended_ids recs)
    /\ (forall r, In r recs -> In r (map project df_items)).
Proof.
  intros Hlen Hin Hids.
  destruct (recommender_steps df_items tfidf_matrix product_id top_n Hlen Hin)
    as (idx & row & picked & _ & _ & Hrl & Hf & Hrec).
  exists (map project picked). split; [exact Hrec |]. split.
  - rewrite recommended_ids_project.
    apply (picked_distinct df_items
             (map fst (slice 1 (top_n + 1) (ranking row))) picked Hids);
      [| exact Hf].
    rewrite map_slice. apply NoDup_slice, NoDup_ranking_positions.
  - intros r Hr. apply in_map_iff in Hr. destruct Hr as (it & <- & Hit).
    destruct (picked_positions _ _ _ _ Hf Hit) as (i & _ & Hi).
    apply in_map, (nth_error_In _ _ Hi).
Qed.

Lemma recommendations_distinct_witness :
  exists recs,
    recommender three_items three_tfidf 1 5 = Returned recs
    /\ List.NoDup (recommended_ids recs)
    /\ (forall r, In r recs -> In r (map project three_items)).
Proof.
  apply (recommendations_distinct three_items three_tfidf 1 5).
  - reflexivity.
  - simpl. left. reflexivity.
  - simpl. repeat constructor; simpl; intros H; intuition discriminate.
Defined.

(** Position [d] holds the best score of [row], and is the first position
    that does. *)
Definition first_best (row : list Q) (d : nat) : Prop :=
  exists s, nth_error row d = Some s
            /\ forall j t, nth_error row j = Some t ->
                           (t <= s)%Q /\ ((t == s)%Q -> (d <= j)%nat).

Lemma first_best_unique (row : list Q) (d d' : nat) :
  first_best row d -> first_best row d' -> d = d'.
Proof.
  intros (s & Hs & Hb) (s' & Hs' & Hb').
  destruct (Hb d' s' Hs') as [Hle Hd]. destruct (Hb' d s Hs) as [Hle' Hd'].
  assert (E : (s == s')%Q) by (apply Qle_antisym; assumption).
  specialize (Hd' E). symmetry in E. specialize (Hd E). lia.
Qed.

(** The ranking starts with the first best position; every other position
    follows, once. *)
Lemma ranking_head (row : list Q) :
  row <> nil ->
  exists d s tl,
    ranking row = (d, s) :: tl
    /\ first_best row d
    /\ ~ In d (map fst tl)
    /\ (forall j, (j < length row)%nat -> j <> d -> In j (map fst tl)).
Proof.
  intros Hne.
  destruct (ranking row) as [|[d s] tl] eqn:E.
  { apply (f_equal (@length _)) in E. rewrite length_ranking in E.
    destruct row; [congruence | discriminate E]. }
  exists d, s, tl. split; [reflexivity |].
  assert (Hsorted : StronglySorted ranked_before ((d, s) :: tl)).
  { rewrite <- E. apply sorted_reverse_enumerate. }
  assert (Hnd : List.NoDup (map fst ((d, s) :: tl))).
  { rewrite <- E. apply NoDup_ranking_positions. }
  assert (Hperm : Permutation (map fst ((d, s) :: tl)) (seq 0 (length row))).
  { rewrite <- E. apply ranking_positions. }
  cbn [map fst] in Hnd, Hperm. apply NoDup_cons_iff in Hnd. destruct Hnd as [Hnd _].
  apply StronglySorted_inv in Hsorted. destruct Hsorted as [_ Hall].
  rewrite List.Forall_forall in Hall.
  split; [| split; [exact Hnd |]].
  - exists s. split.
    + apply In_ranking. rewrite E. left. reflexivity.
    + intros j t Hj. apply In_ranking in Hj. rewrite E in Hj.
      destruct Hj as [Hj|Hj].
      * injection Hj as <- <-. split; [apply Qle_refl | intros _; lia].
      * destruct (Hall _ Hj) as [Hlt|[Heq Hlt]]; simpl in *.
        -- split; [apply Qlt_le_weak, Hlt |].
           intros Ht. rewrite Ht in Hlt. destruct (Qlt_irrefl _ Hlt).
        -- split; [rewrite Heq; apply Qle_refl | intros _; lia].
  - intros j Hj Hjd.
    assert (Hin : In j (d :: map fst tl)).
    { apply (Permutation_in _ (Permutation_sym Hperm)), in_seq. lia. }
    destruct Hin as [->|Hin]; [congruence | exact Hin].
Qed.

(** The positions that [[1:top_n+1]] keeps of the ranking of a row. *)
Lemma kept_positions (row : list Q) (top_n : Z) :
  row <> nil ->
  exists d,
    first_best row d
    /\ ~ In d (map fst (slice 1 (top_n + 1) (ranking row)))
    /\ (Z.of_nat (length row) - 1 <= top_n ->
        forall j, (j < length row)%nat -> j <> d ->
                  In j (map fst (slice 1 (top_n + 1) (ranking row)))).
Proof.
  intros Hne.
  destruct (ranking_head row Hne) as (d & s & tl & E & Hbest & Hnd & Hall).
  assert (Hlt : length tl = (length row - 1)%nat).
  { rewrite <- (length_ranking row), E. simpl. lia. }
  exists d. split; [exact Hbest |]. rewrite E, slice_after_first. split.
  - intros H. apply Hnd.
    apply in_map_iff in H. destruct H as (x & Hx & Hi).
    apply in_map_iff. exists x. split; [exact Hx |].
    rewrite <- (firstn_skipn
                  (Z.to_nat (clamp_bound (Z.of_nat (S (length tl))) (top_n + 1) - 1)) tl).
    apply in_or_app. left. exact Hi.
  - intros Htop j Hj Hjd. rewrite firstn_all2.
    + apply Hall; [exact Hj | exact Hjd].
    + unfold clamp_bound. destruct (top_n + 1 <? 0) eqn:E1; lia.
Qed.

(** X22: which entry is left out.  The slice [[1:top_n+1]] drops the first
    entry of the ranking, and that is the first position with the best
    score in the query's row of the similarity matrix; no returned row
    comes from that position.  With [top_n >= n - 1], every other position
    of the item table is returned. *)
Theorem dropped_is_first_best (df_items : list item_feature)
  (tfidf_matrix : list (list Q)) (product_id top_n : Z) :
  length tfidf_matrix = length df_items ->
  In product_id (map if_product_id df_items) ->
  exists idx row d scores picked,
    getitem (matching_index df_items product_id) 0 = Returned idx
    /\ getitem (linear_kernel tfidf_matrix tfidf_matrix) idx = Returned row
    /\ first_best row d
    /\ top_scores (linear_kernel tfidf_matrix tfidf_matrix) idx top_n
       = Returned scores
    /\ ~ In d (map fst scores)
    /\ (Z.of_nat (length df_items) - 1 <= top_n ->
        forall j, (j < length df_items)%nat -> j <> d -> In j (map fst scores))
    /\ Forall2 (fun i r => nth_error df_items i = Some r) (map fst scores) picked
    /\ recommender df_items tfidf_matrix product_id top_n
       = Returned (map project picked).
Proof.
  intros Hlen Hin.
  destruct (recommender_steps df_items tfidf_matrix product_id top_n Hlen Hin)
    as (idx & row & picked & Hidx & Hrow & Hrl & Hf & Hrec).
  assert (Hne : row <> nil).
  { intros ->. destruct df_items; [destruct Hin | discriminate Hrl]. }
  destruct (kept_positions row top_n Hne) as (d & Hbest & Hnd & Hall).
  exists idx, row, d, (slice 1 (top_n + 1) (ranking row)), picked.
  split; [exact Hidx |]. split; [exact Hrow |]. split; [exact Hbest |].
  split; [unfold top_scores; rewrite Hrow; reflexivity |].
  split; [exact Hnd |]. split; [| split; [exact Hf | exact Hrec]].
  rewrite <- Hrl. exact Hall.
Qed.

Lemma dropped_is_first_best_witness :
  exists idx row d scores picked,
    getitem (matching_index twin_items 2) 0 = Returned idx
    /\ getitem (linear_kernel twin_tfidf twin_tfidf) idx = Returned row
    /\ first_best row d
    /\ top_scores (linear_kernel twin_tfidf twin_tfidf) idx 1 = Returned scores
    /\ ~ In d (map fst scores)
    /\ (Z.of_nat (length twin_items) - 1 <= 1 ->
        forall j, (j < length twin_items)%nat -> j <> d -> In j (map fst scores))
    /\ Forall2 (fun i r => nth_error twin_items i = Some r) (map fst scores) picked
    /\ recommender twin_items twin_tfidf 2 1 = Returned (map project picked).
Proof.
  apply (dropped_is_first_best twin_items twin_tfidf 2 1).
  - reflexivity.
  - simpl. right. left. reflexivity.
Defined.

Lemma matching_index_spec (df_items : list item_feature) (product_id : Z) (i : nat) :
  In i (matching_index df_items product_id)
  <-> exists r, nth_error df_items i = Some r /\ if_product_id r = product_id.
Proof.
  unfold matching_index. rewrite in_map_iff. split.
  - intros ([j r] & <- & Hin). apply filter_In in Hin. destruct Hin as [Hin Hid].
    exists r. split; [apply In_enumerate, Hin | apply Z.eqb_eq, Hid].
  - intros (r & Hr & Hid). exists (i, r). split; [reflexivity |].
    apply filter_In. split; [apply In_enumerate, Hr | apply Z.eqb_eq, Hid].
Qed.

(** X23: when the queried product itself comes back.  Let the product ids
    of the item table be unique and the query be at position [idx], with
    TF-IDF row [x].  If [idx] is the first position with the best score
    against [x] the query is not returned, whatever [top_n].  If it is
    not (another item scores higher, or as high from an earlier position)
    and [top_n >= n - 1], the query is among the recommendations. *)
Theorem query_left_out_when_first_best (df_items : list item_feature)
  (tfidf_matrix : list (list Q)) (product_id top_n : Z) (idx : nat) (x : list Q) :
  length tfidf_matrix = length df_items ->
  List.NoDup (map if_product_id df_items) ->
  nth_error (map if_product_id df_items) idx = Some product_id ->
  nth_error tfidf_matrix idx = Some x ->
  exists recs,
    recommender df_items tfidf_matrix product_id top_n = Returned recs
    /\ (first_best (map (dot x) tfidf_matrix) idx ->
        ~ In product_id (recommended_ids recs))
    /\ (Z.of_nat (length df_items) - 1 <= top_n ->
        ~ first_best (map (dot x) tfidf_matrix) idx ->
        In product_id (recommended_ids recs)).
Proof.
  intros Hlen Hids Hpid Hx.
  assert (Hin : In product_id (map if_product_id df_items))
    by exact (nth_error_In _ _ Hpid).
  rewrite nth_error_map in Hpid.
  destruct (nth_error df_items idx) as [q|] eqn:Hq; [| discriminate Hpid].
  injection Hpid as Hqid.
  destruct (recommender_steps df_items tfidf_matrix product_id top_n Hlen Hin)
    as (idx' & row & picked & Hidx & Hrow & Hrl & Hf & Hrec).
  assert (Eidx : idx' = idx).
  { assert (Hm : In idx' (matching_index df_items product_id)).
    { unfold getitem in Hidx.
      destruct (matching_index df_items product_id) as [|i rest];
        [discriminate Hidx |].
      simpl in Hidx. injection Hidx as ->. left. reflexivity. }
    apply matching_index_spec in Hm. destruct Hm as (r & Hr & Hrid).
    apply (same_key_same_position if_product_id df_items idx' idx r q Hids Hr Hq).
    congruence. }
  subst idx'.
  assert (Erow : row = map (dot x) tfidf_matrix).
  { unfold getitem, linear_kernel in Hrow. rewrite nth_error_map, Hx in Hrow.
    simpl in Hrow. congruence. }
  rewrite <- Erow.
  assert (Hne : row <> nil).
  { intros ->. destruct df_items; [destruct Hin | discriminate Hrl]. }
  destruct (kept_positions row top_n Hne) as (d & Hbest & Hnd & Hall).
  exists (map project picked). split; [exact Hrec |].
  rewrite recommended_ids_project. split.
  - intros Hfb Hret. apply Hnd.
    rewrite (first_best_unique row d idx Hbest Hfb).
    apply in_map_iff in Hret. destruct Hret as (r & Hrid & Hr).
    destruct (picked_positions _ _ _ _ Hf Hr) as (i & Hi & Hni).
    rewrite <- (same_key_same_position if_product_id df_items i idx r q Hids Hni Hq);
      [exact Hi | congruence].
  - intros Htop Hnfb.
    assert (Hd : idx <> d) by (intros ->; exact (Hnfb Hbest)).
    assert (Hlt : (idx < length row)%nat).
    { rewrite Hrl. apply nth_error_Some. congruence. }
    rewrite Hrl in Hall. rewrite Hrl in Hlt.
    destruct (positions_picked _ _ _ _ Hf (Hall Htop idx Hlt Hd)) as (r & Hr & Hni).
    apply in_map_iff. exists r. split; [congruence | exact Hr].
Qed.

Lemma query_left_out_when_first_best_witness :
  exists recs,
    recommender twin_items twin_tfidf 2 1 = Returned recs
    /\ (first_best (map (dot [1%Q]) twin_tfidf) 1 ->
        ~ In 2 (recommended_ids recs))
    /\ (Z.of_nat (length twin_items) - 1 <= 1 ->
        ~ first_best (map (dot [1%Q]) twin_tfidf) 1 ->
        In 2 (recommended_ids recs)).
Proof.
  apply (query_left_out_when_first_best twin_items twin_tfidf 2 1 1 [1%Q]).
  - reflexivity.
  - simpl. repeat constructor; simpl; intros H; intuition discriminate.
  - reflexivity.
  - reflexivity.
Defined.

End RankingProps.
